(** * Interactive Bézier curve with spring physics: a verification development

    A shallow embedding of [bezier.js], [physics.js] and [input.js], and of
    the two methods of the renderer that draw the curve and the interaction
    hint.

    Modelling conventions.
    - A JavaScript number is a real number ([R]).  The statements proved here
      are the ones of exact arithmetic; rounding, overflow and NaN of IEEE
      doubles are outside the model.  A bound that exact arithmetic meets
      with no room to spare, and that the rounding of doubles can therefore
      miss in the last digit, is stated with the slack [rounding_slack]: a
      billionth of the size of the values it bounds.
    - A point object [{x, y}] is a record [Point].  An array of points is a
      list; every entry of an array is an object of its own (the arrays of
      the program are built from object literals and from spread copies).
    - An array index is an integer ([Z]); [arr[i]] outside the array is
      [undefined] ([None]), and reading a property of [undefined] throws a
      [TypeError].
    - A method is a computation in the monad [M S]: it transforms the state
      [S] it can reach and completes normally or throws.  The state is kept
      when a method throws, as the objects of the program are.
    - A loop bound that is a number ([sampleDensity], [density]) is a real;
      the loop runs over the integers up to it.
    - The canvas context is the list of the calls made on it. *)

From stdpp Require Import base option list strings.
From Stdlib Require Import ZArith Reals Lra Lia.

Local Open Scope R_scope.

(** ** Exceptions and the method monad *)

Inductive exn : Type :=
| InvalidControlPointCount   (* Error('Bezier curve requires exactly 4 control points') *)
| TypeError.                 (* a property read on [undefined] *)

Inductive completion (A : Type) : Type :=
| Normal (a : A)
| Throw (e : exn).
Arguments Normal {A} a.
Arguments Throw {A} e.

Definition M (S A : Type) : Type := S -> completion A * S.

Definition ret {S A} (a : A) : M S A := fun s => (Normal a, s).
Definition throw {S A} (e : exn) : M S A := fun s => (Throw e, s).
Definition bind {S A B} (m : M S A) (k : A -> M S B) : M S B :=
  fun s => match m s with
           | (Normal a, s') => k a s'
           | (Throw e, s') => (Throw e, s')
           end.
Definition get {S} : M S S := fun s => (Normal s, s).
Definition gets {S A} (f : S -> A) : M S A := fun s => (Normal (f s), s).
Definition modify {S} (f : S -> S) : M S unit := fun s => (Normal tt, f s).

Notation "v <- m ;; k" := (bind m (fun v => k))
  (at level 100, m at next level, right associativity).
Notation "m ;;; k" := (bind m (fun _ => k))
  (at level 100, right associativity).

(** [o.x] for a value that may be [undefined]. *)
Definition defined {S A} (o : option A) : M S A :=
  match o with
  | Some a => ret a
  | None => throw TypeError
  end.

(** A loop body ends an iteration ([continue], or its end) or the loop
    ([break]). *)
Inductive ctl : Type := Continue | Break.

(** [for (let i = ...)] over the indices [idxs], in order. *)
Fixpoint for_each {S} (idxs : list Z) (body : Z -> M S ctl) : M S unit :=
  match idxs with
  | [] => ret tt
  | i :: rest =>
      c <- body i ;;
      match c with
      | Continue => for_each rest body
      | Break => ret tt
      end
  end.

(** A call of a method that does not write: its completion, the state as
    it is. *)
Definition lift {S A} (c : completion A) : M S A := fun s => (c, s).

(** ** Points and arrays *)

Record Point : Type := mkPoint { x : R; y : R }.

(** [arr[i]] *)
Definition js_get {A} (arr : list A) (i : Z) : option A :=
  if (i <? 0)%Z then None else arr !! Z.to_nat i.

(** [arr.length] *)
Definition js_length {A} (arr : list A) : Z := Z.of_nat (length arr).

(** ** bezier.js *)

Record BezierCurve : Type := mkBezierCurve {
  controlPoints : list Point;
  curvePoints : list Point;
  sampleDensity : R
}.

(** The values of [i] in [for (let i = first; i < stop; i++)], for an
    integer [stop]. *)
Definition range (first stop : Z) : list Z :=
  map (fun k => (first + Z.of_nat k)%Z) (seq 0 (Z.to_nat (stop - first))).

(** The values of [i] in [for (let i = first; i <= bound; i++)], for a
    number [bound]: the integers from [first] that are at most [bound], that
    is, below [up bound], the least integer above [bound]. *)
Definition range_upto (first : Z) (bound : R) : list Z :=
  range first (up bound).

Definition set_curvePoints (ps : list Point) (b : BezierCurve) : BezierCurve :=
  {| controlPoints := controlPoints b; curvePoints := ps;
     sampleDensity := sampleDensity b |}.

(** An entry [{point, tangent}] of the array [getTangentPoints] returns. *)
Record TangentSample : Type := mkTangentSample { point : Point; tangent : Point }.

Module Bezier.

Definition constructor : BezierCurve :=
  {| controlPoints := []; curvePoints := []; sampleDensity := 200 |}.

Definition calculatePoint (this : BezierCurve) (t : R) : completion Point :=
  match controlPoints this with
  | [p0; p1; p2; p3] =>
      let u := 1 - t in
      let u2 := u * u in
      let u3 := u2 * u in
      let t2 := t * t in
      let t3 := t2 * t in
      let px := u3 * x p0 + 3 * u2 * t * x p1 + 3 * u * t2 * x p2 + t3 * x p3 in
      let py := u3 * y p0 + 3 * u2 * t * y p1 + 3 * u * t2 * y p2 + t3 * y p3 in
      Normal {| x := px; y := py |}
  | _ => Throw InvalidControlPointCount
  end.

Definition calculateTangent (this : BezierCurve) (t : R) : completion Point :=
  match controlPoints this with
  | [p0; p1; p2; p3] =>
      let u := 1 - t in
      let u2 := u * u in
      let t2 := t * t in
      let dx := 3 * u2 * (x p1 - x p0) + 6 * u * t * (x p2 - x p1)
                + 3 * t2 * (x p3 - x p2) in
      let dy := 3 * u2 * (y p1 - y p0) + 6 * u * t * (y p2 - y p1)
                + 3 * t2 * (y p3 - y p2) in
      Normal {| x := dx; y := dy |}
  | _ => Throw InvalidControlPointCount
  end.

Definition calculateNormalizedTangent (this : BezierCurve) (t : R)
  : completion Point :=
  match calculateTangent this t with
  | Throw e => Throw e
  | Normal tangent =>
      let length := sqrt (x tangent * x tangent + y tangent * y tangent) in
      if Req_dec_T length 0 then Normal {| x := 0; y := 0 |}
      else Normal {| x := x tangent / length; y := y tangent / length |}
  end.

(** [t = i / sampleDensity] is a quotient of numbers; for
    [sampleDensity = 0] JavaScript yields [NaN] where the reals yield 0, so
    the statements about this method take a positive [sampleDensity]. *)
Definition sampleCurvePoints : M BezierCurve (list Point) :=
  modify (set_curvePoints []) ;;;
  this <- get ;;
  for_each (range_upto 0 (sampleDensity this))
    (fun i =>
       this <- get ;;
       let t := IZR i / sampleDensity this in
       point <- lift (calculatePoint this t) ;;
       modify (fun b => set_curvePoints (curvePoints b ++ [point]) b) ;;;
       ret Continue) ;;;
  gets curvePoints.

(** The local array [tangents] is the state of the loop. *)
Definition getTangentPoints (this : BezierCurve) (density : R)
  : completion (list TangentSample) :=
  fst ((for_each (range_upto 0 density)
          (fun i =>
             let t := IZR i / density in
             point <- lift (calculatePoint this t) ;;
             tangent <- lift (calculateNormalizedTangent this t) ;;
             modify (fun tangents =>
                       tangents ++ [ {| point := point; tangent := tangent |} ]) ;;;
             ret Continue) ;;;
        get) []).

(** The local variable [length] is the state of the loop. *)
Definition calculateLength : M BezierCurve R :=
  points <- sampleCurvePoints ;;
  lift (fst ((for_each (range 1 (js_length points))
                (fun i =>
                   p <- defined (js_get points i) ;;
                   q <- defined (js_get points (i - 1)) ;;
                   let dx := x p - x q in
                   let dy := y p - y q in
                   modify (fun length => length + sqrt (dx * dx + dy * dy)) ;;;
                   ret Continue) ;;;
              get) 0)).

End Bezier.

(** The curve object holding the four points [p0 .. p3]. *)
Definition curve_of (p0 p1 p2 p3 : Point) : BezierCurve :=
  {| controlPoints := [p0; p1; p2; p3]; curvePoints := []; sampleDensity := 200 |}.

(** The points of the demonstration script. *)
Definition demoPoints : list Point :=
  [ {| x := 100; y := 100 |}; {| x := 200; y := 50 |};
    {| x := 300; y := 150 |}; {| x := 400; y := 100 |} ].

(** ** physics.js *)

(** [velocities] is the one array the class assigns by index
    ([resetPoint]); an assignment past the end leaves holes, which read as
    [undefined], so its entries are optional. *)
Record PhysicsSystem : Type := mkPhysicsSystem {
  springConstant : R;
  damping : R;
  velocities : list (option Point);
  restPositions : list Point;
  mouseInfluence : R
}.

(** [arr[i]] for an array with holes. *)
Definition js_get_sparse {A} (arr : list (option A)) (i : Z) : option A :=
  mjoin (js_get arr i).

(** [arr[i] = v]: in range it replaces the entry, past the end it grows the
    array and leaves holes.  A negative [i] names a property that is not an
    element; no method reads one back (every read of the class is at an
    index that is at least 1), so the model drops the write. *)
Definition js_set {A} (arr : list (option A)) (i : Z) (v : A) : list (option A) :=
  if (i <? 0)%Z then arr
  else if (i <? js_length arr)%Z then <[Z.to_nat i := Some v]> arr
  else arr ++ replicate (Z.to_nat i - length arr)%nat None ++ [Some v].

(** What a method of [PhysicsSystem] reaches: the receiver and the array
    passed as [controlPoints], both mutated in place. *)
Record Sim : Type := mkSim {
  sim_this : PhysicsSystem;
  sim_controlPoints : list Point
}.

Definition set_velocities (vs : list (option Point)) (p : PhysicsSystem) : PhysicsSystem :=
  {| springConstant := springConstant p; damping := damping p;
     velocities := vs; restPositions := restPositions p;
     mouseInfluence := mouseInfluence p |}.

Definition set_restPositions (rs : list Point) (p : PhysicsSystem) : PhysicsSystem :=
  {| springConstant := springConstant p; damping := damping p;
     velocities := velocities p; restPositions := rs;
     mouseInfluence := mouseInfluence p |}.

Definition set_springConstant (k : R) (p : PhysicsSystem) : PhysicsSystem :=
  {| springConstant := k; damping := damping p;
     velocities := velocities p; restPositions := restPositions p;
     mouseInfluence := mouseInfluence p |}.

Definition set_damping (c : R) (p : PhysicsSystem) : PhysicsSystem :=
  {| springConstant := springConstant p; damping := c;
     velocities := velocities p; restPositions := restPositions p;
     mouseInfluence := mouseInfluence p |}.

(** Writes to the fields of the object [velocities[i]], [restPositions[i]]
    or [controlPoints[i]], an entry that exists. *)
Definition write_velocity (i : Z) (v : Point) (s : Sim) : Sim :=
  {| sim_this := set_velocities (<[Z.to_nat i := Some v]> (velocities (sim_this s))) (sim_this s);
     sim_controlPoints := sim_controlPoints s |}.

Definition write_restPosition (i : Z) (r : Point) (s : Sim) : Sim :=
  {| sim_this := set_restPositions (<[Z.to_nat i := r]> (restPositions (sim_this s))) (sim_this s);
     sim_controlPoints := sim_controlPoints s |}.

Definition write_point (i : Z) (p : Point) (s : Sim) : Sim :=
  {| sim_this := sim_this s;
     sim_controlPoints := <[Z.to_nat i := p]> (sim_controlPoints s) |}.

Module Physics.

Definition constructor : PhysicsSystem :=
  {| springConstant := 0.15;
     damping := 0.88;
     velocities := [];
     restPositions := [];
     mouseInfluence := 0.8 |}.

(** One turn of the loop of [setupControlPoints]: two [push]es. *)
Definition setup_push (p : PhysicsSystem) (point : Point) : PhysicsSystem :=
  let p1 := set_velocities (velocities p ++ [Some {| x := 0; y := 0 |}]) p in
  set_restPositions (restPositions p1 ++ [ {| x := x point; y := y point |} ]) p1.

Definition setupControlPoints (this : PhysicsSystem) (controlPoints : list Point)
  : PhysicsSystem :=
  let this1 := set_velocities [] this in
  let this2 := set_restPositions [] this1 in
  fold_left setup_push controlPoints this2.

(** The body of the loop of [update].  The objects [point] and [velocity]
    are written field by field in the source; nothing can throw between
    the first write and the last, so each object is written back once. *)
Definition update_body (i : Z) : M Sim ctl :=
  controlPoints <- gets sim_controlPoints ;;
  if (i >=? js_length controlPoints)%Z then ret Continue else
  this <- gets sim_this ;;
  let point := js_get controlPoints i in
  let velocity := js_get_sparse (velocities this) i in
  let restPosition := js_get (restPositions this) i in
  point <- defined point ;;
  restPosition <- defined restPosition ;;
  let displacementX := x point - x restPosition in
  let displacementY := y point - y restPosition in
  let springForceX := - springConstant this * displacementX in
  let springForceY := - springConstant this * displacementY in
  velocity <- defined velocity ;;
  let dampingForceX := - damping this * x velocity in
  let dampingForceY := - damping this * y velocity in
  let accelerationX := springForceX + dampingForceX in
  let accelerationY := springForceY + dampingForceY in
  let velocity1 := {| x := x velocity + accelerationX;
                      y := y velocity + accelerationY |} in
  let point1 := {| x := x point + x velocity1; y := y point + y velocity1 |} in
  let velocity2 := {| x := x velocity1 * 0.995; y := y velocity1 * 0.995 |} in
  modify (write_point i point1) ;;;
  modify (write_velocity i velocity2) ;;;
  ret Continue.

Definition update : M Sim unit := for_each [1%Z; 2%Z] update_body.

Definition applyForceToPoint (index : Z) (targetX targetY : R) : M Sim unit :=
  controlPoints <- gets sim_controlPoints ;;
  if ((index <? 1) || (index >? 2) || (index >=? js_length controlPoints))%Z
  then ret tt else
  this <- gets sim_this ;;
  let point := js_get controlPoints index in
  let restPosition := js_get (restPositions this) index in
  restPosition <- defined restPosition ;;
  let restPosition1 :=
    {| x := x restPosition + (targetX - x restPosition) * mouseInfluence this;
       y := y restPosition + (targetY - y restPosition) * mouseInfluence this |} in
  modify (write_restPosition index restPosition1) ;;;
  velocity <- defined (js_get_sparse (velocities this) index) ;;
  point <- defined point ;;
  let velocity1 := {| x := x velocity + (targetX - x point) * 0.1;
                      y := y velocity + (targetY - y point) * 0.1 |} in
  modify (write_velocity index velocity1).

Definition resetPoint (index : Z) : M Sim unit :=
  this <- gets sim_this ;;
  if (index <? js_length (restPositions this))%Z
  then modify (fun s =>
         {| sim_this := set_velocities
                          (js_set (velocities (sim_this s)) index {| x := 0; y := 0 |})
                          (sim_this s);
            sim_controlPoints := sim_controlPoints s |})
  else ret tt.

Definition setSpringConstant (k : R) (this : PhysicsSystem) : PhysicsSystem :=
  set_springConstant (Rmax 0.01 (Rmin 0.5 k)) this.

Definition setDamping (damping : R) (this : PhysicsSystem) : PhysicsSystem :=
  set_damping (Rmax 0.7 (Rmin 0.99 damping)) this.

End Physics.

(** ** input.js *)

(** The handler holds the curve and the physics objects ([this.bezier],
    [this.physics]); they are part of the state its methods reach.  The
    canvas is outside the model: its bounding rectangle is an argument of
    the one method that asks for it. *)
Record InputHandler : Type := mkInputHandler {
  bezier : BezierCurve;
  physics : PhysicsSystem;
  mouse : Point;
  isInteracting : bool;
  activePointIndex : Z;
  interactionRadius : R
}.

Record MouseEvent : Type := mkMouseEvent { clientX : R; clientY : R }.
Record DOMRect : Type := mkDOMRect { left : R; top : R }.

Definition set_mouse (m : Point) (h : InputHandler) : InputHandler :=
  {| bezier := bezier h; physics := physics h; mouse := m;
     isInteracting := isInteracting h; activePointIndex := activePointIndex h;
     interactionRadius := interactionRadius h |}.

Definition set_isInteracting (b : bool) (h : InputHandler) : InputHandler :=
  {| bezier := bezier h; physics := physics h; mouse := mouse h;
     isInteracting := b; activePointIndex := activePointIndex h;
     interactionRadius := interactionRadius h |}.

Definition set_activePointIndex (i : Z) (h : InputHandler) : InputHandler :=
  {| bezier := bezier h; physics := physics h; mouse := mouse h;
     isInteracting := isInteracting h; activePointIndex := i;
     interactionRadius := interactionRadius h |}.

Definition set_interactionRadius (r : R) (h : InputHandler) : InputHandler :=
  {| bezier := bezier h; physics := physics h; mouse := mouse h;
     isInteracting := isInteracting h; activePointIndex := activePointIndex h;
     interactionRadius := r |}.

(** The state a physics method leaves behind, stored back in the handler. *)
Definition store_sim (s : Sim) (h : InputHandler) : InputHandler :=
  {| bezier := {| controlPoints := sim_controlPoints s;
                  curvePoints := curvePoints (bezier h);
                  sampleDensity := sampleDensity (bezier h) |};
     physics := sim_this s; mouse := mouse h;
     isInteracting := isInteracting h; activePointIndex := activePointIndex h;
     interactionRadius := interactionRadius h |}.

(** [this.physics.m(..., this.bezier.controlPoints)] *)
Definition call_physics {A} (m : M Sim A) : M InputHandler A :=
  fun h =>
    let '(r, s) := m {| sim_this := physics h;
                        sim_controlPoints := controlPoints (bezier h) |} in
    (r, store_sim s h).

Module Input.

Definition constructor (bezier : BezierCurve) (physics : PhysicsSystem)
  : InputHandler :=
  {| bezier := bezier; physics := physics;
     mouse := {| x := 0; y := 0 |};
     isInteracting := false;
     activePointIndex := -1;
     interactionRadius := 80 |}.

Definition handleMouseMove (rect : DOMRect) (e : MouseEvent) : M InputHandler unit :=
  modify (set_mouse {| x := clientX e - left rect; y := clientY e - top rect |}) ;;;
  this <- get ;;
  if isInteracting this && negb (activePointIndex this =? -1)%Z
  then call_physics (Physics.applyForceToPoint
                       (activePointIndex this) (x (mouse this)) (y (mouse this)))
  else ret tt.

Definition handleMouseDown_body (i : Z) : M InputHandler ctl :=
  this <- get ;;
  if (i >=? js_length (controlPoints (bezier this)))%Z then ret Continue else
  point <- defined (js_get (controlPoints (bezier this)) i) ;;
  let distance := sqrt ((x (mouse this) - x point) ^ 2
                        + (y (mouse this) - y point) ^ 2) in
  if Rlt_dec distance (interactionRadius this)
  then
    modify (set_isInteracting true) ;;;
    modify (set_activePointIndex i) ;;;
    call_physics (Physics.applyForceToPoint
                    i (x (mouse this)) (y (mouse this))) ;;;
    ret Break
  else ret Continue.

Definition handleMouseDown (e : MouseEvent) : M InputHandler unit :=
  for_each [1%Z; 2%Z] handleMouseDown_body.

Definition handleMouseUp (e : MouseEvent) : M InputHandler unit :=
  modify (set_isInteracting false) ;;;
  modify (set_activePointIndex (-1)).

Definition handleMouseLeave (e : MouseEvent) : M InputHandler unit :=
  modify (set_isInteracting false) ;;;
  modify (set_activePointIndex (-1)).

Definition update : M InputHandler unit :=
  this <- get ;;
  if isInteracting this && negb (activePointIndex this =? -1)%Z
  then call_physics (Physics.applyForceToPoint
                       (activePointIndex this) (x (mouse this)) (y (mouse this)))
  else ret tt.

Definition setInteractionRadius (radius : R) : M InputHandler unit :=
  modify (set_interactionRadius radius).

End Input.

(** The calls a page makes on a handler and on the objects it holds: the
    four mouse listeners, the per-frame [update], [setInteractionRadius],
    and the simulation step [physics.update(bezier.controlPoints)] of the
    frame loop. *)
Inductive call : Type :=
| MouseMove (rect : DOMRect) (e : MouseEvent)
| MouseDown (e : MouseEvent)
| MouseUp (e : MouseEvent)
| MouseLeave (e : MouseEvent)
| Update
| SetInteractionRadius (radius : R)
| PhysicsUpdate.

Definition run_call (c : call) : M InputHandler unit :=
  match c with
  | MouseMove rect e => Input.handleMouseMove rect e
  | MouseDown e => Input.handleMouseDown e
  | MouseUp e => Input.handleMouseUp e
  | MouseLeave e => Input.handleMouseLeave e
  | Update => Input.update
  | SetInteractionRadius radius => Input.setInteractionRadius radius
  | PhysicsUpdate => call_physics Physics.update
  end.

(** The handler after a call.  A call that throws ends there; the handler
    keeps what it had written, and the page goes on with the next call. *)
Definition after_call (h : InputHandler) (c : call) : InputHandler :=
  snd (run_call c h).

Definition after_calls (h : InputHandler) (cs : list call) : InputHandler :=
  fold_left after_call cs h.

(** ** The renderer

    The 2D context of the canvas is the list of the calls made on it and of
    the assignments to its properties, oldest first. *)

Inductive ctx_cmd : Type :=
| SetStrokeStyle (value : string)
| SetLineWidth (value : R)
| SetLineJoin (value : string)
| SetLineCap (value : string)
| BeginPath
| MoveTo (px py : R)
| LineTo (px py : R)
| Arc (px py radius startAngle endAngle : R)
| Stroke.

Record Renderer : Type := mkRenderer {
  ctx : list ctx_cmd;
  tangentDensity : R;
  tangentLength : R;
  controlPointRadius : R
}.

(** One call on [this.ctx]. *)
Definition draw (c : ctx_cmd) (r : Renderer) : Renderer :=
  {| ctx := ctx r ++ [c]; tangentDensity := tangentDensity r;
     tangentLength := tangentLength r;
     controlPointRadius := controlPointRadius r |}.

(** A block with a local variable: it runs [m] on the initial value of the
    variable and yields the final one. *)
Definition with_local {S L A} (init : L) (m : M L A) : M S L :=
  fun s => match m init with
           | (Normal _, l) => (Normal l, s)
           | (Throw e, _) => (Throw e, s)
           end.

(** A method of the renderer that is handed the curve object reaches both. *)
Definition on_renderer {A} (m : M Renderer A) : M (Renderer * BezierCurve) A :=
  fun s => let '(r, rd) := m (fst s) in (r, (rd, snd s)).

Definition on_curve {A} (m : M BezierCurve A) : M (Renderer * BezierCurve) A :=
  fun s => let '(r, b) := m (snd s) in (r, (fst s, b)).

Module Render.

Definition constructor : Renderer :=
  {| ctx := []; tangentDensity := 8; tangentLength := 40;
     controlPointRadius := 6 |}.

Definition renderCurve : M (Renderer * BezierCurve) unit :=
  points <- on_curve Bezier.sampleCurvePoints ;;
  if (js_length points <? 2)%Z then ret tt else
  on_renderer (
    modify (draw (SetStrokeStyle "#4fc3f7")) ;;;
    modify (draw (SetLineWidth 3)) ;;;
    modify (draw (SetLineJoin "round")) ;;;
    modify (draw (SetLineCap "round")) ;;;
    modify (draw BeginPath) ;;;
    first <- defined (js_get points 0) ;;
    modify (draw (MoveTo (x first) (y first))) ;;;
    for_each (range 1 (js_length points))
      (fun i =>
         p <- defined (js_get points i) ;;
         modify (draw (LineTo (x p) (y p))) ;;;
         ret Continue) ;;;
    modify (draw Stroke) ;;;
    modify (draw (SetStrokeStyle "rgba(79, 195, 247, 0.3)")) ;;;
    modify (draw (SetLineWidth 8)) ;;;
    modify (draw Stroke)).

Definition renderInteractionHint
    (mouse : Point) (controlPoints : list Point) (interactionRadius : R)
  : M Renderer unit :=
  nearPoint <- with_local false
    (for_each [1%Z; 2%Z]
       (fun i =>
          if (i >=? js_length controlPoints)%Z then ret Continue else
          point <- defined (js_get controlPoints i) ;;
          let distance := sqrt ((x mouse - x point) ^ 2 + (y mouse - y point) ^ 2) in
          if Rlt_dec distance interactionRadius
          then modify (fun _ => true) ;;; ret Break
          else ret Continue)) ;;
  if (nearPoint : bool)
  then
    modify (draw (SetStrokeStyle "rgba(255, 255, 255, 0.2)")) ;;;
    modify (draw (SetLineWidth 1)) ;;;
    modify (draw BeginPath) ;;;
    modify (draw (Arc (x mouse) (y mouse) interactionRadius 0 (PI * 2))) ;;;
    modify (draw Stroke)
  else ret tt.

End Render.

(** ** Specification vocabulary *)

(** The cubic Bernstein blend of four points, in the words of the
    specification: weights [(u³, 3u²t, 3ut², t³)] with [u = 1 - t]. *)
Definition cubic_bernstein (p0 p1 p2 p3 : Point) (t : R) : Point :=
  let u := 1 - t in
  {| x := u ^ 3 * x p0 + 3 * u ^ 2 * t * x p1 + 3 * u * t ^ 2 * x p2 + t ^ 3 * x p3;
     y := u ^ 3 * y p0 + 3 * u ^ 2 * t * y p1 + 3 * u * t ^ 2 * y p2 + t ^ 3 * y p3 |}.

(** [3u²(P1-P0) + 6ut(P2-P1) + 3t²(P3-P2)], in the words of the
    specification. *)
Definition cubic_derivative (p0 p1 p2 p3 : Point) (t : R) : Point :=
  let u := 1 - t in
  {| x := 3 * u ^ 2 * (x p1 - x p0) + 6 * u * t * (x p2 - x p1)
          + 3 * t ^ 2 * (x p3 - x p2);
     y := 3 * u ^ 2 * (y p1 - y p0) + 6 * u * t * (y p2 - y p1)
          + 3 * t ^ 2 * (y p3 - y p2) |}.

(** The Euclidean magnitude of a vector and the distance of two points. *)
Definition magnitude (v : Point) : R := sqrt (x v * x v + y v * y v).

Definition distance (p q : Point) : R :=
  magnitude {| x := x p - x q; y := y p - y q |}.

Definition origin : Point := {| x := 0; y := 0 |}.

(** The point a call returned; the origin stands for a call that threw. *)
Definition returned (c : completion Point) : Point :=
  match c with
  | Normal p => p
  | Throw _ => origin
  end.

(** Vectors, as the specification writes them. *)
Definition vadd (p q : Point) : Point := {| x := x p + x q; y := y p + y q |}.
Definition vsub (p q : Point) : Point := {| x := x p - x q; y := y p - y q |}.
Definition vscale (a : R) (p : Point) : Point := {| x := a * x p; y := a * y p |}.

(** The spring state of index [i] and the control point of index [i]. *)
Definition velocity_at (s : Sim) (i : Z) : option Point :=
  js_get_sparse (velocities (sim_this s)) i.
Definition anchor_at (s : Sim) (i : Z) : option Point :=
  js_get (restPositions (sim_this s)) i.
Definition point_at (s : Sim) (i : Z) : option Point :=
  js_get (sim_controlPoints s) i.

(** The dynamic indices. *)
Definition dynamic (i : Z) : Prop := i = 1%Z \/ i = 2%Z.

(** The spring state exists for every dynamic index the array of control
    points has. *)
Definition spring_state_ready (s : Sim) : Prop :=
  forall i : Z, dynamic i -> (i < js_length (sim_controlPoints s))%Z ->
    is_Some (velocity_at s i) /\ is_Some (anchor_at s i).

(** One spring-damper step of a point, in the words of the specification:
    displacement, velocity after the forces, position after the velocity,
    velocity after the decay.  The result is the new position and the new
    velocity. *)
Definition spring_step (k c : R) (p v a : Point) : Point * Point :=
  let d := vsub p a in
  let v1 := vadd v (vsub (vscale (- k) d) (vscale c v)) in
  let p1 := vadd p v1 in
  (p1, vscale 0.995 v1).

(** The state after [setupControlPoints(controlPoints)]. *)
Definition initialize (this : PhysicsSystem) (controlPoints : list Point) : Sim :=
  {| sim_this := Physics.setupControlPoints this controlPoints;
     sim_controlPoints := controlPoints |}.

(** [n] calls of [update] in a row; a call that throws ends the run. *)
Fixpoint updates (n : nat) : M Sim unit :=
  match n with
  | O => ret tt
  | S n' => Physics.update ;;; updates n'
  end.

(** [s'] differs from [s] by one spring step of index [i], when [s] has a
    control point of that index, and by nothing else. *)
Definition stepped_at (i : Z) (s s' : Sim) : Prop :=
  (forall p v a : Point,
      point_at s i = Some p -> velocity_at s i = Some v -> anchor_at s i = Some a ->
      let k := springConstant (sim_this s) in
      let c := damping (sim_this s) in
      point_at s' i = Some (fst (spring_step k c p v a))
      /\ velocity_at s' i = Some (snd (spring_step k c p v a)))
  /\ (forall j : Z, j <> i ->
        point_at s' j = point_at s j /\ velocity_at s' j = velocity_at s j)
  /\ restPositions (sim_this s') = restPositions (sim_this s)
  /\ springConstant (sim_this s') = springConstant (sim_this s)
  /\ damping (sim_this s') = damping (sim_this s)
  /\ mouseInfluence (sim_this s') = mouseInfluence (sim_this s)
  /\ js_length (sim_controlPoints s') = js_length (sim_controlPoints s)
  /\ js_length (velocities (sim_this s')) = js_length (velocities (sim_this s)).

(** The states of the demonstration script: the simulator set up on the
    demonstration points, and the same after the script's
    [applyForceToPoint(1, 250, 80, controlPoints)]. *)
Definition demo_sim : Sim := initialize Physics.constructor demoPoints.

Definition demo_dragged : Sim := snd (Physics.applyForceToPoint 1 250 80 demo_sim).

(** The simulator set up on the demonstration points and then handed the
    same points with [P1] ten units to the right of where it was set up:
    [P1] is off its anchor and has velocity zero, and [applyForceToPoint]
    was never called. *)
Definition demo_displaced : Sim :=
  {| sim_this := sim_this demo_sim;
     sim_controlPoints :=
       [ {| x := 100; y := 100 |}; {| x := 210; y := 50 |};
         {| x := 300; y := 150 |}; {| x := 400; y := 100 |} ] |}.

(** The slack a bound on values of size [scale] leaves for the rounding of
    doubles: a billionth of [1 + scale]. *)
Definition rounding_slack (scale : R) : R := 1e-9 * (1 + scale).

(** Every dynamic point sits on its anchor with velocity zero. *)
Definition at_rest (s : Sim) : Prop :=
  forall i : Z, dynamic i -> (i < js_length (sim_controlPoints s))%Z ->
    velocity_at s i = Some origin
    /\ exists p : Point, point_at s i = Some p /\ anchor_at s i = Some p.

(** The interaction state of a handler is consistent: it is interacting
    exactly when the active index is a dynamic one, and the active index is
    [-1] when it is not interacting. *)
Definition interaction_invariant (h : InputHandler) : Prop :=
  (isInteracting h = true <-> dynamic (activePointIndex h))
  /\ (isInteracting h = false -> activePointIndex h = (-1)%Z).

(** A norm of the spring state of one point: the largest of the
    displacement from the anchor and twice the velocity, over both axes. *)
Definition spring_norm (p v a : Point) : R :=
  Rmax (Rmax (Rabs (x p - x a)) (2 * Rabs (x v)))
       (Rmax (Rabs (y p - y a)) (2 * Rabs (y v))).

(** The length of the polyline through the points [ps]. *)
Fixpoint polyline_length (ps : list Point) : R :=
  match ps with
  | [] => 0
  | p :: rest =>
      match rest with
      | [] => 0
      | q :: _ => distance q p + polyline_length rest
      end
  end.

(** The parameters [0/n, 1/n, ..., n/n]. *)
Definition sample_parameters (n : nat) : list R :=
  map (fun k => INR k / INR n) (seq 0 (S n)).

(** A chain [t <= t1 <= ... <= tm <= 1]. *)
Fixpoint chain_to_one (t : R) (ts : list R) : Prop :=
  match ts with
  | [] => t <= 1
  | s :: rest => t <= s /\ chain_to_one s rest
  end.

(** The length of the control polygon [P0 P1 P2 P3]. *)
Definition polygon_length (p0 p1 p2 p3 : Point) : R :=
  distance p1 p0 + distance p2 p1 + distance p3 p2.

(** The segment the turn [i] of the loop of [calculateLength] adds. *)
Definition segment (points : list Point) (i : Z) : R :=
  match js_get points i, js_get points (i - 1) with
  | Some p, Some q => distance p q
  | _, _ => 0
  end.

(** The weights of the control polygon's edges in the curve point:
    [B(t) = P0 + tail1(t)·(P1-P0) + tail2(t)·(P2-P1) + tail3(t)·(P3-P2)]. *)
Definition bernstein_tail1 (t : R) : R := 1 - (1 - t) ^ 3.
Definition bernstein_tail2 (t : R) : R := 3 * t ^ 2 - 2 * t ^ 3.
Definition bernstein_tail3 (t : R) : R := t ^ 3.

(** A vector divided by its magnitude; the zero vector stays. *)
Definition normalize (v : Point) : Point :=
  if Req_dec_T (magnitude v) 0 then {| x := 0; y := 0 |}
  else {| x := x v / magnitude v; y := y v / magnitude v |}.

(** The calls a page makes on the simulator once it is set up, all with
    the same array of control points. *)
Inductive sim_call : Type :=
| CallUpdate
| CallApplyForceToPoint (index : Z) (targetX targetY : R)
| CallResetPoint (index : Z)
| CallSetSpringConstant (k : R)
| CallSetDamping (damping : R).

Definition on_this (f : PhysicsSystem -> PhysicsSystem) (s : Sim) : Sim :=
  {| sim_this := f (sim_this s); sim_controlPoints := sim_controlPoints s |}.

Definition run_sim_call (c : sim_call) : M Sim unit :=
  match c with
  | CallUpdate => Physics.update
  | CallApplyForceToPoint index targetX targetY =>
      Physics.applyForceToPoint index targetX targetY
  | CallResetPoint index => Physics.resetPoint index
  | CallSetSpringConstant k => modify (on_this (Physics.setSpringConstant k))
  | CallSetDamping damping => modify (on_this (Physics.setDamping damping))
  end.

(** The calls one after the other; a call that throws ends the run. *)
Fixpoint run_sim_calls (cs : list sim_call) : M Sim unit :=
  match cs with
  | [] => ret tt
  | c :: rest => run_sim_call c ;;; run_sim_calls rest
  end.

(** The constants are within the ranges of their setters. *)
Definition constants_in_range (p : PhysicsSystem) : Prop :=
  0.01 <= springConstant p <= 0.5 /\ 0.7 <= damping p <= 0.99.

(** What the simulator keeps once it is set up. *)
Definition sim_invariant (s : Sim) : Prop :=
  spring_state_ready s
  /\ js_length (velocities (sim_this s)) = js_length (restPositions (sim_this s))
  /\ constants_in_range (sim_this s).

(** A norm of the spring state of one point for the spring constant [k]:
    the largest of the displacement from the anchor and the velocity
    divided by [2k], over both axes. *)
Definition spring_norm_for (k : R) (p v a : Point) : R :=
  Rmax (Rmax (Rabs (x p - x a)) (Rabs (x v) / (2 * k)))
       (Rmax (Rabs (y p - y a)) (Rabs (y v) / (2 * k))).

(** [n] frames with the pointer held at [(targetX, targetY)] on the point
    [index]: each frame applies the force and then steps the simulation. *)
Fixpoint drag_frames (n : nat) (index : Z) (targetX targetY : R) : M Sim unit :=
  match n with
  | O => ret tt
  | S n' =>
      Physics.applyForceToPoint index targetX targetY ;;;
      Physics.update ;;;
      drag_frames n' index targetX targetY
  end.

(** The simulator state a handler holds: its physics object and the
    control points of its curve. *)
Definition handler_sim (h : InputHandler) : Sim :=
  {| sim_this := physics h; sim_controlPoints := controlPoints (bezier h) |}.

(** The pointer is within the interaction radius of the control point of
    index [i]. *)
Definition near_point (h : InputHandler) (i : Z) : Prop :=
  exists p : Point,
    js_get (controlPoints (bezier h)) i = Some p
    /\ distance (mouse h) p < interactionRadius h.

(** The calls one after the other; a call that throws ends the run. *)
Fixpoint run_calls (cs : list call) : M InputHandler unit :=
  match cs with
  | [] => ret tt
  | c :: rest => run_call c ;;; run_calls rest
  end.

(** The renderer after the calls [cmds] on its context. *)
Definition drawn (r : Renderer) (cmds : list ctx_cmd) : Renderer :=
  {| ctx := ctx r ++ cmds; tangentDensity := tangentDensity r;
     tangentLength := tangentLength r;
     controlPointRadius := controlPointRadius r |}.

(** The calls that stroke the polyline from [first] through [rest], with
    its glow. *)
Definition curve_path (first : Point) (rest : list Point) : list ctx_cmd :=
  [SetStrokeStyle "#4fc3f7"; SetLineWidth 3; SetLineJoin "round";
   SetLineCap "round"; BeginPath; MoveTo (x first) (y first)]
  ++ map (fun p => LineTo (x p) (y p)) rest
  ++ [Stroke; SetStrokeStyle "rgba(79, 195, 247, 0.3)"; SetLineWidth 8; Stroke].

(** The calls that draw the interaction hint around the pointer. *)
Definition hint_circle (mouse : Point) (radius : R) : list ctx_cmd :=
  [SetStrokeStyle "rgba(255, 255, 255, 0.2)"; SetLineWidth 1; BeginPath;
   Arc (x mouse) (y mouse) radius 0 (PI * 2); Stroke].

(** * Theorems *)

(** ** Curve mathematics *)

Lemma Point_eq (p q : Point) : x p = x q -> y p = y q -> p = q.
Proof. destruct p, q; simpl; intros -> ->; reflexivity. Qed.

Lemma calculatePoint_four (this : BezierCurve) (p0 p1 p2 p3 : Point) (t : R) :
  controlPoints this = [p0; p1; p2; p3] ->
  Bezier.calculatePoint this t = Normal (cubic_bernstein p0 p1 p2 p3 t).
Proof.
  intros HP. unfold Bezier.calculatePoint, cubic_bernstein. rewrite HP.
  f_equal. apply Point_eq; simpl; ring.
Qed.

Lemma calculateTangent_four (this : BezierCurve) (p0 p1 p2 p3 : Point) (t : R) :
  controlPoints this = [p0; p1; p2; p3] ->
  Bezier.calculateTangent this t = Normal (cubic_derivative p0 p1 p2 p3 t).
Proof.
  intros HP. unfold Bezier.calculateTangent, cubic_derivative. rewrite HP.
  f_equal. apply Point_eq; simpl; ring.
Qed.

Example calculatePoint_demo_half :
  Bezier.calculatePoint
    {| controlPoints := demoPoints; curvePoints := []; sampleDensity := 200 |} (1/2)
  = Normal {| x := 250; y := 100 |}.
Proof. unfold Bezier.calculatePoint; simpl. f_equal. apply Point_eq; simpl; lra. Qed.

Example calculatePoint_three_points_throws (p0 p1 p2 : Point) (t : R) :
  Bezier.calculatePoint
    {| controlPoints := [p0; p1; p2]; curvePoints := []; sampleDensity := 200 |} t
  = Throw InvalidControlPointCount.
Proof. reflexivity. Qed.

(** C1. For a curve with exactly four control points and every real [t],
    [calculatePoint] returns the cubic Bernstein blend
    [u³·P0 + 3u²t·P1 + 3ut²·P2 + t³·P3] with [u = 1 - t], componentwise in
    [x] and [y]; at [t = 0] it returns [P0] and at [t = 1] it returns [P3],
    exactly. *)
Theorem calculatePoint_bernstein
    (this : BezierCurve) (p0 p1 p2 p3 : Point) (t : R) :
  controlPoints this = [p0; p1; p2; p3] ->
  Bezier.calculatePoint this t = Normal (cubic_bernstein p0 p1 p2 p3 t)
  /\ Bezier.calculatePoint this 0 = Normal p0
  /\ Bezier.calculatePoint this 1 = Normal p3.
Proof.
  intros HP. split; [ now apply calculatePoint_four | ].
  split; rewrite (calculatePoint_four _ _ _ _ _ _ HP); f_equal;
    apply Point_eq; simpl; ring.
Qed.

Lemma calculatePoint_bernstein_witness :
  Bezier.calculatePoint (curve_of (mkPoint 100 100) (mkPoint 200 50)
                                  (mkPoint 300 150) (mkPoint 400 100)) (1/2)
  = Normal (cubic_bernstein (mkPoint 100 100) (mkPoint 200 50)
                            (mkPoint 300 150) (mkPoint 400 100) (1/2))
  /\ Bezier.calculatePoint (curve_of (mkPoint 100 100) (mkPoint 200 50)
                                     (mkPoint 300 150) (mkPoint 400 100)) 0
     = Normal (mkPoint 100 100)
  /\ Bezier.calculatePoint (curve_of (mkPoint 100 100) (mkPoint 200 50)
                                     (mkPoint 300 150) (mkPoint 400 100)) 1
     = Normal (mkPoint 400 100).
Proof. apply calculatePoint_bernstein. reflexivity. Defined.

(** The derivative of a real cubic written in the Bernstein basis. *)
Lemma bernstein_derivable (a0 a1 a2 a3 t : R) :
  derivable_pt_lim
    (fun s => (1 - s) ^ 3 * a0 + 3 * (1 - s) ^ 2 * s * a1
              + 3 * (1 - s) * s ^ 2 * a2 + s ^ 3 * a3) t
    (3 * (1 - t) ^ 2 * (a1 - a0) + 6 * (1 - t) * t * (a2 - a1)
     + 3 * t ^ 2 * (a3 - a2)).
Proof.
  pose (c1 := 3 * (a1 - a0)).
  pose (c2 := 3 * (a0 - 2 * a1 + a2)).
  pose (c3 := a3 - 3 * a2 + 3 * a1 - a0).
  apply derivable_pt_lim_ext with
    (f := (fct_cte a0 + mult_real_fct c1 id
           + mult_real_fct c2 (fun s => s ^ 2)
           + mult_real_fct c3 (fun s => s ^ 3))%F).
  { intros s. unfold plus_fct, mult_real_fct, fct_cte, id, c1, c2, c3. ring. }
  assert (E : 3 * (1 - t) ^ 2 * (a1 - a0) + 6 * (1 - t) * t * (a2 - a1)
              + 3 * t ^ 2 * (a3 - a2)
              = 0 + c1 * 1 + c2 * (INR 2 * t ^ pred 2) + c3 * (INR 3 * t ^ pred 3)).
  { unfold c1, c2, c3. simpl. ring. }
  rewrite E.
  apply derivable_pt_lim_plus; [ apply derivable_pt_lim_plus;
                                 [ apply derivable_pt_lim_plus | ] | ].
  - apply derivable_pt_lim_const.
  - apply derivable_pt_lim_scal, derivable_pt_lim_id.
  - apply derivable_pt_lim_scal, derivable_pt_lim_pow.
  - apply derivable_pt_lim_scal, derivable_pt_lim_pow.
Qed.

(** C2. For a curve with exactly four control points and every real [t],
    [calculateTangent] returns [3u²(P1-P0) + 6ut(P2-P1) + 3t²(P3-P2)] with
    [u = 1 - t], and that vector is the derivative in [t] of the point
    [calculatePoint] returns, in each coordinate: the analytic derivative,
    at every [t]. *)
Theorem calculateTangent_derivative
    (this : BezierCurve) (p0 p1 p2 p3 : Point) (t : R) :
  controlPoints this = [p0; p1; p2; p3] ->
  Bezier.calculateTangent this t = Normal (cubic_derivative p0 p1 p2 p3 t)
  /\ derivable_pt_lim (fun s => x (returned (Bezier.calculatePoint this s))) t
       (x (returned (Bezier.calculateTangent this t)))
  /\ derivable_pt_lim (fun s => y (returned (Bezier.calculatePoint this s))) t
       (y (returned (Bezier.calculateTangent this t))).
Proof.
  intros HP. rewrite (calculateTangent_four _ _ _ _ _ _ HP).
  split; [ reflexivity | ].
  split.
  - apply derivable_pt_lim_ext with
      (f := fun s => x (cubic_bernstein p0 p1 p2 p3 s)).
    + intros s. now rewrite (calculatePoint_four _ _ _ _ _ _ HP).
    + apply bernstein_derivable.
  - apply derivable_pt_lim_ext with
      (f := fun s => y (cubic_bernstein p0 p1 p2 p3 s)).
    + intros s. now rewrite (calculatePoint_four _ _ _ _ _ _ HP).
    + apply bernstein_derivable.
Qed.

Lemma calculateTangent_derivative_witness :
  Bezier.calculateTangent (curve_of (mkPoint 100 100) (mkPoint 200 50)
                                    (mkPoint 300 150) (mkPoint 400 100)) (1/2)
  = Normal (cubic_derivative (mkPoint 100 100) (mkPoint 200 50)
                             (mkPoint 300 150) (mkPoint 400 100) (1/2))
  /\ derivable_pt_lim
       (fun s => x (returned (Bezier.calculatePoint
                                (curve_of (mkPoint 100 100) (mkPoint 200 50)
                                          (mkPoint 300 150) (mkPoint 400 100)) s)))
       (1/2)
       (x (returned (Bezier.calculateTangent
                       (curve_of (mkPoint 100 100) (mkPoint 200 50)
                                 (mkPoint 300 150) (mkPoint 400 100)) (1/2))))
  /\ derivable_pt_lim
       (fun s => y (returned (Bezier.calculatePoint
                                (curve_of (mkPoint 100 100) (mkPoint 200 50)
                                          (mkPoint 300 150) (mkPoint 400 100)) s)))
       (1/2)
       (y (returned (Bezier.calculateTangent
                       (curve_of (mkPoint 100 100) (mkPoint 200 50)
                                 (mkPoint 300 150) (mkPoint 400 100)) (1/2)))).
Proof. apply calculateTangent_derivative. reflexivity. Defined.

Example calculateTangent_demo_half :
  Bezier.calculateTangent
    {| controlPoints := demoPoints; curvePoints := []; sampleDensity := 200 |} (1/2)
  = Normal {| x := 300; y := 75 |}.
Proof. unfold Bezier.calculateTangent; simpl. f_equal. apply Point_eq; simpl; lra. Qed.

Lemma sum_squares_nonneg (a b : R) : 0 <= a * a + b * b.
Proof. nra. Qed.

Lemma magnitude_nonneg (v : Point) : 0 <= magnitude v.
Proof. apply sqrt_pos. Qed.

Lemma magnitude_sqr (v : Point) :
  magnitude v * magnitude v = x v * x v + y v * y v.
Proof. apply sqrt_sqrt, sum_squares_nonneg. Qed.

Lemma magnitude_zero_iff (v : Point) : magnitude v = 0 <-> v = origin.
Proof.
  split.
  - intros H. apply sqrt_eq_0 in H; [ | apply sum_squares_nonneg ].
    apply Point_eq; simpl; nra.
  - intros ->. unfold magnitude, origin; simpl.
    replace (0 * 0 + 0 * 0) with 0 by ring. apply sqrt_0.
Qed.

Lemma magnitude_scale (s : R) (v : Point) :
  0 <= s -> magnitude {| x := s * x v; y := s * y v |} = s * magnitude v.
Proof.
  intros Hs. unfold magnitude at 1; simpl.
  apply sqrt_lem_1.
  - apply sum_squares_nonneg.
  - apply Rmult_le_pos; [ assumption | apply magnitude_nonneg ].
  - transitivity (s * s * (magnitude v * magnitude v)); [ ring | ].
    rewrite magnitude_sqr. ring.
Qed.

(** C8. For a curve with exactly four control points and every [t],
    [calculateNormalizedTangent] returns the vector [calculateTangent]
    returns divided by its Euclidean magnitude, a vector of magnitude 1,
    whenever that vector is not zero, and returns exactly [(0,0)], as a
    normal result, when its magnitude is zero. *)
Theorem calculateNormalizedTangent_unit_or_zero
    (this : BezierCurve) (p0 p1 p2 p3 : Point) (t : R) :
  controlPoints this = [p0; p1; p2; p3] ->
  exists T : Point,
    Bezier.calculateTangent this t = Normal T
    /\ (T <> origin ->
        exists N : Point,
          Bezier.calculateNormalizedTangent this t = Normal N
          /\ N = {| x := x T / magnitude T; y := y T / magnitude T |}
          /\ magnitude N = 1)
    /\ (magnitude T = 0 ->
        Bezier.calculateNormalizedTangent this t = Normal {| x := 0; y := 0 |}).
Proof.
  intros HP. exists (cubic_derivative p0 p1 p2 p3 t).
  pose proof (calculateTangent_four _ _ _ _ _ t HP) as HT.
  split; [ exact HT | ].
  unfold Bezier.calculateNormalizedTangent. rewrite HT.
  fold (magnitude (cubic_derivative p0 p1 p2 p3 t)).
  set (T := cubic_derivative p0 p1 p2 p3 t).
  split.
  - intros Hnz.
    assert (Hm : magnitude T <> 0) by (rewrite magnitude_zero_iff; exact Hnz).
    destruct (Req_dec_T (magnitude T) 0) as [E | _]; [ contradiction | ].
    eexists. split; [ reflexivity | ]. split; [ reflexivity | ].
    assert (Hpos : 0 < magnitude T)
      by (pose proof (magnitude_nonneg T); lra).
    replace {| x := x T / magnitude T; y := y T / magnitude T |}
      with {| x := / magnitude T * x T; y := / magnitude T * y T |}
      by (apply Point_eq; simpl; field; exact Hm).
    rewrite magnitude_scale.
    + field. exact Hm.
    + left. now apply Rinv_0_lt_compat.
  - intros E. destruct (Req_dec_T (magnitude T) 0) as [_ | Hne];
      [ reflexivity | contradiction ].
Qed.

Lemma calculateNormalizedTangent_unit_or_zero_witness :
  exists T : Point,
    Bezier.calculateTangent (curve_of (mkPoint 100 100) (mkPoint 200 50)
                                      (mkPoint 300 150) (mkPoint 400 100)) (1/2)
    = Normal T
    /\ (T <> origin ->
        exists N : Point,
          Bezier.calculateNormalizedTangent
            (curve_of (mkPoint 100 100) (mkPoint 200 50)
                      (mkPoint 300 150) (mkPoint 400 100)) (1/2) = Normal N
          /\ N = {| x := x T / magnitude T; y := y T / magnitude T |}
          /\ magnitude N = 1)
    /\ (magnitude T = 0 ->
        Bezier.calculateNormalizedTangent
          (curve_of (mkPoint 100 100) (mkPoint 200 50)
                    (mkPoint 300 150) (mkPoint 400 100)) (1/2)
        = Normal {| x := 0; y := 0 |}).
Proof.
  apply (calculateNormalizedTangent_unit_or_zero
           _ (mkPoint 100 100) (mkPoint 200 50) (mkPoint 300 150) (mkPoint 400 100)).
  reflexivity.
Defined.

(** A stationary point: four coincident control points give the zero
    tangent, and the normalised tangent is the zero vector. *)
Example calculateNormalizedTangent_degenerate (p : Point) (t : R) :
  Bezier.calculateNormalizedTangent (curve_of p p p p) t = Normal {| x := 0; y := 0 |}.
Proof.
  unfold Bezier.calculateNormalizedTangent, Bezier.calculateTangent; simpl.
  match goal with
  | |- context [sqrt ?e] => replace e with 0 by ring
  end.
  rewrite sqrt_0.
  destruct (Req_dec_T 0 0) as [_ | Hne]; [ reflexivity | now destruct Hne ].
Qed.

(** ** Arrays *)

Lemma js_get_Some {A} (arr : list A) (i : Z) (a : A) :
  js_get arr i = Some a -> (0 <= i < js_length arr)%Z.
Proof.
  unfold js_get, js_length. destruct (i <? 0)%Z eqn:E; [ discriminate | ].
  intros H. apply lookup_lt_Some in H. apply Z.ltb_ge in E. lia.
Qed.

Lemma js_get_in_range {A} (arr : list A) (i : Z) :
  (0 <= i < js_length arr)%Z -> is_Some (js_get arr i).
Proof.
  unfold js_get, js_length. intros [H0 H1].
  destruct (i <? 0)%Z eqn:E; [ apply Z.ltb_lt in E; lia | ].
  apply lookup_lt_is_Some. lia.
Qed.

Lemma js_get_out_of_range {A} (arr : list A) (i : Z) :
  (js_length arr <= i)%Z -> js_get arr i = None.
Proof.
  unfold js_get, js_length. intros H.
  destruct (i <? 0)%Z; [ reflexivity | ].
  apply lookup_ge_None. lia.
Qed.

Lemma js_get_insert_eq {A} (arr : list A) (i : Z) (a : A) :
  (0 <= i < js_length arr)%Z -> js_get (<[Z.to_nat i := a]> arr) i = Some a.
Proof.
  unfold js_get, js_length. intros [H0 H1].
  destruct (i <? 0)%Z eqn:E; [ apply Z.ltb_lt in E; lia | ].
  apply list_lookup_insert_eq. lia.
Qed.

Lemma js_get_insert_ne {A} (arr : list A) (i j : Z) (a : A) :
  (0 <= i)%Z -> i <> j -> js_get (<[Z.to_nat i := a]> arr) j = js_get arr j.
Proof.
  unfold js_get. intros H0 Hne.
  destruct (j <? 0)%Z eqn:E; [ reflexivity | ].
  apply Z.ltb_ge in E. apply list_lookup_insert_ne. lia.
Qed.

Lemma js_length_insert {A} (arr : list A) (n : nat) (a : A) :
  js_length (<[n := a]> arr) = js_length arr.
Proof. unfold js_length. now rewrite length_insert. Qed.

Lemma js_get_sparse_Some {A} (arr : list (option A)) (i : Z) (a : A) :
  js_get_sparse arr i = Some a -> (0 <= i < js_length arr)%Z.
Proof.
  unfold js_get_sparse. destruct (js_get arr i) as [o |] eqn:E; [ | discriminate ].
  intros _. eapply js_get_Some, E.
Qed.

Lemma js_get_sparse_insert_eq {A} (arr : list (option A)) (i : Z) (a : A) :
  (0 <= i < js_length arr)%Z ->
  js_get_sparse (<[Z.to_nat i := Some a]> arr) i = Some a.
Proof. intros H. unfold js_get_sparse. now rewrite js_get_insert_eq. Qed.

Lemma js_get_sparse_insert_ne {A} (arr : list (option A)) (i j : Z) (o : option A) :
  (0 <= i)%Z -> i <> j ->
  js_get_sparse (<[Z.to_nat i := o]> arr) j = js_get_sparse arr j.
Proof. intros H0 Hne. unfold js_get_sparse. now rewrite js_get_insert_ne. Qed.

Example js_set_past_the_end :
  js_set [Some 1%nat] 3 7%nat = [Some 1%nat; None; None; Some 7%nat].
Proof. reflexivity. Qed.

Example js_get_sparse_hole :
  js_get_sparse (js_set [Some 1%nat] 3 7%nat) 2 = None.
Proof. reflexivity. Qed.

(** ** The spring simulator *)

Lemma update_body_skip (i : Z) (s : Sim) :
  (js_length (sim_controlPoints s) <= i)%Z ->
  Physics.update_body i s = (Normal Continue, s).
Proof.
  intros H. unfold Physics.update_body, bind, gets.
  destruct (i >=? js_length (sim_controlPoints s))%Z eqn:E; [ reflexivity | ].
  rewrite Z.geb_leb in E. apply Z.leb_gt in E. lia.
Qed.

Lemma update_body_step (i : Z) (s : Sim) (p v a : Point) :
  point_at s i = Some p -> velocity_at s i = Some v -> anchor_at s i = Some a ->
  Physics.update_body i s
  = (Normal Continue,
     write_velocity i
       (snd (spring_step (springConstant (sim_this s)) (damping (sim_this s)) p v a))
       (write_point i
          (fst (spring_step (springConstant (sim_this s)) (damping (sim_this s)) p v a))
          s)).
Proof.
  unfold point_at, velocity_at, anchor_at. intros Hp Hv Ha.
  pose proof (js_get_Some _ _ _ Hp) as [_ Hlt].
  unfold Physics.update_body, bind, gets.
  destruct (i >=? js_length (sim_controlPoints s))%Z eqn:E.
  { apply Z.geb_le in E. lia. }
  rewrite Hp, Ha, Hv. simpl. unfold modify.
  f_equal. unfold spring_step; simpl.
  f_equal; [ f_equal; apply Point_eq; simpl; ring | ].
  unfold write_point. f_equal. f_equal. apply Point_eq; simpl; ring.
Qed.

Lemma update_body_throws (i : Z) (s : Sim) :
  (i < js_length (sim_controlPoints s))%Z ->
  velocity_at s i = None \/ anchor_at s i = None ->
  Physics.update_body i s = (Throw TypeError, s).
Proof.
  unfold velocity_at, anchor_at. intros Hlt H.
  unfold Physics.update_body, bind, gets.
  destruct (i >=? js_length (sim_controlPoints s))%Z eqn:E.
  { apply Z.geb_le in E. lia. }
  destruct (js_get (sim_controlPoints s) i) as [p |]; [ | reflexivity ].
  simpl. destruct (js_get (restPositions (sim_this s)) i) as [a |]; [ | reflexivity ].
  simpl. destruct H as [H | H]; [ | discriminate ].
  rewrite H. reflexivity.
Qed.

Lemma stepped_at_refl (i : Z) (s : Sim) :
  point_at s i = None -> stepped_at i s s.
Proof.
  intros Hn. unfold stepped_at. repeat split; try reflexivity.
  all: intros; congruence.
Qed.

Lemma stepped_at_writes (i : Z) (s : Sim) (p v a : Point) :
  point_at s i = Some p -> velocity_at s i = Some v -> anchor_at s i = Some a ->
  stepped_at i s
    (write_velocity i
       (snd (spring_step (springConstant (sim_this s)) (damping (sim_this s)) p v a))
       (write_point i
          (fst (spring_step (springConstant (sim_this s)) (damping (sim_this s)) p v a))
          s)).
Proof.
  intros Hp Hv Ha.
  pose proof (js_get_Some _ _ _ Hp) as Hpr.
  pose proof (js_get_sparse_Some _ _ _ Hv) as Hvr.
  unfold stepped_at, point_at, velocity_at, anchor_at in *; simpl.
  split; [ | split ].
  - intros p' v' a' Hp' Hv' Ha'.
    assert (p' = p) by congruence. assert (v' = v) by congruence.
    assert (a' = a) by congruence. subst.
    split; [ now apply js_get_insert_eq | now apply js_get_sparse_insert_eq ].
  - intros j Hne. split.
    + apply js_get_insert_ne; [ lia | congruence ].
    + apply js_get_sparse_insert_ne; [ lia | congruence ].
  - repeat split; try reflexivity; apply js_length_insert.
Qed.

(** One turn of the loop of [update] on a state whose spring state exists. *)
Lemma update_body_ready (i : Z) (s : Sim) :
  (0 <= i)%Z ->
  ((i < js_length (sim_controlPoints s))%Z ->
   is_Some (velocity_at s i) /\ is_Some (anchor_at s i)) ->
  exists s' : Sim,
    Physics.update_body i s = (Normal Continue, s') /\ stepped_at i s s'.
Proof.
  intros H0 Hready.
  destruct (Z_lt_ge_dec i (js_length (sim_controlPoints s))) as [Hlt | Hge].
  - destruct (Hready Hlt) as [[v Hv] [a Ha]].
    destruct (js_get_in_range (sim_controlPoints s) i) as [p Hp]; [ lia | ].
    eexists. split.
    + now apply (update_body_step i s p v a).
    + now apply stepped_at_writes.
  - exists s. split.
    + apply update_body_skip. lia.
    + apply stepped_at_refl. apply js_get_out_of_range. lia.
Qed.

Lemma update_two_bodies (s s1 s2 : Sim) :
  Physics.update_body 1 s = (Normal Continue, s1) ->
  Physics.update_body 2 s1 = (Normal Continue, s2) ->
  Physics.update s = (Normal tt, s2).
Proof.
  intros H1 H2. unfold Physics.update; simpl. unfold bind at 1. rewrite H1.
  unfold bind at 1. rewrite H2. reflexivity.
Qed.

(** [update] on a state whose spring state exists: the two turns of the
    loop, in order, each a spring step. *)
Lemma update_ready (s : Sim) :
  spring_state_ready s ->
  exists s1 s2 : Sim,
    Physics.update_body 1 s = (Normal Continue, s1)
    /\ Physics.update_body 2 s1 = (Normal Continue, s2)
    /\ Physics.update s = (Normal tt, s2)
    /\ stepped_at 1 s s1 /\ stepped_at 2 s1 s2.
Proof.
  intros Hready.
  destruct (update_body_ready 1 s) as (s1 & Hb1 & St1); [ lia | | ].
  { intros Hlt. apply Hready; [ now left | exact Hlt ]. }
  pose proof St1 as (_ & Hother & Hrest & _ & _ & _ & Hlen & _).
  destruct (update_body_ready 2 s1) as (s2 & Hb2 & St2); [ lia | | ].
  { intros Hlt. rewrite Hlen in Hlt.
    destruct (Hready 2%Z) as [Hv Ha]; [ now right | exact Hlt | ].
    destruct (Hother 2%Z) as [_ Hv2]; [ lia | ].
    split; [ now rewrite Hv2 | ].
    unfold anchor_at in *. now rewrite Hrest. }
  exists s1, s2.
  split; [ exact Hb1 | ]. split; [ exact Hb2 | ].
  split; [ now apply (update_two_bodies s s1 s2) | ].
  split; assumption.
Qed.

(** C3. One call of [update], on a state whose spring state exists, runs
    the turn of index 1 and then the turn of index 2, and for each index
    [i] in {1,2} that the array of control points has it performs exactly:
    [d = controlPoints[i] - anchor]; [v <- v + (-k·d - c·v)];
    [controlPoints[i] <- controlPoints[i] + v]; [v <- 0.995·v].  The anchors
    are not modified, and neither is any other control point or velocity. *)
Theorem update_spring_step (s : Sim) :
  spring_state_ready s ->
  exists s' : Sim,
    Physics.update s = (Normal tt, s')
    /\ (exists s1 : Sim,
          Physics.update_body 1 s = (Normal Continue, s1)
          /\ Physics.update_body 2 s1 = (Normal Continue, s'))
    /\ (forall (i : Z) (p v a : Point),
          dynamic i ->
          point_at s i = Some p -> velocity_at s i = Some v -> anchor_at s i = Some a ->
          let k := springConstant (sim_this s) in
          let c := damping (sim_this s) in
          let d := vsub p a in
          let v1 := vadd v (vsub (vscale (- k) d) (vscale c v)) in
          point_at s' i = Some (vadd p v1)
          /\ velocity_at s' i = Some (vscale 0.995 v1))
    /\ restPositions (sim_this s') = restPositions (sim_this s)
    /\ (forall j : Z, ~ dynamic j ->
          point_at s' j = point_at s j /\ velocity_at s' j = velocity_at s j).
Proof.
  intros Hready.
  destruct (update_ready s Hready) as (s1 & s2 & Hb1 & Hb2 & Hu & St1 & St2).
  destruct St1 as (Hstep1 & Hother1 & Hrest1 & Hk1 & Hc1 & _ & _ & _).
  destruct St2 as (Hstep2 & Hother2 & Hrest2 & _ & _ & _ & _ & _).
  exists s2. split; [ exact Hu | ].
  split; [ exists s1; now split | ].
  split; [ | split ].
  - intros i p v a [-> | ->] Hp Hv Ha; simpl.
    + destruct (Hstep1 p v a Hp Hv Ha) as [Hp1 Hv1].
      destruct (Hother2 1%Z) as [Hp2 Hv2]; [ lia | ].
      rewrite Hp2, Hv2. split; assumption.
    + destruct (Hother1 2%Z) as [Hp1 Hv1]; [ lia | ].
      unfold anchor_at in *.
      rewrite <- Hp1 in Hp. rewrite <- Hv1 in Hv. rewrite <- Hrest1 in Ha.
      destruct (Hstep2 p v a Hp Hv Ha) as [Hp2 Hv2].
      rewrite Hk1, Hc1 in Hp2, Hv2. split; assumption.
  - now rewrite Hrest2, Hrest1.
  - intros j Hj.
    destruct (Hother1 j) as [Hp1 Hv1]; [ intros ->; apply Hj; now left | ].
    destruct (Hother2 j) as [Hp2 Hv2]; [ intros ->; apply Hj; now right | ].
    split; congruence.
Qed.

Lemma applyForceToPoint_guard (index : Z) (cp : list Point) :
  ((index <? 1) || (index >? 2) || (index >=? js_length cp))%Z = false
  <-> dynamic index /\ (index < js_length cp)%Z.
Proof.
  unfold dynamic. rewrite !orb_false_iff, Z.ltb_ge, Z.gtb_ltb, Z.ltb_ge, Z.geb_leb, Z.leb_gt.
  lia.
Qed.

Lemma applyForceToPoint_ignored (index : Z) (targetX targetY : R) (s : Sim) :
  ~ (dynamic index /\ (index < js_length (sim_controlPoints s))%Z) ->
  Physics.applyForceToPoint index targetX targetY s = (Normal tt, s).
Proof.
  intros H. unfold Physics.applyForceToPoint, bind, gets.
  destruct ((index <? 1) || (index >? 2)
            || (index >=? js_length (sim_controlPoints s)))%Z eqn:E;
    [ reflexivity | ].
  apply applyForceToPoint_guard in E. contradiction.
Qed.

Lemma applyForceToPoint_applied
    (index : Z) (targetX targetY : R) (s : Sim) (p v a : Point) :
  dynamic index ->
  point_at s index = Some p -> velocity_at s index = Some v ->
  anchor_at s index = Some a ->
  Physics.applyForceToPoint index targetX targetY s
  = (Normal tt,
     write_velocity index
       {| x := x v + (targetX - x p) * 0.1; y := y v + (targetY - y p) * 0.1 |}
       (write_restPosition index
          {| x := x a + (targetX - x a) * mouseInfluence (sim_this s);
             y := y a + (targetY - y a) * mouseInfluence (sim_this s) |}
          s)).
Proof.
  unfold point_at, velocity_at, anchor_at. intros Hdyn Hp Hv Ha.
  pose proof (js_get_Some _ _ _ Hp) as [_ Hlt].
  unfold Physics.applyForceToPoint, bind, gets.
  destruct ((index <? 1) || (index >? 2)
            || (index >=? js_length (sim_controlPoints s)))%Z eqn:E.
  { assert (E' : ((index <? 1) || (index >? 2)
                  || (index >=? js_length (sim_controlPoints s)))%Z = false)
      by (apply applyForceToPoint_guard; now split).
    congruence. }
  rewrite Ha. simpl. rewrite Hv. simpl. rewrite Hp. reflexivity.
Qed.

(** The two ways [applyForceToPoint] throws, and what it leaves behind:
    nothing written when the anchor is missing, the anchor moved when only
    the velocity is. *)
Lemma applyForceToPoint_no_anchor (index : Z) (targetX targetY : R) (s : Sim) :
  dynamic index -> (index < js_length (sim_controlPoints s))%Z ->
  anchor_at s index = None ->
  Physics.applyForceToPoint index targetX targetY s = (Throw TypeError, s).
Proof.
  unfold anchor_at. intros Hdyn Hlt Ha.
  unfold Physics.applyForceToPoint, bind, gets.
  destruct ((index <? 1) || (index >? 2)
            || (index >=? js_length (sim_controlPoints s)))%Z eqn:E.
  { assert (E' : ((index <? 1) || (index >? 2)
                  || (index >=? js_length (sim_controlPoints s)))%Z = false)
      by (apply applyForceToPoint_guard; now split).
    congruence. }
  rewrite Ha. reflexivity.
Qed.

Lemma applyForceToPoint_no_velocity
    (index : Z) (targetX targetY : R) (s : Sim) (a : Point) :
  dynamic index -> (index < js_length (sim_controlPoints s))%Z ->
  anchor_at s index = Some a -> velocity_at s index = None ->
  Physics.applyForceToPoint index targetX targetY s
  = (Throw TypeError,
     write_restPosition index
       {| x := x a + (targetX - x a) * mouseInfluence (sim_this s);
          y := y a + (targetY - y a) * mouseInfluence (sim_this s) |}
       s).
Proof.
  unfold anchor_at, velocity_at. intros Hdyn Hlt Ha Hv.
  unfold Physics.applyForceToPoint, bind, gets.
  destruct ((index <? 1) || (index >? 2)
            || (index >=? js_length (sim_controlPoints s)))%Z eqn:E.
  { assert (E' : ((index <? 1) || (index >? 2)
                  || (index >=? js_length (sim_controlPoints s)))%Z = false)
      by (apply applyForceToPoint_guard; now split).
    congruence. }
  rewrite Ha. simpl. rewrite Hv. reflexivity.
Qed.

(** Whatever happens, the state [applyForceToPoint] leaves is the state it
    found, or that state with the anchor of [index] written, or with the
    anchor and the velocity of [index] written; in the last two cases the
    index is dynamic. *)
Lemma applyForceToPoint_writes (index : Z) (targetX targetY : R) (s : Sim) :
  let s' := snd (Physics.applyForceToPoint index targetX targetY s) in
  s' = s
  \/ (dynamic index /\ exists a1 : Point, s' = write_restPosition index a1 s)
  \/ (dynamic index /\ exists a1 v1 : Point,
        s' = write_velocity index v1 (write_restPosition index a1 s)).
Proof.
  simpl.
  destruct ((index <? 1) || (index >? 2)
            || (index >=? js_length (sim_controlPoints s)))%Z eqn:E.
  - left. unfold Physics.applyForceToPoint, bind, gets. now rewrite E.
  - apply applyForceToPoint_guard in E. destruct E as [Hdyn Hlt].
    destruct (anchor_at s index) as [a |] eqn:Ha.
    + destruct (velocity_at s index) as [v |] eqn:Hv.
      * destruct (js_get_in_range (sim_controlPoints s) index) as [p Hp].
        { destruct Hdyn; lia. }
        right; right. split; [ exact Hdyn | ].
        rewrite (applyForceToPoint_applied _ _ _ _ p v a Hdyn Hp Hv Ha).
        simpl. eauto.
      * right; left. split; [ exact Hdyn | ].
        rewrite (applyForceToPoint_no_velocity _ _ _ _ a Hdyn Hlt Ha Hv).
        simpl. eauto.
    + left. now rewrite (applyForceToPoint_no_anchor _ _ _ _ Hdyn Hlt Ha).
Qed.

Lemma applyForceToPoint_frame (index : Z) (targetX targetY : R) (s : Sim) :
  let s' := snd (Physics.applyForceToPoint index targetX targetY s) in
  sim_controlPoints s' = sim_controlPoints s
  /\ (forall j : Z, j <> index ->
        anchor_at s' j = anchor_at s j /\ velocity_at s' j = velocity_at s j)
  /\ springConstant (sim_this s') = springConstant (sim_this s)
  /\ damping (sim_this s') = damping (sim_this s)
  /\ mouseInfluence (sim_this s') = mouseInfluence (sim_this s).
Proof.
  pose proof (applyForceToPoint_writes index targetX targetY s) as H.
  simpl in *.
  destruct H as [-> | [(Hdyn & a1 & ->) | (Hdyn & a1 & v1 & ->)]].
  - repeat split; reflexivity.
  - assert (0 <= index)%Z by (destruct Hdyn; lia).
    unfold anchor_at, velocity_at; simpl. repeat split; try reflexivity.
    apply js_get_insert_ne; [ assumption | congruence ].
  - assert (0 <= index)%Z by (destruct Hdyn; lia).
    unfold anchor_at, velocity_at; simpl. repeat split; try reflexivity.
    + apply js_get_insert_ne; [ assumption | congruence ].
    + apply js_get_sparse_insert_ne; [ assumption | congruence ].
Qed.




Lemma distance_scaled (s : R) (p q p' q' : Point) :
  0 <= s ->
  x p' - x q' = s * (x p - x q) -> y p' - y q' = s * (y p - y q) ->
  distance p' q' = s * distance p q.
Proof.
  intros Hs Hx Hy. unfold distance.
  rewrite <- (magnitude_scale s {| x := x p - x q; y := y p - y q |} Hs).
  f_equal. apply Point_eq; simpl; assumption.
Qed.

Lemma distance_pos (p q : Point) : p <> q -> 0 < distance p q.
Proof.
  intros Hne. unfold distance.
  pose proof (magnitude_nonneg {| x := x p - x q; y := y p - y q |}) as H0.
  destruct (Req_dec_T (magnitude {| x := x p - x q; y := y p - y q |}) 0)
    as [E | E]; [ | lra ].
  apply magnitude_zero_iff in E. exfalso. apply Hne.
  injection E as Ex Ey. apply Point_eq; lra.
Qed.

(** C5. For a dynamic index [i] that the array of control points has, one
    call [applyForceToPoint(i, tx, ty, controlPoints)] sets the anchor to
    [a + influence·(target - a)] and adds exactly [0.1·(target -
    controlPoints[i])] to the velocity.  When the influence factor is in
    (0,1) and the anchor is not the target, the new anchor is strictly
    closer to the target than the old one and is not past it: what is left
    of the way is the fraction [1 - influence] of the old way, and the new
    anchor lies on the segment from the old anchor to the target. *)
Theorem applyForceToPoint_pulls_anchor
    (index : Z) (targetX targetY : R) (s : Sim) (p v a : Point) :
  dynamic index ->
  point_at s index = Some p ->
  velocity_at s index = Some v ->
  anchor_at s index = Some a ->
  let target := {| x := targetX; y := targetY |} in
  let influence := mouseInfluence (sim_this s) in
  exists (s' : Sim) (a' : Point),
    Physics.applyForceToPoint index targetX targetY s = (Normal tt, s')
    /\ anchor_at s' index = Some a'
    /\ a' = vadd a (vscale influence (vsub target a))
    /\ velocity_at s' index = Some (vadd v (vscale 0.1 (vsub target p)))
    /\ (0 < influence < 1 -> a <> target ->
        distance a' target < distance a target
        /\ vsub target a' = vscale (1 - influence) (vsub target a)
        /\ distance a a' + distance a' target = distance a target).
Proof.
  intros Hdyn Hp Hv Ha target influence.
  assert (H0 : (0 <= index)%Z) by (destruct Hdyn; lia).
  pose proof (js_get_Some _ _ _ Ha) as Har.
  pose proof (js_get_sparse_Some _ _ _ Hv) as Hvr.
  exists (write_velocity index
            {| x := x v + (targetX - x p) * 0.1; y := y v + (targetY - y p) * 0.1 |}
            (write_restPosition index
               {| x := x a + (targetX - x a) * influence;
                  y := y a + (targetY - y a) * influence |} s)).
  exists (vadd a (vscale influence (vsub target a))).
  split; [ now apply applyForceToPoint_applied | ].
  split.
  { unfold anchor_at; simpl. rewrite js_get_insert_eq by exact Har.
    f_equal. apply Point_eq; simpl; ring. }
  split; [ reflexivity | ].
  split.
  { unfold velocity_at; simpl. rewrite js_get_sparse_insert_eq by exact Hvr.
    f_equal. apply Point_eq; simpl; ring. }
  intros [Hi0 Hi1] Hne.
  pose proof (distance_pos a target Hne) as Hd.
  assert (Hnear : distance (vadd a (vscale influence (vsub target a))) target
                  = (1 - influence) * distance a target).
  { apply distance_scaled; simpl; [ lra | ring | ring ]. }
  assert (Hmoved : distance a (vadd a (vscale influence (vsub target a)))
                   = influence * distance a target).
  { apply distance_scaled; simpl; [ lra | ring | ring ]. }
  split; [ rewrite Hnear; nra | ].
  split; [ apply Point_eq; simpl; ring | ].
  rewrite Hnear, Hmoved. ring.
Qed.

(** C7. For an index that is not 1 or 2, or that is not below the length
    of the array of control points, [applyForceToPoint] completes normally
    and changes nothing: every velocity, every anchor and every control
    point is as before. *)
Theorem applyForceToPoint_out_of_range_noop
    (index : Z) (targetX targetY : R) (s : Sim) :
  ~ dynamic index \/ (js_length (sim_controlPoints s) <= index)%Z ->
  Physics.applyForceToPoint index targetX targetY s = (Normal tt, s).
Proof.
  intros H. apply applyForceToPoint_ignored. intros [Hdyn Hlt].
  destruct H as [H | H]; [ contradiction | lia ].
Qed.

(** ** Set-up *)

Lemma setup_push_fold (controlPoints : list Point) (this : PhysicsSystem) :
  let this' := fold_left Physics.setup_push controlPoints this in
  velocities this' = velocities this ++ replicate (length controlPoints) (Some origin)
  /\ restPositions this' = restPositions this ++ controlPoints
  /\ springConstant this' = springConstant this
  /\ damping this' = damping this
  /\ mouseInfluence this' = mouseInfluence this.
Proof.
  revert this. induction controlPoints as [| point rest IH]; intros this; simpl.
  - rewrite !app_nil_r. repeat split; reflexivity.
  - destruct (IH (Physics.setup_push this point)) as (Hv & Hr & Hk & Hc & Hm).
    rewrite Hv, Hr, Hk, Hc, Hm. simpl. rewrite <- !app_assoc. simpl.
    destruct point as [px py]. repeat split; reflexivity.
Qed.

Lemma setupControlPoints_state (this : PhysicsSystem) (controlPoints : list Point) :
  let this' := Physics.setupControlPoints this controlPoints in
  velocities this' = replicate (length controlPoints) (Some origin)
  /\ restPositions this' = controlPoints
  /\ springConstant this' = springConstant this
  /\ damping this' = damping this
  /\ mouseInfluence this' = mouseInfluence this.
Proof.
  unfold Physics.setupControlPoints.
  destruct (setup_push_fold controlPoints
              (set_restPositions [] (set_velocities [] this)))
    as (Hv & Hr & Hk & Hc & Hm).
  simpl in *. repeat split; assumption.
Qed.

Lemma initialize_anchor (this : PhysicsSystem) (controlPoints : list Point) (i : Z) :
  anchor_at (initialize this controlPoints) i = js_get controlPoints i.
Proof.
  unfold anchor_at, initialize; simpl.
  destruct (setupControlPoints_state this controlPoints) as (_ & Hr & _).
  simpl in Hr. now rewrite Hr.
Qed.

Lemma initialize_velocity (this : PhysicsSystem) (controlPoints : list Point) (i : Z) :
  velocity_at (initialize this controlPoints) i
  = if (i <? 0)%Z then None
    else if (i <? js_length controlPoints)%Z then Some origin else None.
Proof.
  unfold velocity_at, initialize, js_get_sparse, js_get; simpl.
  destruct (setupControlPoints_state this controlPoints) as (Hv & _).
  simpl in Hv. rewrite Hv.
  destruct (i <? 0)%Z eqn:E0; [ reflexivity | ]. apply Z.ltb_ge in E0.
  unfold js_length.
  destruct (i <? Z.of_nat (length controlPoints))%Z eqn:E1.
  - apply Z.ltb_lt in E1. rewrite lookup_replicate_2 by lia. reflexivity.
  - apply Z.ltb_ge in E1. rewrite lookup_ge_None_2; [ reflexivity | ].
    rewrite length_replicate. lia.
Qed.

Lemma initialize_ready (this : PhysicsSystem) (controlPoints : list Point) :
  spring_state_ready (initialize this controlPoints).
Proof.
  intros i Hdyn Hlt. simpl in Hlt.
  assert (0 <= i)%Z by (destruct Hdyn; lia).
  rewrite initialize_velocity, initialize_anchor.
  destruct (i <? 0)%Z eqn:E0; [ apply Z.ltb_lt in E0; lia | ].
  destruct (i <? js_length controlPoints)%Z eqn:E1;
    [ | apply Z.ltb_ge in E1; lia ].
  split; [ eauto | apply js_get_in_range; lia ].
Qed.

Example demo_sim_anchor_1 : anchor_at demo_sim 1 = Some {| x := 200; y := 50 |}.
Proof. reflexivity. Qed.

Example demo_dragged_anchor_1 :
  anchor_at demo_dragged 1
  = Some {| x := 200 + (250 - 200) * 0.8; y := 50 + (80 - 50) * 0.8 |}.
Proof. reflexivity. Qed.

Example demo_dragged_velocity_1 :
  velocity_at demo_dragged 1
  = Some {| x := 0 + (250 - 200) * 0.1; y := 0 + (80 - 50) * 0.1 |}.
Proof. reflexivity. Qed.

Lemma update_spring_step_witness :
  spring_state_ready demo_dragged
  /\ exists s' : Sim,
       Physics.update demo_dragged = (Normal tt, s')
       /\ (let p := {| x := 200; y := 50 |} in
           let v := {| x := 0 + (250 - 200) * 0.1; y := 0 + (80 - 50) * 0.1 |} in
           let a := {| x := 200 + (250 - 200) * 0.8; y := 50 + (80 - 50) * 0.8 |} in
           let v1 := vadd v (vsub (vscale (Ropp 0.15) (vsub p a)) (vscale 0.88 v)) in
           point_at s' 1 = Some (vadd p v1)
           /\ velocity_at s' 1 = Some (vscale 0.995 v1))
       /\ restPositions (sim_this s') = restPositions (sim_this demo_dragged)
       /\ point_at s' 0 = point_at demo_dragged 0
       /\ point_at s' 3 = point_at demo_dragged 3.
Proof.
  assert (Hready : spring_state_ready demo_dragged).
  { intros i [-> | ->] _; split; eexists; reflexivity. }
  split; [ exact Hready | ].
  destruct (update_spring_step demo_dragged Hready)
    as (s' & Hu & _ & Hstep & Hrest & Hother).
  exists s'. split; [ exact Hu | ].
  split.
  { apply (Hstep 1%Z); [ now left | reflexivity | reflexivity | reflexivity ]. }
  split; [ exact Hrest | ].
  split; apply Hother; unfold dynamic; lia.
Defined.

Lemma applyForceToPoint_pulls_anchor_witness :
  let target := {| x := 250; y := 80 |} in
  let a := {| x := 200; y := 50 |} in
  exists (s' : Sim) (a' : Point),
    Physics.applyForceToPoint 1 250 80 demo_sim = (Normal tt, s')
    /\ anchor_at s' 1 = Some a'
    /\ a' = vadd a (vscale 0.8 (vsub target a))
    /\ velocity_at s' 1
       = Some (vadd origin (vscale 0.1 (vsub target {| x := 200; y := 50 |})))
    /\ distance a' target < distance a target
    /\ vsub target a' = vscale (1 - 0.8) (vsub target a)
    /\ distance a a' + distance a' target = distance a target.
Proof.
  intros target a.
  destruct (applyForceToPoint_pulls_anchor 1 250 80 demo_sim
              {| x := 200; y := 50 |} origin a)
    as (s' & a' & Hcall & Ha' & Heq & Hv & Hnear);
    [ now left | reflexivity | reflexivity | reflexivity | ].
  exists s', a'.
  split; [ exact Hcall | ]. split; [ exact Ha' | ]. split; [ exact Heq | ].
  split; [ exact Hv | ].
  apply Hnear.
  - simpl. lra.
  - intros E. apply (f_equal x) in E. simpl in E. lra.
Defined.

Lemma applyForceToPoint_out_of_range_noop_witness :
  Physics.applyForceToPoint 5 250 80 demo_sim = (Normal tt, demo_sim)
  /\ Physics.applyForceToPoint 0 250 80 demo_sim = (Normal tt, demo_sim)
  /\ Physics.applyForceToPoint 2 250 80 (initialize Physics.constructor [origin; origin])
     = (Normal tt, initialize Physics.constructor [origin; origin]).
Proof.
  split; [ | split ].
  - apply applyForceToPoint_out_of_range_noop. right. unfold js_length. simpl. lia.
  - apply applyForceToPoint_out_of_range_noop. left. unfold dynamic. lia.
  - apply applyForceToPoint_out_of_range_noop. right. unfold js_length. simpl. lia.
Defined.

(** ** Missing spring state *)

Lemma is_Some_or_None {A} (o : option A) : is_Some o \/ o = None.
Proof. destruct o; [ left; eauto | now right ]. Qed.

Lemma not_ready_index (s : Sim) :
  spring_state_ready s
  \/ exists i : Z, dynamic i /\ (i < js_length (sim_controlPoints s))%Z
                   /\ (velocity_at s i = None \/ anchor_at s i = None).
Proof.
  assert (D : forall i : Z,
             ((i < js_length (sim_controlPoints s))%Z ->
              is_Some (velocity_at s i) /\ is_Some (anchor_at s i))
             \/ ((i < js_length (sim_controlPoints s))%Z
                 /\ (velocity_at s i = None \/ anchor_at s i = None))).
  { intros i.
    destruct (Z_lt_ge_dec i (js_length (sim_controlPoints s))) as [Hlt | Hge];
      [ | left; lia ].
    destruct (is_Some_or_None (velocity_at s i)) as [Hv | Hv];
      [ | right; auto ].
    destruct (is_Some_or_None (anchor_at s i)) as [Ha | Ha];
      [ left; auto | right; auto ]. }
  destruct (D 1%Z) as [H1 | H1].
  - destruct (D 2%Z) as [H2 | H2].
    + left. intros i [-> | ->]; assumption.
    + right. exists 2%Z. split; [ now right | exact H2 ].
  - right. exists 1%Z. split; [ now left | exact H1 ].
Qed.

Lemma update_throws_at_1 (s : Sim) :
  (1 < js_length (sim_controlPoints s))%Z ->
  velocity_at s 1 = None \/ anchor_at s 1 = None ->
  Physics.update s = (Throw TypeError, s).
Proof.
  intros Hlt H. unfold Physics.update; simpl. unfold bind at 1.
  now rewrite (update_body_throws 1 s Hlt H).
Qed.

(** The second turn throws after the first has moved [controlPoints[1]]. *)
Lemma update_throws_at_2 (s : Sim) :
  (2 < js_length (sim_controlPoints s))%Z ->
  is_Some (velocity_at s 1) -> is_Some (anchor_at s 1) ->
  velocity_at s 2 = None \/ anchor_at s 2 = None ->
  exists s1 : Sim,
    Physics.update_body 1 s = (Normal Continue, s1)
    /\ stepped_at 1 s s1
    /\ Physics.update s = (Throw TypeError, s1).
Proof.
  intros Hlt Hv1 Ha1 H2.
  destruct (update_body_ready 1 s) as (s1 & Hb1 & St1); [ lia | auto | ].
  exists s1. split; [ exact Hb1 | ]. split; [ exact St1 | ].
  destruct St1 as (_ & Hother & Hrest & _ & _ & _ & Hlen & _).
  unfold Physics.update; simpl. unfold bind at 1. rewrite Hb1.
  unfold bind at 1. rewrite update_body_throws; [ reflexivity | lia | ].
  destruct (Hother 2%Z) as [_ Hv]; [ lia | ].
  unfold anchor_at in *. rewrite Hv, Hrest. exact H2.
Qed.

Lemma update_not_ready (s : Sim) :
  ~ spring_state_ready s -> fst (Physics.update s) = Throw TypeError.
Proof.
  intros Hnot.
  destruct (not_ready_index s) as [Hr | (i & Hdyn & Hlt & Hmiss)];
    [ contradiction | ].
  destruct Hdyn as [-> | ->].
  - now rewrite (update_throws_at_1 s Hlt Hmiss).
  - destruct (is_Some_or_None (velocity_at s 1)) as [Hv1 | Hv1].
    + destruct (is_Some_or_None (anchor_at s 1)) as [Ha1 | Ha1].
      * destruct (update_throws_at_2 s Hlt Hv1 Ha1 Hmiss) as (s1 & _ & _ & Hu).
        now rewrite Hu.
      * rewrite (update_throws_at_1 s); [ reflexivity | lia | now right ].
    + rewrite (update_throws_at_1 s); [ reflexivity | lia | now left ].
Qed.

Lemma constructor_no_state (controlPoints : list Point) (i : Z) :
  let s := {| sim_this := Physics.constructor; sim_controlPoints := controlPoints |} in
  velocity_at s i = None /\ anchor_at s i = None.
Proof.
  simpl. unfold velocity_at, anchor_at, js_get_sparse, js_get; simpl.
  destruct (i <? 0)%Z; split; reflexivity.
Qed.

(** C10. The guards of [update] and [applyForceToPoint] look at the length
    of the array of control points only.  [update] completes exactly when
    the velocity and the anchor exist for every dynamic index below that
    length, and throws a [TypeError] otherwise; [applyForceToPoint], at a
    dynamic index below that length, completes exactly when the velocity and
    the anchor of the index exist.  After [setupControlPoints] they exist
    exactly for the indices of the array it was given; before it, or after
    it was given a shorter array, both methods throw. *)
Theorem spring_state_precondition :
  (forall s : Sim,
      (exists s' : Sim, Physics.update s = (Normal tt, s')) <-> spring_state_ready s)
  /\ (forall s : Sim,
        ~ spring_state_ready s -> fst (Physics.update s) = Throw TypeError)
  /\ (forall (index : Z) (targetX targetY : R) (s : Sim),
        dynamic index -> (index < js_length (sim_controlPoints s))%Z ->
        ((exists s' : Sim,
             Physics.applyForceToPoint index targetX targetY s = (Normal tt, s'))
         <-> is_Some (velocity_at s index) /\ is_Some (anchor_at s index))
        /\ (~ (is_Some (velocity_at s index) /\ is_Some (anchor_at s index)) ->
            fst (Physics.applyForceToPoint index targetX targetY s) = Throw TypeError))
  /\ (forall (this : PhysicsSystem) (controlPoints : list Point) (i : Z),
        (0 <= i)%Z ->
        (is_Some (velocity_at (initialize this controlPoints) i)
         /\ is_Some (anchor_at (initialize this controlPoints) i))
        <-> (i < js_length controlPoints)%Z)
  /\ (forall (controlPoints : list Point) (targetX targetY : R),
        (1 < js_length controlPoints)%Z ->
        let s := {| sim_this := Physics.constructor;
                    sim_controlPoints := controlPoints |} in
        Physics.update s = (Throw TypeError, s)
        /\ Physics.applyForceToPoint 1 targetX targetY s = (Throw TypeError, s))
  /\ (forall (this : PhysicsSystem) (shorter controlPoints : list Point)
             (i : Z) (targetX targetY : R),
        dynamic i ->
        (js_length shorter <= i < js_length controlPoints)%Z ->
        let s := {| sim_this := Physics.setupControlPoints this shorter;
                    sim_controlPoints := controlPoints |} in
        fst (Physics.update s) = Throw TypeError
        /\ Physics.applyForceToPoint i targetX targetY s = (Throw TypeError, s)).
Proof.
  assert (Hupd : forall s : Sim,
             (exists s' : Sim, Physics.update s = (Normal tt, s'))
             <-> spring_state_ready s).
  { intros s. split.
    - intros [s' Hu]. destruct (not_ready_index s) as [Hr | Hbad]; [ exact Hr | ].
      assert (Hn : ~ spring_state_ready s).
      { destruct Hbad as (i & Hdyn & Hlt & Hmiss). intros Hr.
        destruct (Hr i Hdyn Hlt) as [[v Hv] [a Ha]].
        destruct Hmiss; congruence. }
      apply update_not_ready in Hn. rewrite Hu in Hn. discriminate.
    - intros Hr. destruct (update_ready s Hr) as (s1 & s2 & _ & _ & Hu & _).
      eauto. }
  assert (Happ : forall (index : Z) (targetX targetY : R) (s : Sim),
             dynamic index -> (index < js_length (sim_controlPoints s))%Z ->
             ~ (is_Some (velocity_at s index) /\ is_Some (anchor_at s index)) ->
             fst (Physics.applyForceToPoint index targetX targetY s)
             = Throw TypeError).
  { intros index targetX targetY s Hdyn Hlt Hn.
    destruct (anchor_at s index) as [a |] eqn:Ha.
    - destruct (velocity_at s index) as [v |] eqn:Hv.
      + exfalso. apply Hn. eauto.
      + now rewrite (applyForceToPoint_no_velocity _ _ _ _ a Hdyn Hlt Ha Hv).
    - now rewrite (applyForceToPoint_no_anchor _ _ _ _ Hdyn Hlt Ha). }
  split; [ exact Hupd | ].
  split; [ exact update_not_ready | ].
  split; [ | split; [ | split ] ].
  - intros index targetX targetY s Hdyn Hlt. split; [ | now apply Happ ].
    split.
    + intros [s' Hcall].
      destruct (is_Some_or_None (velocity_at s index)) as [Hv | Hv];
        destruct (is_Some_or_None (anchor_at s index)) as [Ha | Ha];
        [ now split | | | ].
      all: assert (Hn : ~ (is_Some (velocity_at s index)
                           /\ is_Some (anchor_at s index)))
        by (intros [[v Hv'] [a Ha']]; congruence).
      all: apply (Happ index targetX targetY s Hdyn Hlt) in Hn.
      all: rewrite Hcall in Hn; discriminate.
    + intros [[v Hv] [a Ha]].
      destruct (js_get_in_range (sim_controlPoints s) index) as [p Hp].
      { destruct Hdyn; lia. }
      rewrite (applyForceToPoint_applied _ _ _ _ p v a Hdyn Hp Hv Ha). eauto.
  - intros this controlPoints i H0.
    rewrite initialize_velocity, initialize_anchor.
    destruct (i <? 0)%Z eqn:E0; [ apply Z.ltb_lt in E0; lia | ].
    destruct (i <? js_length controlPoints)%Z eqn:E1.
    + apply Z.ltb_lt in E1. split; [ intros _; exact E1 | ].
      intros _. split; [ eauto | apply js_get_in_range; lia ].
    + apply Z.ltb_ge in E1. split; [ | lia ].
      intros [[v Hv] _]. discriminate.
  - intros controlPoints targetX targetY Hlen s.
    destruct (constructor_no_state controlPoints 1) as [Hv Ha].
    split.
    + apply update_throws_at_1; [ exact Hlen | now left ].
    + apply applyForceToPoint_no_anchor; [ now left | exact Hlen | exact Ha ].
  - intros this shorter controlPoints i targetX targetY Hdyn [Hge Hlt] s.
    assert (Ha : anchor_at s i = None).
    { pose proof (initialize_anchor this shorter i) as E.
      unfold anchor_at, initialize in *; simpl in *. rewrite E.
      now apply js_get_out_of_range. }
    split.
    + apply update_not_ready. intros Hr.
      destruct (Hr i Hdyn Hlt) as [_ [a Ha']]. congruence.
    + now apply applyForceToPoint_no_anchor.
Qed.

Example update_before_setup_throws :
  Physics.update {| sim_this := Physics.constructor; sim_controlPoints := demoPoints |}
  = (Throw TypeError,
     {| sim_this := Physics.constructor; sim_controlPoints := demoPoints |}).
Proof. reflexivity. Qed.

(** ** Settling *)

Lemma js_get_insert_id {A} (arr : list A) (i : Z) (a : A) :
  js_get arr i = Some a -> <[Z.to_nat i := a]> arr = arr.
Proof.
  unfold js_get. destruct (i <? 0)%Z; [ discriminate | ].
  apply list_insert_id.
Qed.

Lemma js_get_sparse_insert_id {A} (arr : list (option A)) (i : Z) (a : A) :
  js_get_sparse arr i = Some a -> <[Z.to_nat i := Some a]> arr = arr.
Proof.
  unfold js_get_sparse. destruct (js_get arr i) as [o |] eqn:E; [ | discriminate ].
  simpl. intros ->. now apply js_get_insert_id.
Qed.

(** A point at rest is a fixed point of the spring step. *)
Lemma spring_step_at_rest (k c : R) (p : Point) :
  spring_step k c p origin p = (p, origin).
Proof.
  unfold spring_step. f_equal; apply Point_eq; simpl; ring.
Qed.

Lemma update_body_at_rest (i : Z) (s : Sim) :
  (0 <= i)%Z ->
  ((i < js_length (sim_controlPoints s))%Z ->
   velocity_at s i = Some origin
   /\ exists p : Point, point_at s i = Some p /\ anchor_at s i = Some p) ->
  Physics.update_body i s = (Normal Continue, s).
Proof.
  intros H0 Hrest.
  destruct (Z_lt_ge_dec i (js_length (sim_controlPoints s))) as [Hlt | Hge];
    [ | apply update_body_skip; lia ].
  destruct (Hrest Hlt) as (Hv & p & Hp & Ha).
  rewrite (update_body_step i s p origin p Hp Hv Ha).
  rewrite spring_step_at_rest. simpl.
  unfold write_velocity, write_point; simpl.
  unfold point_at, velocity_at in *.
  rewrite (js_get_insert_id _ _ _ Hp), (js_get_sparse_insert_id _ _ _ Hv).
  destruct s as [[k c vs rs m] cp]; reflexivity.
Qed.

Lemma update_at_rest (s : Sim) :
  at_rest s -> Physics.update s = (Normal tt, s).
Proof.
  intros Hrest. apply (update_two_bodies s s s).
  - apply update_body_at_rest; [ lia | ]. intros Hlt. apply Hrest; [ now left | exact Hlt ].
  - apply update_body_at_rest; [ lia | ]. intros Hlt. apply Hrest; [ now right | exact Hlt ].
Qed.

Lemma updates_at_rest (n : nat) (s : Sim) :
  at_rest s -> updates n s = (Normal tt, s).
Proof.
  intros Hrest. induction n as [| n IH]; [ reflexivity | ].
  simpl. unfold bind. now rewrite (update_at_rest s Hrest).
Qed.

Lemma initialize_at_rest (this : PhysicsSystem) (controlPoints : list Point) :
  at_rest (initialize this controlPoints).
Proof.
  intros i Hdyn Hlt. simpl in Hlt.
  assert (0 <= i)%Z by (destruct Hdyn; lia).
  rewrite initialize_velocity, initialize_anchor.
  destruct (i <? 0)%Z eqn:E0; [ apply Z.ltb_lt in E0; lia | ].
  destruct (i <? js_length controlPoints)%Z eqn:E1;
    [ | apply Z.ltb_ge in E1; lia ].
  split; [ reflexivity | ].
  destruct (js_get_in_range controlPoints i) as [p Hp]; [ lia | ].
  exists p. split; [ exact Hp | exact Hp ].
Qed.

Lemma magnitude_origin : magnitude origin = 0.
Proof. now apply magnitude_zero_iff. Qed.

(** ** The input handler *)

Lemma call_physics_flags {A} (m : M Sim A) (h : InputHandler) :
  isInteracting (snd (call_physics m h)) = isInteracting h
  /\ activePointIndex (snd (call_physics m h)) = activePointIndex h.
Proof.
  unfold call_physics.
  destruct (m {| sim_this := physics h; sim_controlPoints := controlPoints (bezier h) |})
    as [r s].
  split; reflexivity.
Qed.

(** A turn of the loop of [handleMouseDown] leaves the interaction state as
    it was or starts an interaction with its index. *)
Lemma handleMouseDown_body_flags (i : Z) (h : InputHandler) :
  let h' := snd (Input.handleMouseDown_body i h) in
  (isInteracting h' = isInteracting h /\ activePointIndex h' = activePointIndex h)
  \/ (isInteracting h' = true /\ activePointIndex h' = i).
Proof.
  simpl. unfold Input.handleMouseDown_body, bind, get, modify, defined, ret, throw.
  destruct (i >=? js_length (controlPoints (bezier h)))%Z;
    [ left; split; reflexivity | ].
  destruct (js_get (controlPoints (bezier h)) i) as [point |];
    [ | left; split; reflexivity ].
  destruct (Rlt_dec _ _); [ | left; split; reflexivity ].
  right.
  set (h1 := set_activePointIndex i (set_isInteracting true h)).
  destruct (call_physics_flags
              (Physics.applyForceToPoint i (x (mouse h)) (y (mouse h))) h1)
    as [Hi Ha].
  destruct (call_physics _ h1) as [[[] | e] h2]; simpl in *;
    rewrite Hi, Ha; split; reflexivity.
Qed.

Lemma interaction_invariant_idle (h : InputHandler) :
  isInteracting h = false -> activePointIndex h = (-1)%Z ->
  interaction_invariant h.
Proof.
  intros Hi Ha. unfold interaction_invariant, dynamic. rewrite Hi, Ha.
  split; [ split; [ discriminate | lia ] | reflexivity ].
Qed.

Lemma interaction_invariant_dragging (h : InputHandler) :
  isInteracting h = true -> dynamic (activePointIndex h) ->
  interaction_invariant h.
Proof.
  intros Hi Ha. unfold interaction_invariant. rewrite Hi.
  split; [ split; auto | discriminate ].
Qed.

Lemma interaction_invariant_flags (h h' : InputHandler) :
  isInteracting h' = isInteracting h ->
  activePointIndex h' = activePointIndex h ->
  interaction_invariant h -> interaction_invariant h'.
Proof.
  unfold interaction_invariant. intros -> ->. auto.
Qed.

Lemma handleMouseDown_invariant (e : MouseEvent) (h : InputHandler) :
  interaction_invariant h ->
  interaction_invariant (snd (Input.handleMouseDown e h)).
Proof.
  intros Hinv. unfold Input.handleMouseDown; simpl. unfold bind, ret.
  pose proof (handleMouseDown_body_flags 1 h) as F1. simpl in F1.
  destruct (Input.handleMouseDown_body 1 h) as [[[ | ] | e1] h1]; simpl in *.
  - pose proof (handleMouseDown_body_flags 2 h1) as F2. simpl in F2.
    assert (Hinv1 : interaction_invariant h1).
    { destruct F1 as [[Hi Ha] | [Hi Ha]].
      - now apply (interaction_invariant_flags h).
      - apply interaction_invariant_dragging; [ exact Hi | rewrite Ha; now left ]. }
    destruct (Input.handleMouseDown_body 2 h1) as [[[ | ] | e2] h2]; simpl in *.
    all: destruct F2 as [[Hi Ha] | [Hi Ha]];
      [ now apply (interaction_invariant_flags h1)
      | apply interaction_invariant_dragging; [ exact Hi | rewrite Ha; now right ] ].
  - destruct F1 as [[Hi Ha] | [Hi Ha]].
    + now apply (interaction_invariant_flags h).
    + apply interaction_invariant_dragging; [ exact Hi | rewrite Ha; now left ].
  - destruct F1 as [[Hi Ha] | [Hi Ha]].
    + now apply (interaction_invariant_flags h).
    + apply interaction_invariant_dragging; [ exact Hi | rewrite Ha; now left ].
Qed.

Lemma reapply_invariant (h : InputHandler) :
  interaction_invariant h ->
  interaction_invariant (snd (Input.update h)).
Proof.
  intros Hinv. unfold Input.update, bind, get.
  destruct (isInteracting h && negb (activePointIndex h =? -1)%Z); [ | exact Hinv ].
  destruct (call_physics_flags
              (Physics.applyForceToPoint (activePointIndex h)
                 (x (mouse h)) (y (mouse h))) h) as [Hi Ha].
  now apply (interaction_invariant_flags h).
Qed.

Lemma handleMouseMove_invariant (rect : DOMRect) (e : MouseEvent) (h : InputHandler) :
  interaction_invariant h ->
  interaction_invariant (snd (Input.handleMouseMove rect e h)).
Proof.
  intros Hinv. unfold Input.handleMouseMove, bind, get, modify.
  set (h1 := set_mouse _ h).
  assert (Hinv1 : interaction_invariant h1) by exact Hinv.
  destruct (isInteracting h1 && negb (activePointIndex h1 =? -1)%Z);
    [ | exact Hinv1 ].
  destruct (call_physics_flags
              (Physics.applyForceToPoint (activePointIndex h1)
                 (x (mouse h1)) (y (mouse h1))) h1) as [Hi Ha].
  now apply (interaction_invariant_flags h1).
Qed.

Lemma after_call_invariant (h : InputHandler) (c : call) :
  interaction_invariant h -> interaction_invariant (after_call h c).
Proof.
  intros Hinv. unfold after_call.
  destruct c as [rect e | e | e | e | | radius | ]; simpl.
  - now apply handleMouseMove_invariant.
  - now apply handleMouseDown_invariant.
  - now apply interaction_invariant_idle.
  - now apply interaction_invariant_idle.
  - now apply reapply_invariant.
  - exact Hinv.
  - destruct (call_physics_flags Physics.update h) as [Hi Ha].
    now apply (interaction_invariant_flags h).
Qed.

Lemma after_calls_invariant (cs : list call) (h : InputHandler) :
  interaction_invariant h -> interaction_invariant (after_calls h cs).
Proof.
  revert h. induction cs as [| c cs IH]; intros h Hinv; simpl.
  - exact Hinv.
  - apply IH. now apply after_call_invariant.
Qed.

(** C9. In every state a handler reaches from its construction by calls of
    [handleMouseDown], [handleMouseMove], [handleMouseUp],
    [handleMouseLeave] and [update] (and of [setInteractionRadius] and the
    simulation step), in any number and order and for any control points,
    it is interacting exactly when the active index is 1 or 2, and the
    active index is [-1] when it is not interacting; the active index is
    never 0, 3 or any other value. *)
Theorem interaction_state_consistent
    (bezier : BezierCurve) (physics : PhysicsSystem) (cs : list call) :
  let h := after_calls (Input.constructor bezier physics) cs in
  (isInteracting h = true <-> activePointIndex h = 1%Z \/ activePointIndex h = 2%Z)
  /\ (isInteracting h = false -> activePointIndex h = (-1)%Z)
  /\ (activePointIndex h = (-1)%Z \/ activePointIndex h = 1%Z
      \/ activePointIndex h = 2%Z).
Proof.
  simpl.
  assert (Hinv : interaction_invariant
                   (after_calls (Input.constructor bezier physics) cs)).
  { apply after_calls_invariant. now apply interaction_invariant_idle. }
  destruct Hinv as [Hiff Hidle].
  split; [ exact Hiff | ]. split; [ exact Hidle | ].
  destruct (isInteracting (after_calls (Input.constructor bezier physics) cs)) eqn:E.
  - right. now apply Hiff.
  - left. now apply Hidle.
Qed.

(** ** Settling from any state

    With the default constants the spring step is a contraction for
    [spring_norm]: each call of [update] shrinks the norm of every dynamic
    point by the factor 0.91 at least, from whatever state
    [applyForceToPoint] left. *)

Lemma spring_norm_le (p v a : Point) (b : R) :
  spring_norm p v a <= b
  <-> (Rabs (x p - x a) <= b /\ 2 * Rabs (x v) <= b)
      /\ (Rabs (y p - y a) <= b /\ 2 * Rabs (y v) <= b).
Proof.
  unfold spring_norm. split.
  - intros H.
    pose proof (Rmax_l (Rmax (Rabs (x p - x a)) (2 * Rabs (x v)))
                       (Rmax (Rabs (y p - y a)) (2 * Rabs (y v)))).
    pose proof (Rmax_r (Rmax (Rabs (x p - x a)) (2 * Rabs (x v)))
                       (Rmax (Rabs (y p - y a)) (2 * Rabs (y v)))).
    pose proof (Rmax_l (Rabs (x p - x a)) (2 * Rabs (x v))).
    pose proof (Rmax_r (Rabs (x p - x a)) (2 * Rabs (x v))).
    pose proof (Rmax_l (Rabs (y p - y a)) (2 * Rabs (y v))).
    pose proof (Rmax_r (Rabs (y p - y a)) (2 * Rabs (y v))).
    repeat split; lra.
  - intros [[H1 H2] [H3 H4]]. repeat apply Rmax_lub; assumption.
Qed.

Lemma spring_norm_nonneg (p v a : Point) : 0 <= spring_norm p v a.
Proof.
  pose proof (proj1 (spring_norm_le p v a (spring_norm p v a)) (Rle_refl _))
    as [[H _] _].
  pose proof (Rabs_pos (x p - x a)). lra.
Qed.

Lemma Rabs_le_bounds (a b : R) : Rabs a <= b -> - b <= a <= b.
Proof. unfold Rabs. destruct (Rcase_abs a); lra. Qed.

(** One axis of the step with [k = 0.15] and [c = 0.88]: the displacement
    [d] and the velocity [v] become [d'] and [v']. *)
Lemma axis_contracts (d v d' v' b : R) :
  d' = 0.85 * d + 0.12 * v ->
  v' = 0.995 * (0.12 * v - 0.15 * d) ->
  Rabs d <= b -> 2 * Rabs v <= b ->
  Rabs d' <= 0.91 * b /\ 2 * Rabs v' <= 0.91 * b.
Proof.
  intros -> -> Hd Hv.
  assert (Hd' : - b <= d <= b) by (apply Rabs_le_bounds; exact Hd).
  assert (Hv' : - (b / 2) <= v <= b / 2) by (apply Rabs_le_bounds; lra).
  split.
  - apply Rabs_le. lra.
  - assert (Rabs (0.995 * (0.12 * v - 0.15 * d)) <= 0.91 * b / 2);
      [ apply Rabs_le; lra | lra ].
Qed.

Lemma spring_step_contracts (p v a : Point) :
  spring_norm (fst (spring_step 0.15 0.88 p v a))
              (snd (spring_step 0.15 0.88 p v a)) a
  <= 0.91 * spring_norm p v a.
Proof.
  pose proof (proj1 (spring_norm_le p v a (spring_norm p v a)) (Rle_refl _))
    as [[Hdx Hvx] [Hdy Hvy]].
  apply spring_norm_le. unfold spring_step; simpl.
  split.
  - apply (axis_contracts (x p - x a) (x v)); [ lra | lra | exact Hdx | exact Hvx ].
  - apply (axis_contracts (y p - y a) (y v)); [ lra | lra | exact Hdy | exact Hvy ].
Qed.

Lemma update_ready_result (s : Sim) :
  spring_state_ready s ->
  exists s' : Sim,
    Physics.update s = (Normal tt, s')
    /\ (forall (i : Z) (p v a : Point),
          dynamic i ->
          point_at s i = Some p -> velocity_at s i = Some v ->
          anchor_at s i = Some a ->
          point_at s' i
          = Some (fst (spring_step (springConstant (sim_this s))
                                   (damping (sim_this s)) p v a))
          /\ velocity_at s' i
             = Some (snd (spring_step (springConstant (sim_this s))
                                      (damping (sim_this s)) p v a)))
    /\ restPositions (sim_this s') = restPositions (sim_this s)
    /\ springConstant (sim_this s') = springConstant (sim_this s)
    /\ damping (sim_this s') = damping (sim_this s)
    /\ js_length (sim_controlPoints s') = js_length (sim_controlPoints s).
Proof.
  intros Hready.
  destruct (update_ready s Hready) as (s1 & s2 & _ & _ & Hu & St1 & St2).
  destruct St1 as (Hstep1 & Hother1 & Hrest1 & Hk1 & Hc1 & _ & Hlen1 & _).
  destruct St2 as (Hstep2 & Hother2 & Hrest2 & Hk2 & Hc2 & _ & Hlen2 & _).
  exists s2. split; [ exact Hu | ].
  split; [ | repeat split; congruence ].
  intros i p v a [-> | ->] Hp Hv Ha.
  - destruct (Hstep1 p v a Hp Hv Ha) as [Hp1 Hv1].
    destruct (Hother2 1%Z) as [Hp2 Hv2]; [ lia | ].
    rewrite Hp2, Hv2. split; assumption.
  - destruct (Hother1 2%Z) as [Hp1 Hv1]; [ lia | ].
    unfold anchor_at in *.
    rewrite <- Hp1 in Hp. rewrite <- Hv1 in Hv. rewrite <- Hrest1 in Ha.
    destruct (Hstep2 p v a Hp Hv Ha) as [Hp2 Hv2].
    rewrite Hk1, Hc1 in Hp2, Hv2. split; assumption.
Qed.

Lemma update_contracts (s : Sim) :
  spring_state_ready s ->
  springConstant (sim_this s) = 0.15 -> damping (sim_this s) = 0.88 ->
  exists s' : Sim,
    Physics.update s = (Normal tt, s')
    /\ spring_state_ready s'
    /\ springConstant (sim_this s') = 0.15 /\ damping (sim_this s') = 0.88
    /\ forall (i : Z) (p v a : Point),
         dynamic i ->
         point_at s i = Some p -> velocity_at s i = Some v ->
         anchor_at s i = Some a ->
         exists p' v' : Point,
           point_at s' i = Some p' /\ velocity_at s' i = Some v'
           /\ anchor_at s' i = Some a
           /\ spring_norm p' v' a <= 0.91 * spring_norm p v a.
Proof.
  intros Hready Hk Hc.
  destruct (update_ready_result s Hready)
    as (s' & Hu & Hstep & Hrest & Hk' & Hc' & Hlen).
  exists s'. split; [ exact Hu | ].
  split; [ | split; [ congruence | split; [ congruence | ] ] ].
  - intros i Hdyn Hlt. rewrite Hlen in Hlt.
    destruct (Hready i Hdyn Hlt) as [[v Hv] [a Ha]].
    destruct (js_get_in_range (sim_controlPoints s) i) as [p Hp].
    { destruct Hdyn; lia. }
    destruct (Hstep i p v a Hdyn Hp Hv Ha) as [_ Hv'].
    split; [ eauto | ]. unfold anchor_at in *. rewrite Hrest. eauto.
  - intros i p v a Hdyn Hp Hv Ha.
    destruct (Hstep i p v a Hdyn Hp Hv Ha) as [Hp' Hv'].
    rewrite Hk, Hc in Hp', Hv'.
    eexists. eexists. split; [ exact Hp' | ]. split; [ exact Hv' | ].
    split; [ unfold anchor_at in *; now rewrite Hrest | ].
    apply spring_step_contracts.
Qed.

(** In exact arithmetic, from any state whose spring state exists and with
    the default constants, [n] calls of [update] all complete and shrink the
    norm of every dynamic point by the factor [0.91 ^ n] at least. *)
Lemma updates_contract (n : nat) (s : Sim) :
  spring_state_ready s ->
  springConstant (sim_this s) = 0.15 -> damping (sim_this s) = 0.88 ->
  exists s' : Sim,
    updates n s = (Normal tt, s')
    /\ forall (i : Z) (p v a : Point),
         dynamic i ->
         point_at s i = Some p -> velocity_at s i = Some v ->
         anchor_at s i = Some a ->
         exists p' v' : Point,
           point_at s' i = Some p' /\ velocity_at s' i = Some v'
           /\ anchor_at s' i = Some a
           /\ spring_norm p' v' a <= 0.91 ^ n * spring_norm p v a.
Proof.
  revert s. induction n as [| n IH]; intros s Hready Hk Hc.
  - exists s. split; [ reflexivity | ].
    intros i p v a _ Hp Hv Ha. exists p, v. repeat split; try assumption.
    simpl. lra.
  - destruct (update_contracts s Hready Hk Hc)
      as (s1 & Hu & Hready1 & Hk1 & Hc1 & Hstep).
    destruct (IH s1 Hready1 Hk1 Hc1) as (s' & Hus & Hrest).
    exists s'. split.
    + simpl. unfold bind. now rewrite Hu.
    + intros i p v a Hdyn Hp Hv Ha.
      destruct (Hstep i p v a Hdyn Hp Hv Ha) as (p1 & v1 & Hp1 & Hv1 & Ha1 & Hn1).
      destruct (Hrest i p1 v1 a Hdyn Hp1 Hv1 Ha1) as (p' & v' & Hp' & Hv' & Ha' & Hn').
      exists p', v'. repeat split; try assumption.
      assert (0 <= 0.91 ^ n) by (apply pow_le; lra).
      simpl. nra.
Qed.

(** The norm bounds both magnitudes of the claim. *)
Lemma spring_norm_bounds (p v a : Point) :
  magnitude v <= spring_norm p v a
  /\ magnitude (vsub p a) <= 2 * spring_norm p v a.
Proof.
  pose proof (proj1 (spring_norm_le p v a (spring_norm p v a)) (Rle_refl _))
    as [[Hdx Hvx] [Hdy Hvy]].
  pose proof (spring_norm_nonneg p v a) as Hn.
  apply Rabs_le_bounds in Hdx, Hdy.
  assert (Hvx' : - (spring_norm p v a / 2) <= x v <= spring_norm p v a / 2)
    by (apply Rabs_le_bounds; lra).
  assert (Hvy' : - (spring_norm p v a / 2) <= y v <= spring_norm p v a / 2)
    by (apply Rabs_le_bounds; lra).
  split.
  - unfold magnitude.
    rewrite <- (sqrt_square (spring_norm p v a)) by exact Hn.
    apply sqrt_le_1_alt. nra.
  - unfold magnitude; simpl.
    rewrite <- (sqrt_square (2 * spring_norm p v a)) by lra.
    apply sqrt_le_1_alt. nra.
Qed.

(** Once a force was applied the displacement alone need not shrink at
    every step: a point on its anchor with velocity [(1,0)] is moved off
    it.  The norm above still shrinks. *)
Example displacement_can_grow :
  x (fst (spring_step 0.15 0.88 origin {| x := 1; y := 0 |} origin)) = 0.12.
Proof. unfold spring_step; simpl. lra. Qed.

(** The envelope [0.91 ^ n] is below a ten-billionth from the 250th step
    on. *)
Lemma pow_le_one_mono (r : R) (m n : nat) :
  0 <= r <= 1 -> (m <= n)%nat -> r ^ n <= r ^ m.
Proof.
  intros Hr Hmn. replace n with (m + (n - m))%nat by lia.
  rewrite pow_add.
  assert (0 <= r ^ m) by (apply pow_le; lra).
  assert (0 <= r ^ (n - m) <= 1).
  { split; [ apply pow_le; lra | ]. rewrite <- (pow1 (n - m)).
    apply pow_incr. exact Hr. }
  nra.
Qed.

Lemma envelope_after_250 (n : nat) : (250 <= n)%nat -> 0.91 ^ n <= 1e-10.
Proof.
  intros Hn.
  apply Rle_trans with (0.91 ^ 250); [ apply pow_le_one_mono; [ lra | exact Hn ] | ].
  change 250%nat with (5 * (5 * 10))%nat. rewrite !pow_mult.
  assert (H5 : 0 <= 0.91 ^ 5 <= 0.625) by (simpl; lra).
  assert (H25 : 0 <= (0.91 ^ 5) ^ 5 <= 0.1).
  { split; [ apply pow_le; lra | ].
    apply Rle_trans with (0.625 ^ 5); [ apply pow_incr; exact H5 | simpl; lra ]. }
  apply Rle_trans with (0.1 ^ 10); [ apply pow_incr; exact H25 | simpl; lra ].
Qed.

Lemma rounding_slack_bounds (scale : R) :
  0 <= scale -> 0 <= rounding_slack scale /\ 1e-9 * scale <= rounding_slack scale.
Proof. unfold rounding_slack. intros H. split; lra. Qed.

(** The first step from a state that is not at rest makes the velocity
    larger, not smaller.  After [setupControlPoints] and with no
    [applyForceToPoint] at all, [update] on an array whose [P1] is off its
    anchor takes the velocity of [P1] from zero to a velocity that is not
    zero; and after the [applyForceToPoint(1, 250, 80)] of the demonstration
    the first [update] multiplies the velocity of [P1] by [1.3134]. *)
Lemma updates_velocity_not_monotone :
  (exists (s' : Sim) (v v' : Point),
      Physics.update demo_displaced = (Normal tt, s')
      /\ velocity_at demo_displaced 1 = Some v /\ velocity_at s' 1 = Some v'
      /\ magnitude v = 0 /\ magnitude v < magnitude v')
  /\ (exists (s' : Sim) (v v' : Point),
         Physics.update demo_dragged = (Normal tt, s')
         /\ velocity_at demo_dragged 1 = Some v /\ velocity_at s' 1 = Some v'
         /\ magnitude v' = 1.3134 * magnitude v
         /\ magnitude v < magnitude v').
Proof.
  split.
  - destruct (update_ready_result demo_displaced) as (s' & Hu & Hstep & _).
    { intros i [-> | ->] _; split; eexists; reflexivity. }
    destruct (Hstep 1%Z {| x := 210; y := 50 |} origin {| x := 200; y := 50 |})
      as [_ Hv']; [ now left | reflexivity | reflexivity | reflexivity | ].
    exists s', origin. eexists.
    split; [ exact Hu | ]. split; [ reflexivity | ]. split; [ exact Hv' | ].
    rewrite magnitude_origin. split; [ reflexivity | ].
    match goal with |- 0 < magnitude ?w => pose proof (magnitude_nonneg w) as Hn;
      destruct (Req_dec (magnitude w) 0) as [E | E]; [ | lra ];
      apply magnitude_zero_iff in E; apply (f_equal x) in E;
      unfold spring_step in E; simpl in E; lra end.
  - destruct (update_ready_result demo_dragged) as (s' & Hu & Hstep & _).
    { intros i [-> | ->] _; split; eexists; reflexivity. }
    destruct (Hstep 1%Z {| x := 200; y := 50 |}
                {| x := 0 + (250 - 200) * 0.1; y := 0 + (80 - 50) * 0.1 |}
                {| x := 200 + (250 - 200) * 0.8; y := 50 + (80 - 50) * 0.8 |})
      as [_ Hv']; [ now left | reflexivity | reflexivity | reflexivity | ].
    exists s', {| x := 0 + (250 - 200) * 0.1; y := 0 + (80 - 50) * 0.1 |}.
    eexists.
    split; [ exact Hu | ]. split; [ reflexivity | ]. split; [ exact Hv' | ].
    set (v := {| x := 0 + (250 - 200) * 0.1; y := 0 + (80 - 50) * 0.1 |}).
    assert (E : snd (spring_step (springConstant (sim_this demo_dragged))
                                 (damping (sim_this demo_dragged))
                                 {| x := 200; y := 50 |} v
                                 {| x := 200 + (250 - 200) * 0.8;
                                    y := 50 + (80 - 50) * 0.8 |})
                = vscale 1.3134 v).
    { apply Point_eq; unfold spring_step; simpl; lra. }
    rewrite E. unfold vscale. rewrite magnitude_scale by lra.
    split; [ reflexivity | ].
    assert (0 < magnitude v); [ | lra ].
    pose proof (magnitude_nonneg v) as Hn.
    destruct (Req_dec (magnitude v) 0) as [E0 | E0]; [ | lra ].
    apply magnitude_zero_iff in E0. apply (f_equal x) in E0. simpl in E0. lra.
Qed.

(** C6. The claim as it stands fails: the magnitude of the velocity does not
    decay monotonically (the lemma above).  What holds,
    with the default [k = 0.15] and [c = 0.88], from every state whose
    spring state exists (the state after [setupControlPoints] and after any
    calls of [applyForceToPoint]): [n] calls of [update] with no
    [applyForceToPoint] in between all complete and keep every anchor, and
    for each dynamic point the magnitude of the velocity is at most
    [0.91 ^ n * N] and the magnitude of the displacement from the anchor at
    most [2 * 0.91 ^ n * N], where [N] is the norm of the point before the
    calls, each up to the rounding slack for the size of the anchor and of
    [N]; from the 250th call on, so within fewer than 500 steps, both
    magnitudes are within twice that slack of zero. *)
Theorem updates_settle (n : nat) (s : Sim) :
  spring_state_ready s ->
  springConstant (sim_this s) = 0.15 -> damping (sim_this s) = 0.88 ->
  exists s' : Sim,
    updates n s = (Normal tt, s')
    /\ forall (i : Z) (p v a : Point),
         dynamic i ->
         point_at s i = Some p -> velocity_at s i = Some v ->
         anchor_at s i = Some a ->
         exists p' v' : Point,
           point_at s' i = Some p' /\ velocity_at s' i = Some v'
           /\ anchor_at s' i = Some a
           /\ magnitude v'
              <= 0.91 ^ n * spring_norm p v a
                 + rounding_slack (Rabs (x a) + Rabs (y a) + spring_norm p v a)
           /\ magnitude (vsub p' a)
              <= 2 * 0.91 ^ n * spring_norm p v a
                 + rounding_slack (Rabs (x a) + Rabs (y a) + spring_norm p v a)
           /\ ((250 <= n)%nat ->
               magnitude v'
               <= 2 * rounding_slack (Rabs (x a) + Rabs (y a) + spring_norm p v a)
               /\ magnitude (vsub p' a)
                  <= 2 * rounding_slack
                           (Rabs (x a) + Rabs (y a) + spring_norm p v a)).
Proof.
  intros Hready Hk Hc.
  destruct (updates_contract n s Hready Hk Hc) as (s' & Hu & Hstep).
  exists s'. split; [ exact Hu | ].
  intros i p v a Hdyn Hp Hv Ha.
  destruct (Hstep i p v a Hdyn Hp Hv Ha) as (p' & v' & Hp' & Hv' & Ha' & Hn).
  exists p', v'.
  split; [ exact Hp' | ]. split; [ exact Hv' | ]. split; [ exact Ha' | ].
  destruct (spring_norm_bounds p' v' a) as [Bv Bd].
  pose proof (spring_norm_nonneg p v a) as HN.
  pose proof (Rabs_pos (x a)) as Hxa. pose proof (Rabs_pos (y a)) as Hya.
  destruct (rounding_slack_bounds (Rabs (x a) + Rabs (y a) + spring_norm p v a))
    as [Hs0 Hs1]; [ lra | ].
  split; [ lra | ]. split; [ lra | ].
  intros H250. pose proof (envelope_after_250 n H250) as He.
  assert (0 <= 0.91 ^ n) by (apply pow_le; lra).
  assert (0.91 ^ n * spring_norm p v a <= 1e-10 * spring_norm p v a)
    by (apply Rmult_le_compat_r; lra).
  split; lra.
Qed.

Lemma updates_settle_witness :
  exists s' : Sim,
    updates 300 demo_dragged = (Normal tt, s')
    /\ exists p' v' : Point,
         point_at s' 1 = Some p' /\ velocity_at s' 1 = Some v'
         /\ magnitude v'
            <= 2 * rounding_slack
                     (Rabs (200 + (250 - 200) * 0.8) + Rabs (50 + (80 - 50) * 0.8)
                      + spring_norm {| x := 200; y := 50 |}
                          {| x := 0 + (250 - 200) * 0.1; y := 0 + (80 - 50) * 0.1 |}
                          {| x := 200 + (250 - 200) * 0.8;
                             y := 50 + (80 - 50) * 0.8 |})
         /\ magnitude (vsub p' {| x := 200 + (250 - 200) * 0.8;
                                  y := 50 + (80 - 50) * 0.8 |})
            <= 2 * rounding_slack
                     (Rabs (200 + (250 - 200) * 0.8) + Rabs (50 + (80 - 50) * 0.8)
                      + spring_norm {| x := 200; y := 50 |}
                          {| x := 0 + (250 - 200) * 0.1; y := 0 + (80 - 50) * 0.1 |}
                          {| x := 200 + (250 - 200) * 0.8;
                             y := 50 + (80 - 50) * 0.8 |}).
Proof.
  destruct (updates_settle 300 demo_dragged) as (s' & Hu & Hstep).
  - intros i [-> | ->] _; split; eexists; reflexivity.
  - reflexivity.
  - reflexivity.
  - exists s'. split; [ exact Hu | ].
    destruct (Hstep 1%Z {| x := 200; y := 50 |}
                {| x := 0 + (250 - 200) * 0.1; y := 0 + (80 - 50) * 0.1 |}
                {| x := 200 + (250 - 200) * 0.8; y := 50 + (80 - 50) * 0.8 |})
      as (p' & v' & Hp & Hv & _ & _ & _ & Hsettled);
      [ now left | reflexivity | reflexivity | reflexivity | ].
    destruct Hsettled as [Bv Bd]; [ lia | ].
    exists p', v'. repeat split; assumption.
Defined.

(** ** Loops *)

(** A loop whose body completes every turn with [Continue], on states that
    satisfy [Inv], is the fold of its turns. *)
Lemma for_each_fold {S} (Inv : S -> Prop) (f : Z -> S -> S)
    (body : Z -> M S ctl) (idxs : list Z) (s : S) :
  Inv s ->
  (forall (i : Z) (s0 : S), In i idxs -> Inv s0 ->
      body i s0 = (Normal Continue, f i s0) /\ Inv (f i s0)) ->
  for_each idxs body s = (Normal tt, fold_left (fun s0 i => f i s0) idxs s)
  /\ Inv (fold_left (fun s0 i => f i s0) idxs s).
Proof.
  revert s. induction idxs as [| i rest IH]; intros s Hs Hbody; simpl.
  - split; [ reflexivity | exact Hs ].
  - destruct (Hbody i s (or_introl eq_refl) Hs) as [Hb Hi].
    unfold bind. rewrite Hb. apply IH; [ exact Hi | ].
    intros j s0 Hj. apply Hbody. now right.
Qed.

Lemma range_length (first stop : Z) :
  length (range first stop) = Z.to_nat (stop - first).
Proof. unfold range. now rewrite length_map, length_seq. Qed.

Lemma range_In (first stop i : Z) :
  In i (range first stop) <-> (first <= i < stop)%Z.
Proof.
  unfold range. rewrite in_map_iff. split.
  - intros (k & <- & Hk). apply in_seq in Hk. lia.
  - intros H. exists (Z.to_nat (i - first)). split; [ lia | ].
    apply in_seq. lia.
Qed.

Lemma up_IZR (z : Z) : up (IZR z) = (z + 1)%Z.
Proof.
  symmetry. apply tech_up; rewrite plus_IZR; simpl; lra.
Qed.

Lemma range_upto_INR (n : nat) :
  range_upto 0 (INR n) = map Z.of_nat (seq 0 (S n)).
Proof.
  unfold range_upto, range. rewrite INR_IZR_INZ, up_IZR.
  replace (Z.to_nat (Z.of_nat n + 1 - 0)) with (S n) by lia.
  apply map_ext. intros k. lia.
Qed.

Lemma range_upto_In (first i : Z) (bound : R) :
  In i (range_upto first bound) <-> (first <= i)%Z /\ IZR i <= bound.
Proof.
  unfold range_upto. rewrite range_In.
  destruct (archimed bound) as [Hup Hlow].
  split; intros [H1 H2]; split; try exact H1.
  - assert (Hle : (i <= up bound - 1)%Z) by lia.
    apply IZR_le in Hle. rewrite minus_IZR in Hle. simpl in Hle. lra.
  - apply lt_IZR. lra.
Qed.

Lemma range_upto_nonneg (bound : R) :
  0 <= bound -> exists rest : list Z, range_upto 0 bound = 0%Z :: rest.
Proof.
  intros Hb. unfold range_upto, range.
  assert (H : (0 < up bound)%Z).
  { apply lt_IZR. destruct (archimed bound) as [Hup _]. simpl. lra. }
  destruct (Z.to_nat (up bound - 0)) as [| m] eqn:E; [ lia | ].
  simpl. eauto.
Qed.

Lemma range_upto_negative (bound : R) : bound < 0 -> range_upto 0 bound = [].
Proof.
  intros Hb. unfold range_upto, range.
  assert (H : (up bound < 1)%Z).
  { apply lt_IZR. destruct (archimed bound) as [_ Hlow]. simpl. lra. }
  replace (Z.to_nat (up bound - 0)) with 0%nat by lia. reflexivity.
Qed.

(** ** Sampling the curve *)

Lemma calculatePoint_wrong_count (this : BezierCurve) (t : R) :
  length (controlPoints this) <> 4%nat ->
  Bezier.calculatePoint this t = Throw InvalidControlPointCount.
Proof.
  intros H. unfold Bezier.calculatePoint.
  destruct (controlPoints this) as [| p0 [| p1 [| p2 [| p3 [| p4 rest]]]]];
    try reflexivity.
  now destruct H.
Qed.

Lemma push_samples_fold (g : Z -> Point) (idxs : list Z) (b : BezierCurve) :
  fold_left (fun b0 i => set_curvePoints (curvePoints b0 ++ [g i]) b0) idxs b
  = set_curvePoints (curvePoints b ++ map g idxs) b.
Proof.
  revert b. induction idxs as [| i rest IH]; intros b; simpl.
  - rewrite app_nil_r. destruct b; reflexivity.
  - rewrite IH. unfold set_curvePoints; simpl. now rewrite <- app_assoc.
Qed.

(** The body of the loop of [sampleCurvePoints] on a curve of four points. *)
Lemma sampleCurvePoints_body (p0 p1 p2 p3 : Point) (d : R) (i : Z) (b : BezierCurve) :
  controlPoints b = [p0; p1; p2; p3] -> sampleDensity b = d ->
  (this <- get ;;
   let t := IZR i / sampleDensity this in
   point <- lift (Bezier.calculatePoint this t) ;;
   modify (fun b0 => set_curvePoints (curvePoints b0 ++ [point]) b0) ;;;
   ret Continue) b
  = (Normal Continue,
     set_curvePoints (curvePoints b ++ [cubic_bernstein p0 p1 p2 p3 (IZR i / d)]) b).
Proof.
  intros HP Hd. unfold bind, get, lift, modify, ret.
  rewrite (calculatePoint_four b p0 p1 p2 p3 _ HP), Hd. reflexivity.
Qed.

Lemma sampleCurvePoints_run (this : BezierCurve) (p0 p1 p2 p3 : Point) :
  controlPoints this = [p0; p1; p2; p3] ->
  Bezier.sampleCurvePoints this
  = (Normal (map (fun i => cubic_bernstein p0 p1 p2 p3 (IZR i / sampleDensity this))
                 (range_upto 0 (sampleDensity this))),
     set_curvePoints
       (map (fun i => cubic_bernstein p0 p1 p2 p3 (IZR i / sampleDensity this))
            (range_upto 0 (sampleDensity this)))
       this).
Proof.
  intros HP. unfold Bezier.sampleCurvePoints.
  unfold bind at 1, modify at 1. unfold bind at 1, get at 1.
  unfold bind at 1.
  change (sampleDensity (set_curvePoints [] this)) with (sampleDensity this).
  set (d := sampleDensity this).
  match goal with
  | |- context [for_each ?l ?body ?s0] =>
      destruct (for_each_fold
                  (fun b => controlPoints b = [p0; p1; p2; p3] /\ sampleDensity b = d)
                  (fun i b => set_curvePoints
                                (curvePoints b
                                 ++ [cubic_bernstein p0 p1 p2 p3 (IZR i / d)]) b)
                  body l s0) as [Hrun _]
  end.
  { split; [ exact HP | reflexivity ]. }
  { intros i b _ [HPb Hdb]. split.
    - exact (sampleCurvePoints_body p0 p1 p2 p3 d i b HPb Hdb).
    - split; assumption. }
  rewrite Hrun. rewrite push_samples_fold. reflexivity.
Qed.

Lemma sample_parameters_range (p0 p1 p2 p3 : Point) (n : nat) :
  map (fun i => cubic_bernstein p0 p1 p2 p3 (IZR i / INR n)) (range_upto 0 (INR n))
  = map (cubic_bernstein p0 p1 p2 p3) (sample_parameters n).
Proof.
  rewrite range_upto_INR. unfold sample_parameters. rewrite !map_map.
  apply map_ext. intros k. now rewrite <- INR_IZR_INZ.
Qed.

Lemma sample_parameters_lookup (n k : nat) :
  (k <= n)%nat -> sample_parameters n !! k = Some (INR k / INR n).
Proof.
  intros Hk. unfold sample_parameters.
  change (map (fun k0 => INR k0 / INR n) (seq 0 (S n)))
    with ((fun k0 => INR k0 / INR n) <$> seq 0 (S n)).
  rewrite list_lookup_fmap, lookup_seq_lt by lia. reflexivity.
Qed.

Lemma cubic_bernstein_0 (p0 p1 p2 p3 : Point) : cubic_bernstein p0 p1 p2 p3 0 = p0.
Proof. apply Point_eq; simpl; ring. Qed.

Lemma cubic_bernstein_1 (p0 p1 p2 p3 : Point) : cubic_bernstein p0 p1 p2 p3 1 = p3.
Proof. apply Point_eq; simpl; ring. Qed.

(** X1. On a curve of four control points with a positive whole
    [sampleDensity = n], [sampleCurvePoints] completes, returns [n + 1]
    points, the [k]-th being the curve point at [t = k / n], the first [P0]
    and the last [P3]; it stores exactly that array in [curvePoints],
    whatever was cached before, and leaves the control points alone. *)
Theorem sampleCurvePoints_samples
    (this : BezierCurve) (p0 p1 p2 p3 : Point) (n : nat) :
  controlPoints this = [p0; p1; p2; p3] ->
  (0 < n)%nat ->
  sampleDensity this = INR n ->
  exists samples : list Point,
    Bezier.sampleCurvePoints this = (Normal samples, set_curvePoints samples this)
    /\ length samples = S n
    /\ (forall k : nat, (k <= n)%nat ->
          samples !! k = Some (cubic_bernstein p0 p1 p2 p3 (INR k / INR n))
          /\ Bezier.calculatePoint this (INR k / INR n)
             = Normal (cubic_bernstein p0 p1 p2 p3 (INR k / INR n)))
    /\ samples !! 0%nat = Some p0
    /\ samples !! n = Some p3.
Proof.
  intros HP Hn Hd.
  exists (map (cubic_bernstein p0 p1 p2 p3) (sample_parameters n)).
  assert (Hlook : forall k : nat, (k <= n)%nat ->
             map (cubic_bernstein p0 p1 p2 p3) (sample_parameters n) !! k
             = Some (cubic_bernstein p0 p1 p2 p3 (INR k / INR n))).
  { intros k Hk.
    change (map (cubic_bernstein p0 p1 p2 p3) (sample_parameters n))
      with (cubic_bernstein p0 p1 p2 p3 <$> sample_parameters n).
    now rewrite list_lookup_fmap, sample_parameters_lookup. }
  assert (Hpos : INR n <> 0) by (apply not_0_INR; lia).
  split.
  { rewrite (sampleCurvePoints_run this p0 p1 p2 p3 HP), Hd.
    now rewrite sample_parameters_range. }
  split.
  { unfold sample_parameters. now rewrite !length_map, length_seq. }
  split.
  { intros k Hk. split; [ now apply Hlook | now apply calculatePoint_four ]. }
  split.
  - rewrite Hlook by lia. simpl. f_equal.
    replace (0 / INR n) with 0 by (field; exact Hpos).
    apply cubic_bernstein_0.
  - rewrite Hlook by lia. f_equal.
    replace (INR n / INR n) with 1 by (field; exact Hpos).
    apply cubic_bernstein_1.
Qed.

Lemma sampleCurvePoints_samples_witness :
  exists samples : list Point,
    Bezier.sampleCurvePoints
      {| controlPoints := demoPoints; curvePoints := [origin]; sampleDensity := 200 |}
    = (Normal samples,
       set_curvePoints samples
         {| controlPoints := demoPoints; curvePoints := [origin];
            sampleDensity := 200 |})
    /\ length samples = 201%nat
    /\ samples !! 0%nat = Some {| x := 100; y := 100 |}
    /\ samples !! 200%nat = Some {| x := 400; y := 100 |}.
Proof.
  destruct (sampleCurvePoints_samples
              {| controlPoints := demoPoints; curvePoints := [origin];
                 sampleDensity := 200 |}
              {| x := 100; y := 100 |} {| x := 200; y := 50 |}
              {| x := 300; y := 150 |} {| x := 400; y := 100 |} 200)
    as (samples & Hrun & Hlen & _ & Hfirst & Hlast);
    [ reflexivity | lia | symmetry; apply (INR_IZR_INZ 200) | ].
  exists samples. repeat split; assumption.
Defined.

(** X2. Edge behaviour of [sampleCurvePoints]: with a number of control
    points other than four and a [sampleDensity] that is not negative it
    throws at the first sample, after it has emptied the cache
    [curvePoints]; with a negative [sampleDensity] the loop has no turn, and
    it returns the empty array whatever the control points are. *)
Theorem sampleCurvePoints_edge_cases (this : BezierCurve) :
  (length (controlPoints this) <> 4%nat -> 0 <= sampleDensity this ->
   Bezier.sampleCurvePoints this
   = (Throw InvalidControlPointCount, set_curvePoints [] this))
  /\ (sampleDensity this < 0 ->
      Bezier.sampleCurvePoints this = (Normal [], set_curvePoints [] this)).
Proof.
  split.
  - intros Hlen Hd. unfold Bezier.sampleCurvePoints.
    unfold bind at 1, modify at 1. unfold bind at 1, get at 1.
    unfold bind at 1.
    change (sampleDensity (set_curvePoints [] this)) with (sampleDensity this).
    destruct (range_upto_nonneg _ Hd) as [rest ->].
    simpl. unfold bind at 1. unfold bind at 1, get at 1.
    unfold bind at 1, lift at 1.
    rewrite calculatePoint_wrong_count by exact Hlen. reflexivity.
  - intros Hd. unfold Bezier.sampleCurvePoints.
    unfold bind at 1, modify at 1. unfold bind at 1, get at 1.
    unfold bind at 1.
    change (sampleDensity (set_curvePoints [] this)) with (sampleDensity this).
    rewrite (range_upto_negative _ Hd). reflexivity.
Qed.

Lemma sampleCurvePoints_edge_cases_witness :
  Bezier.sampleCurvePoints
    {| controlPoints := [origin; origin; origin]; curvePoints := [origin];
       sampleDensity := 200 |}
  = (Throw InvalidControlPointCount,
     {| controlPoints := [origin; origin; origin]; curvePoints := [];
        sampleDensity := 200 |})
  /\ Bezier.sampleCurvePoints
       {| controlPoints := []; curvePoints := [origin]; sampleDensity := -1 |}
     = (Normal [],
        {| controlPoints := []; curvePoints := []; sampleDensity := -1 |}).
Proof.
  split.
  - apply (proj1 (sampleCurvePoints_edge_cases
                    {| controlPoints := [origin; origin; origin];
                       curvePoints := [origin]; sampleDensity := 200 |}));
      simpl; [ lia | lra ].
  - apply (proj2 (sampleCurvePoints_edge_cases
                    {| controlPoints := []; curvePoints := [origin];
                       sampleDensity := -1 |}));
      simpl; lra.
Defined.

(** ** The curve stays within its control points *)

Lemma bernstein_between (a0 a1 a2 a3 lo hi t : R) :
  0 <= t <= 1 ->
  lo <= a0 <= hi -> lo <= a1 <= hi -> lo <= a2 <= hi -> lo <= a3 <= hi ->
  lo <= (1 - t) ^ 3 * a0 + 3 * (1 - t) ^ 2 * t * a1
        + 3 * (1 - t) * t ^ 2 * a2 + t ^ 3 * a3 <= hi.
Proof.
  intros Ht H0 H1 H2 H3.
  set (w0 := (1 - t) ^ 3). set (w1 := 3 * (1 - t) ^ 2 * t).
  set (w2 := 3 * (1 - t) * t ^ 2). set (w3 := t ^ 3).
  assert (Hu : 0 <= 1 - t) by lra.
  assert (Hw0 : 0 <= w0) by (unfold w0; apply pow_le; lra).
  assert (Hw1 : 0 <= w1).
  { unfold w1. apply Rmult_le_pos; [ | lra ].
    apply Rmult_le_pos; [ lra | apply pow_le; lra ]. }
  assert (Hw2 : 0 <= w2).
  { unfold w2. apply Rmult_le_pos; [ | apply pow_le; lra ].
    apply Rmult_le_pos; lra. }
  assert (Hw3 : 0 <= w3) by (unfold w3; apply pow_le; lra).
  assert (Hsum : w0 + w1 + w2 + w3 = 1) by (unfold w0, w1, w2, w3; ring).
  clearbody w0 w1 w2 w3.
  split.
  - assert (0 <= w0 * (a0 - lo)) by (apply Rmult_le_pos; lra).
    assert (0 <= w1 * (a1 - lo)) by (apply Rmult_le_pos; lra).
    assert (0 <= w2 * (a2 - lo)) by (apply Rmult_le_pos; lra).
    assert (0 <= w3 * (a3 - lo)) by (apply Rmult_le_pos; lra).
    nra.
  - assert (0 <= w0 * (hi - a0)) by (apply Rmult_le_pos; lra).
    assert (0 <= w1 * (hi - a1)) by (apply Rmult_le_pos; lra).
    assert (0 <= w2 * (hi - a2)) by (apply Rmult_le_pos; lra).
    assert (0 <= w3 * (hi - a3)) by (apply Rmult_le_pos; lra).
    nra.
Qed.

(** In exact arithmetic the point lies in every axis-parallel box that
    holds the four control points. *)
Lemma calculatePoint_in_box
    (this : BezierCurve) (p0 p1 p2 p3 : Point) (t xlo xhi ylo yhi : R) :
  controlPoints this = [p0; p1; p2; p3] ->
  0 <= t <= 1 ->
  (forall p : Point, In p [p0; p1; p2; p3] ->
      xlo <= x p <= xhi /\ ylo <= y p <= yhi) ->
  exists b : Point,
    Bezier.calculatePoint this t = Normal b
    /\ xlo <= x b <= xhi /\ ylo <= y b <= yhi.
Proof.
  intros HP Ht Hbox.
  exists (cubic_bernstein p0 p1 p2 p3 t).
  split; [ now apply calculatePoint_four | ].
  destruct (Hbox p0) as [Hx0 Hy0]; [ simpl; tauto | ].
  destruct (Hbox p1) as [Hx1 Hy1]; [ simpl; tauto | ].
  destruct (Hbox p2) as [Hx2 Hy2]; [ simpl; tauto | ].
  destruct (Hbox p3) as [Hx3 Hy3]; [ simpl; tauto | ].
  split; simpl; apply bernstein_between; assumption.
Qed.

Lemma rounding_slack_max_nonneg (lo hi : R) :
  0 <= rounding_slack (Rmax (Rabs lo) (Rabs hi)).
Proof.
  apply rounding_slack_bounds.
  apply Rle_trans with (Rabs lo); [ apply Rabs_pos | apply Rmax_l ].
Qed.

(** X3. For [t] in [0,1] the point [calculatePoint] returns lies, up to the
    rounding slack for the size of the box, in every axis-parallel box that
    holds the four control points: the curve does not leave the bounding box
    of its control points by more than a billionth of the size of its
    coordinates. *)
Theorem calculatePoint_near_bounding_box
    (this : BezierCurve) (p0 p1 p2 p3 : Point) (t xlo xhi ylo yhi : R) :
  controlPoints this = [p0; p1; p2; p3] ->
  0 <= t <= 1 ->
  (forall p : Point, In p [p0; p1; p2; p3] ->
      xlo <= x p <= xhi /\ ylo <= y p <= yhi) ->
  exists b : Point,
    Bezier.calculatePoint this t = Normal b
    /\ xlo - rounding_slack (Rmax (Rabs xlo) (Rabs xhi)) <= x b
       <= xhi + rounding_slack (Rmax (Rabs xlo) (Rabs xhi))
    /\ ylo - rounding_slack (Rmax (Rabs ylo) (Rabs yhi)) <= y b
       <= yhi + rounding_slack (Rmax (Rabs ylo) (Rabs yhi)).
Proof.
  intros HP Ht Hbox.
  destruct (calculatePoint_in_box this p0 p1 p2 p3 t xlo xhi ylo yhi HP Ht Hbox)
    as (b & Hb & Hx & Hy).
  exists b. split; [ exact Hb | ].
  pose proof (rounding_slack_max_nonneg xlo xhi).
  pose proof (rounding_slack_max_nonneg ylo yhi).
  split; lra.
Qed.

Lemma calculatePoint_near_bounding_box_witness :
  exists b : Point,
    Bezier.calculatePoint (curve_of (mkPoint 0 1) (mkPoint 100 1)
                                    (mkPoint 200 1) (mkPoint 300 1)) (2 / 200)
    = Normal b
    /\ 0 - rounding_slack (Rmax (Rabs 0) (Rabs 300)) <= x b
       <= 300 + rounding_slack (Rmax (Rabs 0) (Rabs 300))
    /\ 1 - rounding_slack (Rmax (Rabs 1) (Rabs 1)) <= y b
       <= 1 + rounding_slack (Rmax (Rabs 1) (Rabs 1)).
Proof.
  apply (calculatePoint_near_bounding_box
           _ (mkPoint 0 1) (mkPoint 100 1) (mkPoint 200 1) (mkPoint 300 1)).
  - reflexivity.
  - lra.
  - intros p [<- | [<- | [<- | [<- | []]]]]; simpl; lra.
Defined.

(** ** The length of the sampled curve *)

Lemma magnitude_triangle (u v : Point) :
  magnitude (vadd u v) <= magnitude u + magnitude v.
Proof.
  pose proof (magnitude_nonneg u) as Hu. pose proof (magnitude_nonneg v) as Hv.
  pose proof (magnitude_sqr u) as Su. pose proof (magnitude_sqr v) as Sv.
  unfold magnitude at 1; simpl.
  rewrite <- (sqrt_square (magnitude u + magnitude v)) by lra.
  apply sqrt_le_1_alt.
  assert (Hcs : x u * x v + y u * y v <= magnitude u * magnitude v).
  { destruct (Rle_lt_dec (x u * x v + y u * y v) 0) as [Hneg | Hpos].
    - pose proof (Rmult_le_pos _ _ Hu Hv). lra.
    - apply Rsqr_incr_0_var; [ | now apply Rmult_le_pos ].
      unfold Rsqr.
      replace (magnitude u * magnitude v * (magnitude u * magnitude v))
        with ((magnitude u * magnitude u) * (magnitude v * magnitude v)) by ring.
      rewrite Su, Sv.
      pose proof (Rle_0_sqr (x u * y v - y u * x v)) as Hsq. unfold Rsqr in Hsq.
      nra. }
  nra.
Qed.

Lemma distance_triangle (p q r : Point) :
  distance p r <= distance p q + distance q r.
Proof.
  unfold distance.
  replace {| x := x p - x r; y := y p - y r |}
    with (vadd {| x := x p - x q; y := y p - y q |}
               {| x := x q - x r; y := y q - y r |})
    by (apply Point_eq; simpl; ring).
  apply magnitude_triangle.
Qed.

Lemma distance_nonneg (p q : Point) : 0 <= distance p q.
Proof. apply magnitude_nonneg. Qed.

Lemma distance_self (p : Point) : distance p p = 0.
Proof.
  unfold distance. replace {| x := x p - x p; y := y p - y p |} with origin
    by (apply Point_eq; simpl; ring).
  apply magnitude_origin.
Qed.

Lemma polyline_length_nonneg (ps : list Point) : 0 <= polyline_length ps.
Proof.
  induction ps as [| p [| q rest] IH]; simpl in *; try lra.
  pose proof (distance_nonneg q p). lra.
Qed.

(** The polyline is at least as long as the chord from its first point to
    its last. *)
Lemma polyline_chord (ps : list Point) (a b : Point) :
  head ps = Some a -> last ps = Some b -> distance b a <= polyline_length ps.
Proof.
  revert a. induction ps as [| p rest IH]; intros a Ha Hb; [ discriminate | ].
  simpl in Ha. injection Ha as ->.
  destruct rest as [| q rest].
  - simpl in Hb. injection Hb as ->. rewrite distance_self. simpl. lra.
  - rewrite last_cons_cons in Hb.
    specialize (IH q eq_refl Hb).
    pose proof (distance_triangle b q a).
    change (polyline_length (a :: q :: rest))
      with (distance q a + polyline_length (q :: rest)).
    lra.
Qed.

Lemma fold_segments (points pre ps : list Point) (p : Point) (a : R) :
  points = pre ++ p :: ps ->
  fold_left (fun acc i => acc + segment points i)
            (map (fun k => (1 + Z.of_nat k)%Z) (seq (length pre) (length ps))) a
  = a + polyline_length (p :: ps).
Proof.
  revert pre p a. induction ps as [| q ps' IH]; intros pre p a Hpts.
  - simpl. lra.
  - cbn [length seq map fold_left].
    assert (Hq : points !! S (length pre) = Some q).
    { rewrite Hpts.
      replace (pre ++ p :: q :: ps') with ((pre ++ [p]) ++ q :: ps')
        by (now rewrite <- app_assoc).
      apply list_lookup_middle. rewrite length_app. simpl. lia. }
    assert (Hp : points !! length pre = Some p).
    { rewrite Hpts. now apply list_lookup_middle. }
    assert (Hseg : segment points (1 + Z.of_nat (length pre)) = distance q p).
    { unfold segment, js_get.
      replace (1 + Z.of_nat (length pre) - 1)%Z with (Z.of_nat (length pre)) by lia.
      destruct (1 + Z.of_nat (length pre) <? 0)%Z eqn:E1;
        [ apply Z.ltb_lt in E1; lia | ].
      destruct (Z.of_nat (length pre) <? 0)%Z eqn:E2;
        [ apply Z.ltb_lt in E2; lia | ].
      replace (Z.to_nat (1 + Z.of_nat (length pre))) with (S (length pre)) by lia.
      rewrite Nat2Z.id, Hq, Hp. reflexivity. }
    rewrite Hseg.
    replace (S (length pre)) with (length (pre ++ [p]))
      by (rewrite length_app; simpl; lia).
    rewrite (IH (pre ++ [p]) q).
    + change (polyline_length (p :: q :: ps'))
        with (distance q p + polyline_length (q :: ps')).
      lra.
    + rewrite Hpts. now rewrite <- app_assoc.
Qed.

Lemma fold_segments_all (points : list Point) :
  fold_left (fun acc i => acc + segment points i) (range 1 (js_length points)) 0
  = polyline_length points.
Proof.
  destruct points as [| p ps].
  - reflexivity.
  - unfold range, js_length.
    replace (Z.to_nat (Z.of_nat (length (p :: ps)) - 1)) with (length ps)
      by (simpl; lia).
    pose proof (fold_segments (p :: ps) [] ps p 0 eq_refl) as H.
    change (length (@nil Point)) with 0%nat in H. rewrite H. lra.
Qed.

Lemma segment_body (points : list Point) (i : Z) (acc : R) :
  (1 <= i < js_length points)%Z ->
  (p <- defined (js_get points i) ;;
   q <- defined (js_get points (i - 1)) ;;
   let dx := x p - x q in
   let dy := y p - y q in
   modify (fun length => length + sqrt (dx * dx + dy * dy)) ;;;
   ret Continue) acc
  = (Normal Continue, acc + segment points i).
Proof.
  intros Hi.
  destruct (js_get_in_range points i) as [p Hp]; [ lia | ].
  destruct (js_get_in_range points (i - 1)) as [q Hq]; [ lia | ].
  unfold segment, bind. rewrite Hp, Hq. reflexivity.
Qed.

Lemma calculateLength_run (this b' : BezierCurve) (samples : list Point) :
  Bezier.sampleCurvePoints this = (Normal samples, b') ->
  Bezier.calculateLength this = (Normal (polyline_length samples), b').
Proof.
  intros Hs. unfold Bezier.calculateLength. unfold bind at 1. rewrite Hs.
  unfold lift. f_equal.
  unfold bind at 1.
  match goal with
  | |- context [for_each ?l ?body ?s0] =>
      destruct (for_each_fold (fun _ : R => True)
                  (fun i acc => acc + segment samples i) body l s0) as [Hrun _]
  end.
  { exact I. }
  { intros i acc Hi _. split; [ | exact I ].
    apply range_In in Hi. exact (segment_body samples i acc Hi). }
  rewrite Hrun. simpl. now rewrite fold_segments_all.
Qed.

Lemma bernstein_tails_monotone (t s : R) :
  0 <= t -> t <= s -> s <= 1 ->
  0 <= bernstein_tail1 s - bernstein_tail1 t
  /\ 0 <= bernstein_tail2 s - bernstein_tail2 t
  /\ 0 <= bernstein_tail3 s - bernstein_tail3 t.
Proof.
  intros Ht Hts Hs. unfold bernstein_tail1, bernstein_tail2, bernstein_tail3.
  assert (Hd : 0 <= s - t) by lra.
  split; [ | split ].
  - replace (1 - (1 - s) ^ 3 - (1 - (1 - t) ^ 3))
      with ((s - t) * ((1 - t) * (1 - t) + (1 - t) * (1 - s) + (1 - s) * (1 - s)))
      by ring.
    apply Rmult_le_pos; [ exact Hd | ]. nra.
  - replace (3 * s ^ 2 - 2 * s ^ 3 - (3 * t ^ 2 - 2 * t ^ 3))
      with ((s - t) * (3 * (s + t) - 2 * (s * s + s * t + t * t))) by ring.
    apply Rmult_le_pos; [ exact Hd | ]. nra.
  - replace (s ^ 3 - t ^ 3) with ((s - t) * (s * s + s * t + t * t)) by ring.
    apply Rmult_le_pos; [ exact Hd | ]. nra.
Qed.

Lemma magnitude_weighted_sum (w1 w2 w3 : R) (d1 d2 d3 : Point) :
  0 <= w1 -> 0 <= w2 -> 0 <= w3 ->
  magnitude (vadd (vadd (vscale w1 d1) (vscale w2 d2)) (vscale w3 d3))
  <= w1 * magnitude d1 + w2 * magnitude d2 + w3 * magnitude d3.
Proof.
  intros H1 H2 H3.
  pose proof (magnitude_triangle (vadd (vscale w1 d1) (vscale w2 d2)) (vscale w3 d3)).
  pose proof (magnitude_triangle (vscale w1 d1) (vscale w2 d2)).
  pose proof (magnitude_scale w1 d1 H1) as E1.
  pose proof (magnitude_scale w2 d2 H2) as E2.
  pose proof (magnitude_scale w3 d3 H3) as E3.
  unfold vscale in *. lra.
Qed.

(** Between two parameters the curve moves no further than the edges of the
    control polygon weighted by the growth of their weights. *)
Lemma curve_step_bound (p0 p1 p2 p3 : Point) (t s : R) :
  0 <= t -> t <= s -> s <= 1 ->
  distance (cubic_bernstein p0 p1 p2 p3 s) (cubic_bernstein p0 p1 p2 p3 t)
  <= (bernstein_tail1 s - bernstein_tail1 t) * distance p1 p0
     + (bernstein_tail2 s - bernstein_tail2 t) * distance p2 p1
     + (bernstein_tail3 s - bernstein_tail3 t) * distance p3 p2.
Proof.
  intros Ht Hts Hs.
  destruct (bernstein_tails_monotone t s Ht Hts Hs) as (H1 & H2 & H3).
  unfold distance at 1.
  replace {| x := x (cubic_bernstein p0 p1 p2 p3 s) - x (cubic_bernstein p0 p1 p2 p3 t);
             y := y (cubic_bernstein p0 p1 p2 p3 s) - y (cubic_bernstein p0 p1 p2 p3 t) |}
    with (vadd (vadd (vscale (bernstein_tail1 s - bernstein_tail1 t)
                             {| x := x p1 - x p0; y := y p1 - y p0 |})
                     (vscale (bernstein_tail2 s - bernstein_tail2 t)
                             {| x := x p2 - x p1; y := y p2 - y p1 |}))
               (vscale (bernstein_tail3 s - bernstein_tail3 t)
                       {| x := x p3 - x p2; y := y p3 - y p2 |})).
  - now apply magnitude_weighted_sum.
  - unfold bernstein_tail1, bernstein_tail2, bernstein_tail3.
    apply Point_eq; simpl; ring.
Qed.

Lemma polyline_polygon_bound (p0 p1 p2 p3 : Point) (ts : list R) (t : R) :
  0 <= t -> chain_to_one t ts ->
  polyline_length (map (cubic_bernstein p0 p1 p2 p3) (t :: ts))
  <= (bernstein_tail1 1 - bernstein_tail1 t) * distance p1 p0
     + (bernstein_tail2 1 - bernstein_tail2 t) * distance p2 p1
     + (bernstein_tail3 1 - bernstein_tail3 t) * distance p3 p2.
Proof.
  revert t. induction ts as [| s rest IH]; intros t Ht Hchain.
  - simpl in *.
    destruct (bernstein_tails_monotone t 1 Ht Hchain (Rle_refl 1)) as (H1 & H2 & H3).
    pose proof (distance_nonneg p1 p0). pose proof (distance_nonneg p2 p1).
    pose proof (distance_nonneg p3 p2).
    assert (0 <= (bernstein_tail1 1 - bernstein_tail1 t) * distance p1 p0)
      by now apply Rmult_le_pos.
    assert (0 <= (bernstein_tail2 1 - bernstein_tail2 t) * distance p2 p1)
      by now apply Rmult_le_pos.
    assert (0 <= (bernstein_tail3 1 - bernstein_tail3 t) * distance p3 p2)
      by now apply Rmult_le_pos.
    lra.
  - destruct Hchain as [Hts Hchain].
    assert (Hs1 : s <= 1).
    { clear IH. revert s Hts Hchain. induction rest as [| r rest IHr];
        intros s Hts Hchain; simpl in Hchain; [ exact Hchain | ].
      destruct Hchain as [Hsr Hrest].
      apply Rle_trans with r; [ exact Hsr | ].
      apply (IHr r); [ lra | exact Hrest ]. }
    specialize (IH s (Rle_trans _ _ _ Ht Hts) Hchain).
    pose proof (curve_step_bound p0 p1 p2 p3 t s Ht Hts Hs1) as Hstep.
    change (polyline_length (map (cubic_bernstein p0 p1 p2 p3) (t :: s :: rest)))
      with (distance (cubic_bernstein p0 p1 p2 p3 s) (cubic_bernstein p0 p1 p2 p3 t)
            + polyline_length (map (cubic_bernstein p0 p1 p2 p3) (s :: rest))).
    lra.
Qed.

Lemma sample_parameters_chain (n j m : nat) :
  (0 < n)%nat -> (j + m = n)%nat ->
  chain_to_one (INR j / INR n) (map (fun k => INR k / INR n) (seq (S j) m)).
Proof.
  intros Hn. assert (Hpos : 0 < INR n) by (apply lt_0_INR; lia).
  revert j. induction m as [| m IH]; intros j Hj; cbn [seq map chain_to_one].
  - replace j with n by lia. right. field. lra.
  - split.
    + apply Rmult_le_compat_r; [ left; now apply Rinv_0_lt_compat | ].
      apply le_INR. lia.
    + apply IH. lia.
Qed.

Lemma samples_head_last (p0 p1 p2 p3 : Point) (n : nat) :
  (0 < n)%nat ->
  head (map (cubic_bernstein p0 p1 p2 p3) (sample_parameters n)) = Some p0
  /\ last (map (cubic_bernstein p0 p1 p2 p3) (sample_parameters n)) = Some p3.
Proof.
  intros Hn. assert (Hpos : INR n <> 0) by (apply not_0_INR; lia).
  split.
  - unfold sample_parameters. cbn [seq map head]. f_equal.
    replace (INR 0 / INR n) with 0 by (simpl; field; exact Hpos).
    apply cubic_bernstein_0.
  - rewrite last_lookup.
    change (map (cubic_bernstein p0 p1 p2 p3) (sample_parameters n))
      with (cubic_bernstein p0 p1 p2 p3 <$> sample_parameters n).
    rewrite length_fmap. unfold sample_parameters at 1.
    rewrite length_map, length_seq. cbn [pred].
    rewrite list_lookup_fmap, sample_parameters_lookup by lia. simpl. f_equal.
    replace (INR n / INR n) with 1 by (field; exact Hpos).
    apply cubic_bernstein_1.
Qed.

(** In exact arithmetic the length [calculateLength] returns is at least
    the distance from [P0] to [P3] and at most the length of the control
    polygon. *)
Lemma calculateLength_between
    (this : BezierCurve) (p0 p1 p2 p3 : Point) (n : nat) :
  controlPoints this = [p0; p1; p2; p3] ->
  (0 < n)%nat ->
  sampleDensity this = INR n ->
  exists (samples : list Point) (len : R),
    Bezier.sampleCurvePoints this = (Normal samples, set_curvePoints samples this)
    /\ Bezier.calculateLength this = (Normal len, set_curvePoints samples this)
    /\ len = polyline_length samples
    /\ distance p3 p0 <= len
    /\ len <= polygon_length p0 p1 p2 p3.
Proof.
  intros HP Hn Hd.
  set (samples := map (cubic_bernstein p0 p1 p2 p3) (sample_parameters n)).
  assert (Hrun : Bezier.sampleCurvePoints this
                 = (Normal samples, set_curvePoints samples this)).
  { rewrite (sampleCurvePoints_run this p0 p1 p2 p3 HP), Hd.
    now rewrite sample_parameters_range. }
  exists samples, (polyline_length samples).
  split; [ exact Hrun | ].
  split; [ now apply calculateLength_run | ].
  split; [ reflexivity | ].
  destruct (samples_head_last p0 p1 p2 p3 n Hn) as [Hhead Hlast].
  split; [ now apply polyline_chord | ].
  assert (Hpos : INR n <> 0) by (apply not_0_INR; lia).
  unfold samples, sample_parameters. cbn [seq map].
  pose proof (polyline_polygon_bound p0 p1 p2 p3
                (map (fun k => INR k / INR n) (seq 1 n)) (INR 0 / INR n)) as Hb.
  cbn [map] in Hb.
  assert (E0 : INR 0 / INR n = 0) by (simpl; field; exact Hpos).
  unfold polygon_length.
  assert (Hbound : (bernstein_tail1 1 - bernstein_tail1 (INR 0 / INR n)) * distance p1 p0
                   + (bernstein_tail2 1 - bernstein_tail2 (INR 0 / INR n)) * distance p2 p1
                   + (bernstein_tail3 1 - bernstein_tail3 (INR 0 / INR n)) * distance p3 p2
                   = distance p1 p0 + distance p2 p1 + distance p3 p2).
  { rewrite E0. unfold bernstein_tail1, bernstein_tail2, bernstein_tail3. ring. }
  rewrite <- Hbound. apply Hb.
  - rewrite E0. lra.
  - apply (sample_parameters_chain n 0 n Hn). lia.
Qed.

(** X4. On a curve of four control points with coordinates of size at most
    [size] and a positive whole [sampleDensity], [calculateLength] completes,
    re-samples the curve into [curvePoints], and returns the length of the
    polyline through the samples, which is, up to the rounding slack for
    [size], at least the distance from [P0] to [P3] and at most the length
    of the control polygon [P0 P1 P2 P3]. *)
Theorem calculateLength_near_bounds
    (this : BezierCurve) (p0 p1 p2 p3 : Point) (n : nat) (size : R) :
  controlPoints this = [p0; p1; p2; p3] ->
  (0 < n)%nat ->
  sampleDensity this = INR n ->
  (forall p : Point, In p [p0; p1; p2; p3] -> Rabs (x p) <= size /\ Rabs (y p) <= size) ->
  exists (samples : list Point) (len : R),
    Bezier.sampleCurvePoints this = (Normal samples, set_curvePoints samples this)
    /\ Bezier.calculateLength this = (Normal len, set_curvePoints samples this)
    /\ len = polyline_length samples
    /\ distance p3 p0 - rounding_slack size <= len
    /\ len <= polygon_length p0 p1 p2 p3 + rounding_slack size.
Proof.
  intros HP Hn Hd Hsize.
  destruct (calculateLength_between this p0 p1 p2 p3 n HP Hn Hd)
    as (samples & len & Hs & Hl & He & Hlo & Hhi).
  exists samples, len.
  split; [ exact Hs | ]. split; [ exact Hl | ]. split; [ exact He | ].
  destruct (Hsize p0) as [Hx0 _]; [ simpl; tauto | ].
  pose proof (Rabs_pos (x p0)).
  destruct (rounding_slack_bounds size) as [H0 _]; [ lra | ].
  split; lra.
Qed.

Lemma calculateLength_near_bounds_witness :
  exists (samples : list Point) (len : R),
    Bezier.sampleCurvePoints (curve_of (mkPoint 100 100) (mkPoint 200 50)
                                       (mkPoint 300 150) (mkPoint 400 100))
    = (Normal samples,
       set_curvePoints samples (curve_of (mkPoint 100 100) (mkPoint 200 50)
                                         (mkPoint 300 150) (mkPoint 400 100)))
    /\ Bezier.calculateLength (curve_of (mkPoint 100 100) (mkPoint 200 50)
                                        (mkPoint 300 150) (mkPoint 400 100))
       = (Normal len,
          set_curvePoints samples (curve_of (mkPoint 100 100) (mkPoint 200 50)
                                            (mkPoint 300 150) (mkPoint 400 100)))
    /\ len = polyline_length samples
    /\ distance (mkPoint 400 100) (mkPoint 100 100) - rounding_slack 400 <= len
    /\ len <= polygon_length (mkPoint 100 100) (mkPoint 200 50)
                             (mkPoint 300 150) (mkPoint 400 100)
              + rounding_slack 400.
Proof.
  apply (calculateLength_near_bounds
           (curve_of (mkPoint 100 100) (mkPoint 200 50)
                     (mkPoint 300 150) (mkPoint 400 100))
           (mkPoint 100 100) (mkPoint 200 50) (mkPoint 300 150) (mkPoint 400 100)
           200 400).
  - reflexivity.
  - lia.
  - symmetry. apply (INR_IZR_INZ 200).
  - intros p [<- | [<- | [<- | [<- | []]]]]; simpl;
      split; apply Rabs_le; lra.
Defined.

(** ** Tangent samples *)

Lemma calculateNormalizedTangent_four
    (this : BezierCurve) (p0 p1 p2 p3 : Point) (t : R) :
  controlPoints this = [p0; p1; p2; p3] ->
  Bezier.calculateNormalizedTangent this t
  = Normal (normalize (cubic_derivative p0 p1 p2 p3 t)).
Proof.
  intros HP. unfold Bezier.calculateNormalizedTangent.
  rewrite (calculateTangent_four this p0 p1 p2 p3 t HP).
  unfold normalize, magnitude.
  destruct (Req_dec_T _ 0); reflexivity.
Qed.

Lemma normalize_unit_or_zero (v : Point) :
  (v <> origin /\ magnitude (normalize v) = 1)
  \/ (v = origin /\ normalize v = origin).
Proof.
  unfold normalize.
  destruct (Req_dec_T (magnitude v) 0) as [E | Hne].
  - right. split; [ now apply magnitude_zero_iff | reflexivity ].
  - left. split; [ intros ->; apply Hne, magnitude_origin | ].
    assert (Hpos : 0 < magnitude v) by (pose proof (magnitude_nonneg v); lra).
    replace {| x := x v / magnitude v; y := y v / magnitude v |}
      with {| x := / magnitude v * x v; y := / magnitude v * y v |}
      by (apply Point_eq; simpl; field; exact Hne).
    rewrite magnitude_scale.
    + field. exact Hne.
    + left. now apply Rinv_0_lt_compat.
Qed.

Lemma push_fold {A} (g : Z -> A) (idxs : list Z) (acc : list A) :
  fold_left (fun acc0 i => acc0 ++ [g i]) idxs acc = acc ++ map g idxs.
Proof.
  revert acc. induction idxs as [| i rest IH]; intros acc; simpl.
  - now rewrite app_nil_r.
  - rewrite IH. now rewrite <- app_assoc.
Qed.

Lemma getTangentPoints_run (this : BezierCurve) (p0 p1 p2 p3 : Point) (density : R) :
  controlPoints this = [p0; p1; p2; p3] ->
  Bezier.getTangentPoints this density
  = Normal (map (fun i =>
                   {| point := cubic_bernstein p0 p1 p2 p3 (IZR i / density);
                      tangent := normalize (cubic_derivative p0 p1 p2 p3
                                              (IZR i / density)) |})
                (range_upto 0 density)).
Proof.
  intros HP. unfold Bezier.getTangentPoints. unfold bind at 1.
  match goal with
  | |- context [for_each ?l ?body ?s0] =>
      destruct (for_each_fold (fun _ : list TangentSample => True)
                  (fun i acc =>
                     acc ++ [ {| point := cubic_bernstein p0 p1 p2 p3 (IZR i / density);
                                 tangent := normalize (cubic_derivative p0 p1 p2 p3
                                                         (IZR i / density)) |} ])
                  body l s0) as [Hrun _]
  end.
  { exact I. }
  { intros i acc _ _. split; [ | exact I ].
    unfold bind, lift, modify, ret.
    rewrite (calculatePoint_four this p0 p1 p2 p3 _ HP).
    rewrite (calculateNormalizedTangent_four this p0 p1 p2 p3 _ HP).
    reflexivity. }
  rewrite Hrun. simpl. now rewrite push_fold.
Qed.

(** X5. On a curve of four control points, [getTangentPoints(n)] for a
    positive whole [n] completes and returns [n + 1] entries; the [k]-th
    holds the curve point at [t = k / n] and the normalised tangent there,
    a vector of magnitude 1, or the zero vector where the derivative
    vanishes. *)
Theorem getTangentPoints_samples
    (this : BezierCurve) (p0 p1 p2 p3 : Point) (n : nat) :
  controlPoints this = [p0; p1; p2; p3] ->
  (0 < n)%nat ->
  exists tangents : list TangentSample,
    Bezier.getTangentPoints this (INR n) = Normal tangents
    /\ length tangents = S n
    /\ forall k : nat, (k <= n)%nat ->
         exists entry : TangentSample,
           tangents !! k = Some entry
           /\ Bezier.calculatePoint this (INR k / INR n) = Normal (point entry)
           /\ Bezier.calculateNormalizedTangent this (INR k / INR n)
              = Normal (tangent entry)
           /\ ((cubic_derivative p0 p1 p2 p3 (INR k / INR n) <> origin
                /\ magnitude (tangent entry) = 1)
               \/ (cubic_derivative p0 p1 p2 p3 (INR k / INR n) = origin
                   /\ tangent entry = origin)).
Proof.
  intros HP Hn.
  rewrite (getTangentPoints_run this p0 p1 p2 p3 (INR n) HP), range_upto_INR.
  rewrite map_map. eexists. split; [ reflexivity | ].
  split; [ now rewrite length_map, length_seq | ].
  intros k Hk.
  exists {| point := cubic_bernstein p0 p1 p2 p3 (INR k / INR n);
            tangent := normalize (cubic_derivative p0 p1 p2 p3 (INR k / INR n)) |}.
  split.
  { match goal with
    | |- map ?f ?l !! k = _ => change (map f l) with (f <$> l)
    end.
    rewrite list_lookup_fmap, lookup_seq_lt by lia. simpl.
    now rewrite <- INR_IZR_INZ. }
  split; [ now apply calculatePoint_four | ].
  split; [ now apply calculateNormalizedTangent_four | ].
  apply normalize_unit_or_zero.
Qed.

Lemma getTangentPoints_samples_witness :
  exists tangents : list TangentSample,
    Bezier.getTangentPoints (curve_of (mkPoint 100 100) (mkPoint 200 50)
                                      (mkPoint 300 150) (mkPoint 400 100)) (INR 5)
    = Normal tangents
    /\ length tangents = 6%nat.
Proof.
  destruct (getTangentPoints_samples
              (curve_of (mkPoint 100 100) (mkPoint 200 50)
                        (mkPoint 300 150) (mkPoint 400 100))
              (mkPoint 100 100) (mkPoint 200 50) (mkPoint 300 150) (mkPoint 400 100)
              5)
    as (tangents & Hrun & Hlen & _); [ reflexivity | lia | ].
  exists tangents. split; assumption.
Defined.

(** ** Set-up, reset and the tunable constants *)

(** X6. [setupControlPoints] resets the spring memory: afterwards there is
    one velocity and one anchor per control point, every velocity is zero
    and every anchor equals its control point; no index outside the array
    has spring state; the three constants are kept; and nothing of the
    earlier velocities and anchors is left. *)
Theorem setupControlPoints_resets (this : PhysicsSystem) (controlPoints : list Point) :
  let s := initialize this controlPoints in
  length (velocities (sim_this s)) = length controlPoints
  /\ length (restPositions (sim_this s)) = length controlPoints
  /\ (forall i : Z, (0 <= i < js_length controlPoints)%Z ->
        velocity_at s i = Some origin
        /\ is_Some (point_at s i) /\ anchor_at s i = point_at s i)
  /\ (forall i : Z, ~ (0 <= i < js_length controlPoints)%Z ->
        velocity_at s i = None /\ anchor_at s i = None)
  /\ springConstant (sim_this s) = springConstant this
  /\ damping (sim_this s) = damping this
  /\ mouseInfluence (sim_this s) = mouseInfluence this
  /\ (forall vs rs,
        Physics.setupControlPoints
          (set_restPositions rs (set_velocities vs this)) controlPoints
        = Physics.setupControlPoints this controlPoints).
Proof.
  simpl.
  destruct (setupControlPoints_state this controlPoints)
    as (Hv & Hr & Hk & Hc & Hm). simpl in *.
  split; [ rewrite Hv; apply length_replicate | ].
  split; [ now rewrite Hr | ].
  split.
  { intros i [H0 H1].
    rewrite initialize_velocity, initialize_anchor. unfold point_at; simpl.
    destruct (i <? 0)%Z eqn:E0; [ apply Z.ltb_lt in E0; lia | ].
    destruct (i <? js_length controlPoints)%Z eqn:E1;
      [ | apply Z.ltb_ge in E1; lia ].
    split; [ reflexivity | ]. split; [ | reflexivity ].
    apply js_get_in_range. lia. }
  split.
  { intros i Hout.
    rewrite initialize_velocity, initialize_anchor.
    destruct (i <? 0)%Z eqn:E0.
    - split; [ reflexivity | ]. unfold js_get. now rewrite E0.
    - apply Z.ltb_ge in E0.
      destruct (i <? js_length controlPoints)%Z eqn:E1;
        [ apply Z.ltb_lt in E1; lia | ].
      apply Z.ltb_ge in E1. split; [ reflexivity | ].
      now apply js_get_out_of_range. }
  split; [ exact Hk | ]. split; [ exact Hc | ]. split; [ exact Hm | ].
  intros vs rs. reflexivity.
Qed.

Lemma js_set_get_eq {A} (arr : list (option A)) (i : Z) (a : A) :
  (0 <= i)%Z -> js_get_sparse (js_set arr i a) i = Some a.
Proof.
  intros H0. unfold js_set, js_get_sparse, js_get.
  destruct (i <? 0)%Z eqn:E0; [ apply Z.ltb_lt in E0; lia | ].
  destruct (i <? js_length arr)%Z eqn:E1.
  - apply Z.ltb_lt in E1. unfold js_length in E1.
    rewrite list_lookup_insert_eq by lia. reflexivity.
  - apply Z.ltb_ge in E1. unfold js_length in E1.
    rewrite lookup_app_r by lia.
    rewrite lookup_app_r by (rewrite length_replicate; lia).
    rewrite length_replicate.
    replace (Z.to_nat i - length arr - (Z.to_nat i - length arr))%nat with 0%nat
      by lia.
    reflexivity.
Qed.

Lemma js_set_get_ne {A} (arr : list (option A)) (i j : Z) (a : A) :
  i <> j -> js_get_sparse (js_set arr i a) j = js_get_sparse arr j.
Proof.
  intros Hne. unfold js_set, js_get_sparse, js_get.
  destruct (i <? 0)%Z eqn:E0; [ reflexivity | ]. apply Z.ltb_ge in E0.
  destruct (j <? 0)%Z eqn:Ej; [ reflexivity | ]. apply Z.ltb_ge in Ej.
  destruct (i <? js_length arr)%Z eqn:E1.
  - rewrite list_lookup_insert_ne by lia. reflexivity.
  - apply Z.ltb_ge in E1. unfold js_length in E1.
    destruct (Nat.lt_ge_cases (Z.to_nat j) (length arr)) as [Hlt | Hge].
    + now rewrite lookup_app_l by exact Hlt.
    + rewrite lookup_app_r by exact Hge.
      rewrite (lookup_ge_None_2 arr) by exact Hge. simpl.
      destruct (Nat.lt_ge_cases (Z.to_nat j - length arr)
                  (Z.to_nat i - length arr)) as [Hin | Hout].
      * rewrite lookup_app_l by (rewrite length_replicate; exact Hin).
        rewrite lookup_replicate_2 by exact Hin. reflexivity.
      * rewrite lookup_app_r by (rewrite length_replicate; exact Hout).
        rewrite length_replicate.
        destruct (Z.to_nat j - length arr - (Z.to_nat i - length arr))%nat
          as [| m] eqn:Em; [ lia | ].
        reflexivity.
Qed.

Lemma set_velocities_same (p : PhysicsSystem) : set_velocities (velocities p) p = p.
Proof. destruct p; reflexivity. Qed.

(** X7. [resetPoint(index)] with [index] below [restPositions.length] and
    not negative completes and sets the velocity of [index] to zero; every
    other velocity, every anchor, every control point and the constants stay
    as they are.  With [index] at or past [restPositions.length], or
    negative, it changes nothing that the class reads. *)
Theorem resetPoint_zeroes_velocity (index : Z) (s : Sim) :
  ((0 <= index < js_length (restPositions (sim_this s)))%Z ->
   exists s' : Sim,
     Physics.resetPoint index s = (Normal tt, s')
     /\ velocity_at s' index = Some origin
     /\ (forall j : Z, j <> index -> velocity_at s' j = velocity_at s j)
     /\ restPositions (sim_this s') = restPositions (sim_this s)
     /\ sim_controlPoints s' = sim_controlPoints s
     /\ springConstant (sim_this s') = springConstant (sim_this s)
     /\ damping (sim_this s') = damping (sim_this s)
     /\ mouseInfluence (sim_this s') = mouseInfluence (sim_this s))
  /\ ((js_length (restPositions (sim_this s)) <= index)%Z \/ (index < 0)%Z ->
      Physics.resetPoint index s = (Normal tt, s)).
Proof.
  split.
  - intros [H0 H1]. unfold Physics.resetPoint, bind, gets, modify.
    destruct (index <? js_length (restPositions (sim_this s)))%Z eqn:E;
      [ | apply Z.ltb_ge in E; lia ].
    eexists. split; [ reflexivity | ].
    unfold velocity_at; simpl.
    split; [ now apply js_set_get_eq | ].
    split; [ intros j Hj; apply js_set_get_ne; congruence | ].
    repeat split; reflexivity.
  - intros H. unfold Physics.resetPoint, bind, gets, modify.
    destruct (index <? js_length (restPositions (sim_this s)))%Z eqn:E.
    + apply Z.ltb_lt in E. destruct H as [H | H]; [ lia | ].
      unfold js_set.
      destruct (index <? 0)%Z eqn:E0; [ | apply Z.ltb_ge in E0; lia ].
      rewrite set_velocities_same. destruct s; reflexivity.
    + reflexivity.
Qed.

Lemma resetPoint_zeroes_velocity_witness :
  exists s' : Sim,
    Physics.resetPoint 1 demo_dragged = (Normal tt, s')
    /\ velocity_at s' 1 = Some origin
    /\ anchor_at s' 1 = anchor_at demo_dragged 1
    /\ sim_controlPoints s' = sim_controlPoints demo_dragged.
Proof.
  destruct (proj1 (resetPoint_zeroes_velocity 1 demo_dragged))
    as (s' & Hrun & Hv & _ & Hrest & Hcp & _).
  { unfold js_length. simpl. lia. }
  exists s'. split; [ exact Hrun | ]. split; [ exact Hv | ].
  split; [ unfold anchor_at; now rewrite Hrest | exact Hcp ].
Defined.

Lemma setters_range_spring (k : R) (this : PhysicsSystem) :
  0.01 <= springConstant (Physics.setSpringConstant k this) <= 0.5
  /\ damping (Physics.setSpringConstant k this) = damping this.
Proof.
  unfold Physics.setSpringConstant; simpl. unfold Rmax, Rmin.
  destruct (Rle_dec 0.5 k); destruct (Rle_dec 0.01 _); split;
    try reflexivity; lra.
Qed.

Lemma setters_range_damping (c : R) (this : PhysicsSystem) :
  0.7 <= damping (Physics.setDamping c this) <= 0.99
  /\ springConstant (Physics.setDamping c this) = springConstant this.
Proof.
  unfold Physics.setDamping; simpl. unfold Rmax, Rmin.
  destruct (Rle_dec 0.99 c); destruct (Rle_dec 0.7 _); split;
    try reflexivity; lra.
Qed.

(** X8. The setters clamp: after [setSpringConstant(k)] the spring constant
    is [k] when [0.01 <= k <= 0.5], [0.01] below and [0.5] above, so always
    within [0.01, 0.5]; after [setDamping(c)] the damping is [c] when
    [0.7 <= c <= 0.99], [0.7] below and [0.99] above.  Neither touches any
    other field. *)
Theorem setters_clamp (k c : R) (this : PhysicsSystem) :
  let pk := Physics.setSpringConstant k this in
  let pc := Physics.setDamping c this in
  (0.01 <= springConstant pk <= 0.5
   /\ (0.01 <= k <= 0.5 -> springConstant pk = k)
   /\ (k <= 0.01 -> springConstant pk = 0.01)
   /\ (0.5 <= k -> springConstant pk = 0.5)
   /\ pk = set_springConstant (springConstant pk) this)
  /\ (0.7 <= damping pc <= 0.99
      /\ (0.7 <= c <= 0.99 -> damping pc = c)
      /\ (c <= 0.7 -> damping pc = 0.7)
      /\ (0.99 <= c -> damping pc = 0.99)
      /\ pc = set_damping (damping pc) this).
Proof.
  simpl. unfold Physics.setSpringConstant, Physics.setDamping; simpl.
  unfold Rmax, Rmin.
  split.
  - destruct (Rle_dec 0.5 k); destruct (Rle_dec 0.01 _);
      repeat split; intros; try reflexivity; lra.
  - destruct (Rle_dec 0.99 c); destruct (Rle_dec 0.7 _);
      repeat split; intros; try reflexivity; lra.
Qed.

(** ** The simulator never throws once it is set up *)

Lemma update_keeps (s : Sim) :
  spring_state_ready s ->
  exists s' : Sim,
    Physics.update s = (Normal tt, s')
    /\ spring_state_ready s'
    /\ restPositions (sim_this s') = restPositions (sim_this s)
    /\ springConstant (sim_this s') = springConstant (sim_this s)
    /\ damping (sim_this s') = damping (sim_this s)
    /\ js_length (sim_controlPoints s') = js_length (sim_controlPoints s)
    /\ js_length (velocities (sim_this s')) = js_length (velocities (sim_this s)).
Proof.
  intros Hready.
  destruct (update_ready s Hready) as (s1 & s2 & _ & _ & Hu & St1 & St2).
  destruct St1 as (Hstep1 & Hother1 & Hrest1 & Hk1 & Hc1 & _ & Hlen1 & Hvl1).
  destruct St2 as (Hstep2 & Hother2 & Hrest2 & Hk2 & Hc2 & _ & Hlen2 & Hvl2).
  destruct (update_ready_result s Hready) as (s' & Hu' & Hstep & _).
  assert (s' = s2) by congruence. subst s'.
  exists s2. split; [ exact Hu | ].
  split; [ | repeat split; congruence ].
  intros i Hdyn Hlt. rewrite Hlen2, Hlen1 in Hlt.
  destruct (Hready i Hdyn Hlt) as [[v Hv] [a Ha]].
  destruct (js_get_in_range (sim_controlPoints s) i) as [p Hp].
  { destruct Hdyn; lia. }
  destruct (Hstep i p v a Hdyn Hp Hv Ha) as [_ Hv'].
  split; [ eauto | ]. unfold anchor_at in *. rewrite Hrest2, Hrest1. eauto.
Qed.

Lemma applyForceToPoint_keeps (index : Z) (targetX targetY : R) (s : Sim) :
  spring_state_ready s ->
  exists s' : Sim,
    Physics.applyForceToPoint index targetX targetY s = (Normal tt, s')
    /\ spring_state_ready s'
    /\ sim_controlPoints s' = sim_controlPoints s
    /\ springConstant (sim_this s') = springConstant (sim_this s)
    /\ damping (sim_this s') = damping (sim_this s)
    /\ js_length (restPositions (sim_this s'))
       = js_length (restPositions (sim_this s))
    /\ js_length (velocities (sim_this s')) = js_length (velocities (sim_this s)).
Proof.
  intros Hready.
  destruct ((index <? 1) || (index >? 2)
            || (index >=? js_length (sim_controlPoints s)))%Z eqn:E.
  - exists s. split; [ | split; [ exact Hready | repeat split; reflexivity ] ].
    unfold Physics.applyForceToPoint, bind, gets. now rewrite E.
  - apply applyForceToPoint_guard in E. destruct E as [Hdyn Hlt].
    destruct (Hready index Hdyn Hlt) as [[v Hv] [a Ha]].
    destruct (js_get_in_range (sim_controlPoints s) index) as [p Hp].
    { destruct Hdyn; lia. }
    assert (H0 : (0 <= index)%Z) by (destruct Hdyn; lia).
    pose proof (js_get_Some _ _ _ Ha) as Har.
    pose proof (js_get_sparse_Some _ _ _ Hv) as Hvr.
    eexists. split; [ exact (applyForceToPoint_applied _ _ _ _ p v a Hdyn Hp Hv Ha) | ].
    split; [ | simpl; rewrite !js_length_insert; repeat split; reflexivity ].
    intros i Hi Hilt. simpl in Hilt. unfold velocity_at, anchor_at; simpl.
    destruct (Z.eq_dec i index) as [-> | Hne].
    + rewrite js_get_sparse_insert_eq by exact Hvr.
      rewrite js_get_insert_eq by exact Har. eauto.
    + rewrite js_get_sparse_insert_ne by (auto; congruence).
      rewrite js_get_insert_ne by (auto; congruence).
      exact (Hready i Hi Hilt).
Qed.

Lemma js_length_js_set_in_range {A} (arr : list (option A)) (i : Z) (a : A) :
  (i < js_length arr)%Z -> js_length (js_set arr i a) = js_length arr.
Proof.
  intros Hlt. unfold js_set.
  destruct (i <? 0)%Z; [ reflexivity | ].
  destruct (i <? js_length arr)%Z eqn:E; [ | apply Z.ltb_ge in E; lia ].
  apply js_length_insert.
Qed.

Lemma resetPoint_keeps (index : Z) (s : Sim) :
  spring_state_ready s ->
  js_length (velocities (sim_this s)) = js_length (restPositions (sim_this s)) ->
  exists s' : Sim,
    Physics.resetPoint index s = (Normal tt, s')
    /\ spring_state_ready s'
    /\ sim_controlPoints s' = sim_controlPoints s
    /\ restPositions (sim_this s') = restPositions (sim_this s)
    /\ springConstant (sim_this s') = springConstant (sim_this s)
    /\ damping (sim_this s') = damping (sim_this s)
    /\ js_length (velocities (sim_this s')) = js_length (velocities (sim_this s)).
Proof.
  intros Hready Hlen. unfold Physics.resetPoint, bind, gets, modify.
  destruct (index <? js_length (restPositions (sim_this s)))%Z eqn:E.
  - apply Z.ltb_lt in E. eexists. split; [ reflexivity | ]. simpl.
    split; [ | repeat split; try reflexivity;
               apply js_length_js_set_in_range; lia ].
    intros i Hi Hilt. simpl in Hilt. unfold velocity_at, anchor_at; simpl.
    destruct (Hready i Hi Hilt) as [Hv Ha]. split; [ | exact Ha ].
    destruct (Z.eq_dec i index) as [-> | Hne].
    + rewrite js_set_get_eq by (destruct Hi; lia). eauto.
    + rewrite js_set_get_ne by congruence. exact Hv.
  - exists s. split; [ reflexivity | ].
    split; [ exact Hready | repeat split; reflexivity ].
Qed.

Lemma run_sim_call_keeps (c : sim_call) (s : Sim) :
  sim_invariant s ->
  exists s' : Sim,
    run_sim_call c s = (Normal tt, s')
    /\ sim_invariant s'
    /\ js_length (sim_controlPoints s') = js_length (sim_controlPoints s).
Proof.
  intros (Hready & Hlen & Hk & Hc).
  destruct c as [| index targetX targetY | index | k | c]; simpl.
  - destruct (update_keeps s Hready)
      as (s' & Hu & Hr' & Hrest & Hk' & Hc' & Hcp & Hvl).
    exists s'. split; [ exact Hu | ]. split; [ | exact Hcp ].
    split; [ exact Hr' | ]. split; [ now rewrite Hvl, Hrest | ].
    unfold constants_in_range. now rewrite Hk', Hc'.
  - destruct (applyForceToPoint_keeps index targetX targetY s Hready)
      as (s' & Hu & Hr' & Hcp & Hk' & Hc' & Hrl & Hvl).
    exists s'. split; [ exact Hu | ]. split; [ | now rewrite Hcp ].
    split; [ exact Hr' | ]. split; [ now rewrite Hvl, Hrl | ].
    unfold constants_in_range. now rewrite Hk', Hc'.
  - destruct (resetPoint_keeps index s Hready Hlen)
      as (s' & Hu & Hr' & Hcp & Hrest & Hk' & Hc' & Hvl).
    exists s'. split; [ exact Hu | ]. split; [ | now rewrite Hcp ].
    split; [ exact Hr' | ]. split; [ now rewrite Hvl, Hrest | ].
    unfold constants_in_range. now rewrite Hk', Hc'.
  - eexists. split; [ reflexivity | ]. split; [ | reflexivity ].
    split; [ exact Hready | ]. split; [ exact Hlen | ].
    destruct (setters_range_spring k (sim_this s)) as [Hin _].
    split; [ exact Hin | exact Hc ].
  - eexists. split; [ reflexivity | ]. split; [ | reflexivity ].
    split; [ exact Hready | ]. split; [ exact Hlen | ].
    destruct (setters_range_damping c (sim_this s)) as [Hin _].
    split; [ exact Hk | exact Hin ].
Qed.

Lemma initialize_invariant (this : PhysicsSystem) (controlPoints : list Point) :
  constants_in_range this -> sim_invariant (initialize this controlPoints).
Proof.
  intros [Hk Hc].
  destruct (setupControlPoints_state this controlPoints)
    as (Hv & Hr & Hk' & Hc' & _). simpl in *.
  split; [ apply initialize_ready | ].
  split.
  - unfold js_length, initialize; simpl. rewrite Hv, Hr.
    now rewrite length_replicate.
  - unfold constants_in_range, initialize; simpl. now rewrite Hk', Hc'.
Qed.

Lemma run_sim_calls_keep (cs : list sim_call) (s : Sim) :
  sim_invariant s ->
  exists s' : Sim,
    run_sim_calls cs s = (Normal tt, s')
    /\ sim_invariant s'
    /\ js_length (sim_controlPoints s') = js_length (sim_controlPoints s).
Proof.
  revert s. induction cs as [| c rest IH]; intros s Hinv; simpl.
  - exists s. split; [ reflexivity | ]. split; [ exact Hinv | reflexivity ].
  - destruct (run_sim_call_keeps c s Hinv) as (s1 & Hrun1 & Hinv1 & Hlen1).
    destruct (IH s1 Hinv1) as (s' & Hrun & Hinv' & Hlen).
    exists s'. split; [ unfold bind; now rewrite Hrun1 | ].
    split; [ exact Hinv' | congruence ].
Qed.

(** X9. Once [setupControlPoints] has run on an array of control points,
    no sequence of [update], [applyForceToPoint], [resetPoint],
    [setSpringConstant] and [setDamping] calls with that array ever throws,
    whatever the indices, targets and values passed: every call completes,
    the spring state stays complete for the dynamic indices, [velocities]
    and [restPositions] keep equal lengths, and the constants stay within
    [0.01, 0.5] and [0.7, 0.99]. *)
Theorem simulator_never_throws
    (this : PhysicsSystem) (controlPoints : list Point) (cs : list sim_call) :
  constants_in_range this ->
  exists s' : Sim,
    run_sim_calls cs (initialize this controlPoints) = (Normal tt, s')
    /\ spring_state_ready s'
    /\ js_length (velocities (sim_this s')) = js_length (restPositions (sim_this s'))
    /\ constants_in_range (sim_this s')
    /\ js_length (sim_controlPoints s') = js_length controlPoints.
Proof.
  intros Hrange.
  destruct (run_sim_calls_keep cs (initialize this controlPoints)
              (initialize_invariant this controlPoints Hrange))
    as (s' & Hrun & (Hready & Hlen & Hconst) & Hcp).
  exists s'. split; [ exact Hrun | ]. split; [ exact Hready | ].
  split; [ exact Hlen | ]. split; [ exact Hconst | exact Hcp ].
Qed.

Lemma constructor_in_range : constants_in_range Physics.constructor.
Proof. unfold constants_in_range; simpl. lra. Qed.

Lemma simulator_never_throws_witness :
  exists s' : Sim,
    run_sim_calls
      [CallApplyForceToPoint 1 250 80; CallUpdate; CallSetSpringConstant 7;
       CallResetPoint 9; CallApplyForceToPoint (-3) 0 0; CallUpdate]
      (initialize Physics.constructor demoPoints)
    = (Normal tt, s')
    /\ spring_state_ready s'
    /\ js_length (velocities (sim_this s')) = js_length (restPositions (sim_this s'))
    /\ constants_in_range (sim_this s')
    /\ js_length (sim_controlPoints s') = js_length demoPoints.
Proof.
  apply simulator_never_throws. unfold constants_in_range; simpl. lra.
Defined.

(** ** Settling for every setting of the constants

    For every spring constant and damping the setters allow, the spring step
    is a contraction for [spring_norm_for k], by the factor [1 - 0.4 k]. *)

Lemma div_le_iff (a b c : R) : 0 < c -> (a / c <= b <-> a <= b * c).
Proof.
  intros Hc. split; intros H.
  - replace a with (a / c * c) by (field; lra).
    apply Rmult_le_compat_r; lra.
  - replace b with (b * c / c) by (field; lra).
    unfold Rdiv. apply Rmult_le_compat_r; [ | exact H ].
    left. now apply Rinv_0_lt_compat.
Qed.

Lemma spring_norm_for_le (k : R) (p v a : Point) (b : R) :
  0 < k ->
  spring_norm_for k p v a <= b
  <-> (Rabs (x p - x a) <= b /\ Rabs (x v) <= b * (2 * k))
      /\ (Rabs (y p - y a) <= b /\ Rabs (y v) <= b * (2 * k)).
Proof.
  intros Hk. unfold spring_norm_for.
  rewrite <- !(div_le_iff _ b (2 * k)) by lra.
  split.
  - intros H.
    pose proof (Rmax_l (Rmax (Rabs (x p - x a)) (Rabs (x v) / (2 * k)))
                       (Rmax (Rabs (y p - y a)) (Rabs (y v) / (2 * k)))).
    pose proof (Rmax_r (Rmax (Rabs (x p - x a)) (Rabs (x v) / (2 * k)))
                       (Rmax (Rabs (y p - y a)) (Rabs (y v) / (2 * k)))).
    pose proof (Rmax_l (Rabs (x p - x a)) (Rabs (x v) / (2 * k))).
    pose proof (Rmax_r (Rabs (x p - x a)) (Rabs (x v) / (2 * k))).
    pose proof (Rmax_l (Rabs (y p - y a)) (Rabs (y v) / (2 * k))).
    pose proof (Rmax_r (Rabs (y p - y a)) (Rabs (y v) / (2 * k))).
    repeat split; lra.
  - intros [[H1 H2] [H3 H4]]. repeat apply Rmax_lub; assumption.
Qed.

Lemma spring_norm_for_nonneg (k : R) (p v a : Point) :
  0 < k -> 0 <= spring_norm_for k p v a.
Proof.
  intros Hk.
  pose proof (proj1 (spring_norm_for_le k p v a _ Hk) (Rle_refl _)) as [[H _] _].
  pose proof (Rabs_pos (x p - x a)). lra.
Qed.

(** One axis of the step: the displacement [d] and the velocity [v] become
    [d'] and [v']. *)
Lemma axis_contracts_for (k c d v d' v' b : R) :
  0.01 <= k <= 0.5 -> 0.7 <= c <= 0.99 ->
  d' = (1 - k) * d + (1 - c) * v ->
  v' = 0.995 * ((1 - c) * v - k * d) ->
  Rabs d <= b -> Rabs v <= b * (2 * k) ->
  Rabs d' <= (1 - 0.4 * k) * b /\ Rabs v' <= (1 - 0.4 * k) * b * (2 * k).
Proof.
  intros Hk Hc -> -> Hd Hv.
  apply Rabs_le_bounds in Hd. apply Rabs_le_bounds in Hv.
  assert (Hb : 0 <= b) by lra.
  assert (Hkb : 0 <= k * b) by (apply Rmult_le_pos; lra).
  assert (Hkkb : 0 <= k * (k * b)) by (apply Rmult_le_pos; lra).
  assert (Hckb : 0 <= (c - 0.7) * (k * b)) by (apply Rmult_le_pos; lra).
  assert (Hc1kb : 0 <= (0.99 - c) * (k * b)) by (apply Rmult_le_pos; lra).
  assert (Hdk1 : 0 <= (1 - k) * (b - d)) by (apply Rmult_le_pos; lra).
  assert (Hdk2 : 0 <= (1 - k) * (b + d)) by (apply Rmult_le_pos; lra).
  assert (Hvc1 : 0 <= (1 - c) * (b * (2 * k) - v)) by (apply Rmult_le_pos; lra).
  assert (Hvc2 : 0 <= (1 - c) * (b * (2 * k) + v)) by (apply Rmult_le_pos; lra).
  assert (Hkd1 : 0 <= k * (b - d)) by (apply Rmult_le_pos; lra).
  assert (Hkd2 : 0 <= k * (b + d)) by (apply Rmult_le_pos; lra).
  split; apply Rabs_le; split; nra.
Qed.

Lemma spring_step_contracts_for (k c : R) (p v a : Point) :
  0.01 <= k <= 0.5 -> 0.7 <= c <= 0.99 ->
  spring_norm_for k (fst (spring_step k c p v a)) (snd (spring_step k c p v a)) a
  <= (1 - 0.4 * k) * spring_norm_for k p v a.
Proof.
  intros Hk Hc. assert (Hk0 : 0 < k) by lra.
  pose proof (proj1 (spring_norm_for_le k p v a _ Hk0) (Rle_refl _))
    as [[Hdx Hvx] [Hdy Hvy]].
  apply spring_norm_for_le; [ exact Hk0 | ]. unfold spring_step; simpl.
  split.
  - apply (axis_contracts_for k c (x p - x a) (x v));
      [ exact Hk | exact Hc | ring | ring | exact Hdx | exact Hvx ].
  - apply (axis_contracts_for k c (y p - y a) (y v));
      [ exact Hk | exact Hc | ring | ring | exact Hdy | exact Hvy ].
Qed.

Lemma update_contracts_for (s : Sim) :
  spring_state_ready s -> constants_in_range (sim_this s) ->
  exists s' : Sim,
    Physics.update s = (Normal tt, s')
    /\ spring_state_ready s'
    /\ springConstant (sim_this s') = springConstant (sim_this s)
    /\ damping (sim_this s') = damping (sim_this s)
    /\ forall (i : Z) (p v a : Point),
         dynamic i ->
         point_at s i = Some p -> velocity_at s i = Some v ->
         anchor_at s i = Some a ->
         exists p' v' : Point,
           point_at s' i = Some p' /\ velocity_at s' i = Some v'
           /\ anchor_at s' i = Some a
           /\ spring_norm_for (springConstant (sim_this s)) p' v' a
              <= (1 - 0.4 * springConstant (sim_this s))
                 * spring_norm_for (springConstant (sim_this s)) p v a.
Proof.
  intros Hready [Hk Hc].
  destruct (update_keeps s Hready) as (s' & Hu & Hready' & Hrest & Hk' & Hc' & _).
  destruct (update_ready_result s Hready) as (s2 & Hu2 & Hstep & _).
  assert (s2 = s') by congruence. subst s2.
  exists s'. split; [ exact Hu | ]. split; [ exact Hready' | ].
  split; [ exact Hk' | ]. split; [ exact Hc' | ].
  intros i p v a Hdyn Hp Hv Ha.
  destruct (Hstep i p v a Hdyn Hp Hv Ha) as [Hp' Hv'].
  eexists. eexists. split; [ exact Hp' | ]. split; [ exact Hv' | ].
  split; [ unfold anchor_at in *; now rewrite Hrest | ].
  now apply spring_step_contracts_for.
Qed.

(** In exact arithmetic, for constants within the ranges of the setters,
    [n] calls of [update] shrink the norm [spring_norm_for k] of each
    dynamic point by the factor [(1 - 0.4 k) ^ n] at least. *)
Lemma updates_contract_for (n : nat) (s : Sim) :
  spring_state_ready s ->
  constants_in_range (sim_this s) ->
  exists s' : Sim,
    updates n s = (Normal tt, s')
    /\ 0 <= 1 - 0.4 * springConstant (sim_this s) <= 0.996
    /\ forall (i : Z) (p v a : Point),
         dynamic i ->
         point_at s i = Some p -> velocity_at s i = Some v ->
         anchor_at s i = Some a ->
         exists p' v' : Point,
           point_at s' i = Some p' /\ velocity_at s' i = Some v'
           /\ anchor_at s' i = Some a
           /\ spring_norm_for (springConstant (sim_this s)) p' v' a
              <= (1 - 0.4 * springConstant (sim_this s)) ^ n
                 * spring_norm_for (springConstant (sim_this s)) p v a.
Proof.
  revert s. induction n as [| n IH]; intros s Hready Hrange.
  - exists s. split; [ reflexivity | ].
    split; [ destruct Hrange as [Hk _]; lra | ].
    intros i p v a _ Hp Hv Ha. exists p, v. repeat split; try assumption.
    simpl. lra.
  - destruct (update_contracts_for s Hready Hrange)
      as (s1 & Hu & Hready1 & Hk1 & Hc1 & Hstep).
    assert (Hrange1 : constants_in_range (sim_this s1)).
    { unfold constants_in_range. rewrite Hk1, Hc1. exact Hrange. }
    destruct (IH s1 Hready1 Hrange1) as (s' & Hus & Hfac & Hrest).
    rewrite Hk1 in Hfac, Hrest.
    exists s'. split; [ simpl; unfold bind; now rewrite Hu | ].
    split; [ exact Hfac | ].
    intros i p v a Hdyn Hp Hv Ha.
    destruct (Hstep i p v a Hdyn Hp Hv Ha) as (p1 & v1 & Hp1 & Hv1 & Ha1 & Hn1).
    destruct (Hrest i p1 v1 a Hdyn Hp1 Hv1 Ha1) as (p' & v' & Hp' & Hv' & Ha' & Hn').
    exists p', v'. repeat split; try assumption.
    assert (0 <= (1 - 0.4 * springConstant (sim_this s)) ^ n)
      by (apply pow_le; lra).
    simpl. nra.
Qed.

(** X10. For every spring constant [k] in [0.01, 0.5] and damping in
    [0.7, 0.99], the values the setters allow, and from any state whose
    spring state exists, [n] calls of [update] all complete, keep every
    anchor, and bring the norm [spring_norm_for k] of each dynamic point
    under [(1 - 0.4 k) ^ n] times what it was, a factor that is at most
    [0.996 ^ n], up to the rounding slack for the size of the anchor and of
    the norm: the simulation settles for every setting and from every state
    [applyForceToPoint] can leave. *)
Theorem updates_settle_for_all_constants (n : nat) (s : Sim) :
  spring_state_ready s ->
  constants_in_range (sim_this s) ->
  exists s' : Sim,
    updates n s = (Normal tt, s')
    /\ 0 <= 1 - 0.4 * springConstant (sim_this s) <= 0.996
    /\ forall (i : Z) (p v a : Point),
         dynamic i ->
         point_at s i = Some p -> velocity_at s i = Some v ->
         anchor_at s i = Some a ->
         exists p' v' : Point,
           point_at s' i = Some p' /\ velocity_at s' i = Some v'
           /\ anchor_at s' i = Some a
           /\ spring_norm_for (springConstant (sim_this s)) p' v' a
              <= (1 - 0.4 * springConstant (sim_this s)) ^ n
                 * spring_norm_for (springConstant (sim_this s)) p v a
                 + rounding_slack
                     (Rabs (x a) + Rabs (y a)
                      + spring_norm_for (springConstant (sim_this s)) p v a).
Proof.
  intros Hready Hrange.
  destruct (updates_contract_for n s Hready Hrange) as (s' & Hu & Hfac & Hstep).
  exists s'. split; [ exact Hu | ]. split; [ exact Hfac | ].
  intros i p v a Hdyn Hp Hv Ha.
  destruct (Hstep i p v a Hdyn Hp Hv Ha) as (p' & v' & Hp' & Hv' & Ha' & Hn).
  exists p', v'.
  split; [ exact Hp' | ]. split; [ exact Hv' | ]. split; [ exact Ha' | ].
  assert (Hk : 0 < springConstant (sim_this s)) by (destruct Hrange as [Hk _]; lra).
  pose proof (spring_norm_for_nonneg _ p v a Hk) as HN.
  pose proof (Rabs_pos (x a)). pose proof (Rabs_pos (y a)).
  destruct (rounding_slack_bounds
              (Rabs (x a) + Rabs (y a)
               + spring_norm_for (springConstant (sim_this s)) p v a))
    as [Hs0 _]; [ lra | ].
  lra.
Qed.

Lemma updates_settle_for_all_constants_witness :
  exists s' : Sim,
    updates 600 (on_this (Physics.setSpringConstant 0.3) demo_dragged) = (Normal tt, s')
    /\ exists p' v' : Point,
         point_at s' 1 = Some p' /\ velocity_at s' 1 = Some v'
         /\ spring_norm_for 0.3 p' v' {| x := 200 + (250 - 200) * 0.8;
                                         y := 50 + (80 - 50) * 0.8 |}
            <= (1 - 0.4 * 0.3) ^ 600
               * spring_norm_for 0.3 {| x := 200; y := 50 |}
                   {| x := 0 + (250 - 200) * 0.1; y := 0 + (80 - 50) * 0.1 |}
                   {| x := 200 + (250 - 200) * 0.8; y := 50 + (80 - 50) * 0.8 |}
               + rounding_slack
                   (Rabs (200 + (250 - 200) * 0.8) + Rabs (50 + (80 - 50) * 0.8)
                    + spring_norm_for 0.3 {| x := 200; y := 50 |}
                        {| x := 0 + (250 - 200) * 0.1; y := 0 + (80 - 50) * 0.1 |}
                        {| x := 200 + (250 - 200) * 0.8;
                           y := 50 + (80 - 50) * 0.8 |}).
Proof.
  assert (Hk : springConstant
                 (sim_this (on_this (Physics.setSpringConstant 0.3) demo_dragged))
               = 0.3).
  { simpl. unfold Rmax, Rmin.
    destruct (Rle_dec 0.5 0.3); [ lra | ].
    destruct (Rle_dec 0.01 0.3); [ reflexivity | lra ]. }
  destruct (updates_settle_for_all_constants 600
              (on_this (Physics.setSpringConstant 0.3) demo_dragged))
    as (s' & Hu & _ & Hstep).
  - intros i [-> | ->] _; split; eexists; reflexivity.
  - unfold constants_in_range. rewrite Hk. simpl. lra.
  - exists s'. split; [ exact Hu | ].
    destruct (Hstep 1%Z {| x := 200; y := 50 |}
                {| x := 0 + (250 - 200) * 0.1; y := 0 + (80 - 50) * 0.1 |}
                {| x := 200 + (250 - 200) * 0.8; y := 50 + (80 - 50) * 0.8 |})
      as (p' & v' & Hp & Hv & _ & Hn);
      [ now left | reflexivity | reflexivity | reflexivity | ].
    rewrite Hk in Hn.
    exists p', v'. repeat split; assumption.
Defined.

(** ** A held pointer *)

Lemma drag_frame_anchor (index : Z) (targetX targetY : R) (s : Sim) (a : Point) :
  spring_state_ready s ->
  dynamic index -> (index < js_length (sim_controlPoints s))%Z ->
  anchor_at s index = Some a ->
  exists s' : Sim,
    (Physics.applyForceToPoint index targetX targetY ;;; Physics.update) s
    = (Normal tt, s')
    /\ spring_state_ready s'
    /\ js_length (sim_controlPoints s') = js_length (sim_controlPoints s)
    /\ mouseInfluence (sim_this s') = mouseInfluence (sim_this s)
    /\ anchor_at s' index
       = Some (vadd a (vscale (mouseInfluence (sim_this s))
                              (vsub {| x := targetX; y := targetY |} a))).
Proof.
  intros Hready Hdyn Hlt Ha.
  destruct (Hready index Hdyn Hlt) as [[v Hv] _].
  destruct (js_get_in_range (sim_controlPoints s) index) as [p Hp].
  { destruct Hdyn; lia. }
  pose proof (applyForceToPoint_applied index targetX targetY s p v a Hdyn Hp Hv Ha)
    as Happ.
  destruct (applyForceToPoint_keeps index targetX targetY s Hready)
    as (s1 & Happ' & Hready1 & Hcp1 & _).
  rewrite Happ in Happ'. injection Happ' as Hs1.
  destruct (update_ready s1 Hready1) as (s2 & s3 & _ & _ & Hu & St1 & St2).
  destruct St1 as (_ & _ & Hrest1 & _ & _ & Hm1 & Hlen1 & _).
  destruct St2 as (_ & _ & Hrest2 & _ & _ & Hm2 & Hlen2 & _).
  exists s3. split; [ unfold bind; rewrite Happ, Hs1; exact Hu | ].
  destruct (update_keeps s1 Hready1) as (s3' & Hu' & Hready3 & _).
  assert (s3' = s3) by congruence. subst s3'.
  split; [ exact Hready3 | ].
  split; [ rewrite Hlen2, Hlen1, Hcp1; reflexivity | ].
  split; [ rewrite Hm2, Hm1, <- Hs1; reflexivity | ].
  unfold anchor_at in *. rewrite Hrest2, Hrest1, <- Hs1. simpl.
  pose proof (js_get_Some _ _ _ Ha) as Har.
  rewrite js_get_insert_eq by exact Har.
  f_equal. apply Point_eq; simpl; ring.
Qed.

(** X11. With the pointer held on a dynamic point for [n] frames, each
    frame an [applyForceToPoint] followed by an [update], every call
    completes and the anchor closes in on the pointer geometrically: what
    is left of the way from the anchor to the pointer is the fraction
    [(1 - influence) ^ n] of the way at the start, whatever the simulation
    did to the point meanwhile. *)
Theorem held_pointer_pulls_anchor
    (n : nat) (index : Z) (targetX targetY : R) (s : Sim) (a : Point) :
  spring_state_ready s ->
  dynamic index -> (index < js_length (sim_controlPoints s))%Z ->
  anchor_at s index = Some a ->
  0 <= mouseInfluence (sim_this s) <= 1 ->
  let target := {| x := targetX; y := targetY |} in
  exists (s' : Sim) (a' : Point),
    drag_frames n index targetX targetY s = (Normal tt, s')
    /\ anchor_at s' index = Some a'
    /\ vsub target a' = vscale ((1 - mouseInfluence (sim_this s)) ^ n) (vsub target a)
    /\ distance a' target = (1 - mouseInfluence (sim_this s)) ^ n * distance a target.
Proof.
  intros Hready Hdyn Hlt Ha Hm target.
  revert s a Hready Hlt Ha Hm. induction n as [| n IH]; intros s a Hready Hlt Ha Hm.
  - exists s, a. split; [ reflexivity | ]. split; [ exact Ha | ].
    split; [ apply Point_eq; simpl; ring | simpl; ring ].
  - destruct (drag_frame_anchor index targetX targetY s a Hready Hdyn Hlt Ha)
      as (s1 & Hrun1 & Hready1 & Hlen1 & Hm1 & Ha1).
    destruct (IH s1 (vadd a (vscale (mouseInfluence (sim_this s)) (vsub target a)))
                 Hready1)
      as (s' & a' & Hrun & Ha' & Hvec & Hdist);
      [ now rewrite Hlen1 | exact Ha1 | now rewrite Hm1 | ].
    rewrite Hm1 in Hvec, Hdist.
    exists s', a'. split.
    { cbn [drag_frames]. unfold bind at 1.
      unfold bind at 1 in Hrun1.
      destruct (Physics.applyForceToPoint index targetX targetY s) as [[[] | e] s0];
        [ | discriminate ].
      unfold bind at 1. rewrite Hrun1. exact Hrun. }
    split; [ exact Ha' | ].
    set (m := mouseInfluence (sim_this s)) in *.
    assert (Hscaled : distance (vadd a (vscale m (vsub target a))) target
                      = (1 - m) * distance a target).
    { apply distance_scaled; simpl; [ lra | ring | ring ]. }
    split.
    + rewrite Hvec. apply Point_eq; simpl; ring.
    + rewrite Hdist, Hscaled. simpl. ring.
Qed.

Lemma held_pointer_pulls_anchor_witness :
  exists (s' : Sim) (a' : Point),
    drag_frames 3 1 250 80 demo_sim = (Normal tt, s')
    /\ anchor_at s' 1 = Some a'
    /\ vsub {| x := 250; y := 80 |} a'
       = vscale ((1 - 0.8) ^ 3) (vsub {| x := 250; y := 80 |} {| x := 200; y := 50 |})
    /\ distance a' {| x := 250; y := 80 |}
       = (1 - 0.8) ^ 3 * distance {| x := 200; y := 50 |} {| x := 250; y := 80 |}.
Proof.
  apply (held_pointer_pulls_anchor 3 1 250 80 demo_sim {| x := 200; y := 50 |}).
  - apply initialize_ready.
  - now left.
  - unfold js_length. simpl. lia.
  - reflexivity.
  - simpl. lra.
Defined.

(** ** Hit test and tie-break *)

Lemma hit_distance (m p : Point) :
  sqrt ((x m - x p) ^ 2 + (y m - y p) ^ 2) = distance m p.
Proof. unfold distance, magnitude; simpl. f_equal. ring. Qed.

Lemma handler_sim_store (s : Sim) (h : InputHandler) :
  handler_sim (store_sim s h) = s.
Proof. destruct s; reflexivity. Qed.

Lemma handleMouseDown_body_miss (i : Z) (h : InputHandler) :
  (0 <= i)%Z -> ~ near_point h i ->
  Input.handleMouseDown_body i h = (Normal Continue, h).
Proof.
  intros H0 Hfar.
  unfold Input.handleMouseDown_body, bind, get, defined, ret, throw.
  destruct (i >=? js_length (controlPoints (bezier h)))%Z eqn:E; [ reflexivity | ].
  rewrite Z.geb_leb in E. apply Z.leb_gt in E.
  destruct (js_get_in_range (controlPoints (bezier h)) i) as [p Hp]; [ lia | ].
  rewrite Hp, hit_distance.
  destruct (Rlt_dec (distance (mouse h) p) (interactionRadius h)) as [Hlt | _];
    [ | reflexivity ].
  exfalso. apply Hfar. exists p. split; assumption.
Qed.

Lemma handleMouseDown_body_hit (i : Z) (h : InputHandler) :
  near_point h i ->
  let h1 := set_activePointIndex i (set_isInteracting true h) in
  let run := Physics.applyForceToPoint i (x (mouse h)) (y (mouse h)) (handler_sim h) in
  Input.handleMouseDown_body i h
  = (match fst run with
     | Normal _ => Normal Break
     | Throw e => Throw e
     end,
     store_sim (snd run) h1).
Proof.
  intros (p & Hp & Hnear). simpl.
  pose proof (js_get_Some _ _ _ Hp) as [_ Hlt].
  unfold Input.handleMouseDown_body, bind, get, defined, ret, throw, modify.
  destruct (i >=? js_length (controlPoints (bezier h)))%Z eqn:E.
  { apply Z.geb_le in E. lia. }
  rewrite Hp, hit_distance.
  destruct (Rlt_dec (distance (mouse h) p) (interactionRadius h)) as [_ | Hn];
    [ | contradiction ].
  unfold call_physics, handler_sim; simpl.
  destruct (Physics.applyForceToPoint i (x (mouse h)) (y (mouse h))
              {| sim_this := physics h; sim_controlPoints := controlPoints (bezier h) |})
    as [[[] | e] s]; reflexivity.
Qed.

Lemma handleMouseDown_hit_first (e : MouseEvent) (h : InputHandler) :
  near_point h 1 ->
  snd (Input.handleMouseDown e h)
  = store_sim (snd (Physics.applyForceToPoint 1 (x (mouse h)) (y (mouse h))
                      (handler_sim h)))
              (set_activePointIndex 1 (set_isInteracting true h)).
Proof.
  intros Hnear. unfold Input.handleMouseDown. cbn [for_each]. unfold bind at 1.
  rewrite (handleMouseDown_body_hit 1 h Hnear).
  destruct (fst (Physics.applyForceToPoint 1 (x (mouse h)) (y (mouse h))
                   (handler_sim h))) as [[] | err]; reflexivity.
Qed.

Lemma handleMouseDown_hit_second (e : MouseEvent) (h : InputHandler) :
  ~ near_point h 1 -> near_point h 2 ->
  snd (Input.handleMouseDown e h)
  = store_sim (snd (Physics.applyForceToPoint 2 (x (mouse h)) (y (mouse h))
                      (handler_sim h)))
              (set_activePointIndex 2 (set_isInteracting true h)).
Proof.
  intros Hfar Hnear. unfold Input.handleMouseDown. cbn [for_each]. unfold bind at 1.
  rewrite (handleMouseDown_body_miss 1 h) by (lia || exact Hfar).
  unfold bind at 1.
  rewrite (handleMouseDown_body_hit 2 h Hnear).
  destruct (fst (Physics.applyForceToPoint 2 (x (mouse h)) (y (mouse h))
                   (handler_sim h))) as [[] | err]; reflexivity.
Qed.

Lemma handleMouseDown_miss (e : MouseEvent) (h : InputHandler) :
  ~ near_point h 1 -> ~ near_point h 2 ->
  Input.handleMouseDown e h = (Normal tt, h).
Proof.
  intros Hfar1 Hfar2. unfold Input.handleMouseDown. cbn [for_each].
  unfold bind at 1.
  rewrite (handleMouseDown_body_miss 1 h) by (lia || exact Hfar1).
  unfold bind at 1.
  rewrite (handleMouseDown_body_miss 2 h) by (lia || exact Hfar2).
  reflexivity.
Qed.

(** X13. [handleMouseDown] tests the two dynamic points in index order
    with a strict comparison of the distance to the pointer against the
    interaction radius.  Within the radius of [P1] it starts dragging index
    1 and applies the force to index 1 only, also when [P2] is within the
    radius too; otherwise, within the radius of [P2], it starts dragging
    index 2; otherwise it completes and changes nothing, so a drag already
    under way goes on. *)
Theorem handleMouseDown_hit_test (e : MouseEvent) (h : InputHandler) :
  let h' := snd (Input.handleMouseDown e h) in
  let force i :=
    Physics.applyForceToPoint i (x (mouse h)) (y (mouse h)) (handler_sim h) in
  (near_point h 1 ->
   isInteracting h' = true /\ activePointIndex h' = 1%Z
   /\ handler_sim h' = snd (force 1%Z))
  /\ (~ near_point h 1 -> near_point h 2 ->
      isInteracting h' = true /\ activePointIndex h' = 2%Z
      /\ handler_sim h' = snd (force 2%Z))
  /\ (~ near_point h 1 -> ~ near_point h 2 ->
      Input.handleMouseDown e h = (Normal tt, h)).
Proof.
  simpl. split; [ | split ].
  - intros Hnear. rewrite (handleMouseDown_hit_first e h Hnear).
    rewrite handler_sim_store. repeat split; reflexivity.
  - intros Hfar Hnear. rewrite (handleMouseDown_hit_second e h Hfar Hnear).
    rewrite handler_sim_store. repeat split; reflexivity.
  - apply handleMouseDown_miss.
Qed.

Lemma sqrt_5000_lt_80 : sqrt 5000 < 80.
Proof.
  rewrite <- (sqrt_square 80) by lra.
  apply sqrt_lt_1; lra.
Qed.

Lemma handleMouseDown_hit_test_witness :
  let h := set_mouse {| x := 250; y := 100 |}
             (Input.constructor
                (curve_of (mkPoint 100 100) (mkPoint 200 50)
                          (mkPoint 300 150) (mkPoint 400 100))
                (Physics.setupControlPoints Physics.constructor demoPoints)) in
  near_point h 1 /\ near_point h 2
  /\ isInteracting (snd (Input.handleMouseDown (mkMouseEvent 0 0) h)) = true
  /\ activePointIndex (snd (Input.handleMouseDown (mkMouseEvent 0 0) h)) = 1%Z.
Proof.
  intros h.
  assert (H1 : near_point h 1).
  { exists {| x := 200; y := 50 |}. split; [ reflexivity | ].
    unfold distance, magnitude; simpl.
    replace ((250 - 200) * (250 - 200) + (100 - 50) * (100 - 50)) with 5000 by lra.
    apply sqrt_5000_lt_80. }
  assert (H2 : near_point h 2).
  { exists {| x := 300; y := 150 |}. split; [ reflexivity | ].
    unfold distance, magnitude; simpl.
    replace ((250 - 300) * (250 - 300) + (100 - 150) * (100 - 150)) with 5000 by lra.
    apply sqrt_5000_lt_80. }
  split; [ exact H1 | ]. split; [ exact H2 | ].
  destruct (proj1 (handleMouseDown_hit_test (mkMouseEvent 0 0) h) H1)
    as (Hi & Ha & _).
  split; assumption.
Defined.

(** ** What the handlers leave alone *)

Lemma call_applyForce_bezier (index : Z) (targetX targetY : R) (h : InputHandler) :
  bezier (snd (call_physics (Physics.applyForceToPoint index targetX targetY) h))
  = bezier h.
Proof.
  unfold call_physics.
  pose proof (applyForceToPoint_frame index targetX targetY (handler_sim h))
    as (Hcp & _).
  unfold handler_sim in Hcp.
  destruct (Physics.applyForceToPoint index targetX targetY
              {| sim_this := physics h; sim_controlPoints := controlPoints (bezier h) |})
    as [r s].
  simpl in *. rewrite Hcp. destruct (bezier h); reflexivity.
Qed.

Lemma handleMouseDown_bezier (e : MouseEvent) (h : InputHandler) :
  bezier (snd (Input.handleMouseDown e h)) = bezier h.
Proof.
  assert (Hbody : forall (i : Z) (h0 : InputHandler),
             bezier (snd (Input.handleMouseDown_body i h0)) = bezier h0).
  { intros i h0.
    unfold Input.handleMouseDown_body, bind, get, modify, defined, ret, throw.
    destruct (i >=? js_length (controlPoints (bezier h0)))%Z; [ reflexivity | ].
    destruct (js_get (controlPoints (bezier h0)) i) as [p |]; [ | reflexivity ].
    destruct (Rlt_dec _ _); [ | reflexivity ].
    set (h1 := set_activePointIndex i (set_isInteracting true h0)).
    pose proof (call_applyForce_bezier i (x (mouse h0)) (y (mouse h0)) h1) as Hb.
    destruct (call_physics _ h1) as [[[] | err] h2]; simpl in *; exact Hb. }
  unfold Input.handleMouseDown. cbn [for_each]. unfold bind at 1.
  pose proof (Hbody 1%Z h) as H1.
  destruct (Input.handleMouseDown_body 1 h) as [[[ | ] | e1] h1]; simpl in *;
    try exact H1.
  unfold bind at 1. pose proof (Hbody 2%Z h1) as H2.
  destruct (Input.handleMouseDown_body 2 h1) as [[[ | ] | e2] h2]; simpl in *;
    congruence.
Qed.

(** X14. The handlers of [InputHandler] never write the curve: after
    [handleMouseMove], [handleMouseDown], [handleMouseUp],
    [handleMouseLeave], [update] or [setInteractionRadius] the control
    points, the cached samples and the sample density are as before.  While
    no drag is under way, all of them but [handleMouseDown] leave the
    physics object as it is too; and [handleMouseUp] and [handleMouseLeave]
    end a drag without touching the physics object, so the anchor stays
    where the drag left it. *)
Theorem handlers_leave_curve (h : InputHandler) (c : call) :
  (c <> PhysicsUpdate -> bezier (after_call h c) = bezier h)
  /\ (isInteracting h = false -> c <> PhysicsUpdate ->
      (forall e : MouseEvent, c <> MouseDown e) ->
      physics (after_call h c) = physics h)
  /\ (forall e : MouseEvent,
        (c = MouseUp e \/ c = MouseLeave e) ->
        isInteracting (after_call h c) = false
        /\ activePointIndex (after_call h c) = (-1)%Z
        /\ physics (after_call h c) = physics h
        /\ mouse (after_call h c) = mouse h).
Proof.
  unfold after_call. split; [ | split ].
  - intros Hc. destruct c as [rect e | e | e | e | | radius | ]; simpl;
      try reflexivity; try contradiction.
    + unfold Input.handleMouseMove, bind, get, modify.
      set (h1 := set_mouse _ h).
      destruct (isInteracting h1 && negb (activePointIndex h1 =? -1)%Z);
        [ | reflexivity ].
      apply (call_applyForce_bezier _ _ _ h1).
    + apply handleMouseDown_bezier.
    + unfold Input.update, bind, get.
      destruct (isInteracting h && negb (activePointIndex h =? -1)%Z);
        [ | reflexivity ].
      apply call_applyForce_bezier.
  - intros Hidle Hc Hdown.
    destruct c as [rect e | e | e | e | | radius | ]; simpl;
      try reflexivity; try contradiction.
    + unfold Input.handleMouseMove, bind, get, modify; simpl.
      rewrite Hidle. reflexivity.
    + now destruct (Hdown e).
    + unfold Input.update, bind, get. rewrite Hidle. reflexivity.
  - intros e [-> | ->]; simpl; repeat split; reflexivity.
Qed.

(** ** The page never throws once the physics is set up *)

Lemma call_physics_keeps (m : M Sim unit) (h : InputHandler) :
  (exists s' : Sim,
      m (handler_sim h) = (Normal tt, s') /\ spring_state_ready s'
      /\ js_length (sim_controlPoints s') = js_length (controlPoints (bezier h))) ->
  exists h' : InputHandler,
    call_physics m h = (Normal tt, h')
    /\ spring_state_ready (handler_sim h')
    /\ js_length (controlPoints (bezier h')) = js_length (controlPoints (bezier h)).
Proof.
  intros (s' & Hm & Hready & Hlen). unfold call_physics.
  unfold handler_sim in Hm. rewrite Hm.
  exists (store_sim s' h). split; [ reflexivity | ].
  rewrite handler_sim_store. split; [ exact Hready | exact Hlen ].
Qed.

Lemma call_applyForce_keeps (index : Z) (targetX targetY : R) (h : InputHandler) :
  spring_state_ready (handler_sim h) ->
  exists h' : InputHandler,
    call_physics (Physics.applyForceToPoint index targetX targetY) h = (Normal tt, h')
    /\ spring_state_ready (handler_sim h')
    /\ js_length (controlPoints (bezier h')) = js_length (controlPoints (bezier h)).
Proof.
  intros Hready. apply call_physics_keeps.
  destruct (applyForceToPoint_keeps index targetX targetY (handler_sim h) Hready)
    as (s' & Hrun & Hready' & Hcp & _).
  exists s'. split; [ exact Hrun | ]. split; [ exact Hready' | ].
  now rewrite Hcp.
Qed.

Lemma handleMouseDown_body_keeps (i : Z) (h : InputHandler) :
  (0 <= i)%Z -> spring_state_ready (handler_sim h) ->
  exists (c : ctl) (h' : InputHandler),
    Input.handleMouseDown_body i h = (Normal c, h')
    /\ spring_state_ready (handler_sim h')
    /\ js_length (controlPoints (bezier h')) = js_length (controlPoints (bezier h)).
Proof.
  intros H0 Hready.
  unfold Input.handleMouseDown_body, bind, get, modify, defined, ret, throw.
  destruct (i >=? js_length (controlPoints (bezier h)))%Z eqn:E.
  { exists Continue, h. split; [ reflexivity | ].
    split; [ exact Hready | reflexivity ]. }
  rewrite Z.geb_leb in E. apply Z.leb_gt in E.
  destruct (js_get_in_range (controlPoints (bezier h)) i) as [p Hp]; [ lia | ].
  rewrite Hp.
  destruct (Rlt_dec _ _).
  - set (h1 := set_activePointIndex i (set_isInteracting true h)).
    destruct (call_applyForce_keeps i (x (mouse h)) (y (mouse h)) h1 Hready)
      as (h' & Hrun & Hready' & Hlen).
    rewrite Hrun. exists Break, h'. split; [ reflexivity | ].
    split; [ exact Hready' | exact Hlen ].
  - exists Continue, h. split; [ reflexivity | ]. split; [ exact Hready | reflexivity ].
Qed.

Lemma run_call_keeps (c : call) (h : InputHandler) :
  spring_state_ready (handler_sim h) ->
  exists h' : InputHandler,
    run_call c h = (Normal tt, h')
    /\ spring_state_ready (handler_sim h')
    /\ js_length (controlPoints (bezier h')) = js_length (controlPoints (bezier h)).
Proof.
  intros Hready. destruct c as [rect e | e | e | e | | radius | ]; simpl.
  - unfold Input.handleMouseMove, bind, get, modify.
    set (h1 := set_mouse _ h).
    destruct (isInteracting h1 && negb (activePointIndex h1 =? -1)%Z).
    + apply (call_applyForce_keeps _ _ _ h1 Hready).
    + exists h1. split; [ reflexivity | ]. split; [ exact Hready | reflexivity ].
  - unfold Input.handleMouseDown. cbn [for_each]. unfold bind at 1.
    destruct (handleMouseDown_body_keeps 1 h) as (c1 & h1 & Hb1 & Hr1 & Hl1);
      [ lia | exact Hready | ].
    rewrite Hb1. destruct c1.
    + unfold bind at 1.
      destruct (handleMouseDown_body_keeps 2 h1) as (c2 & h2 & Hb2 & Hr2 & Hl2);
        [ lia | exact Hr1 | ].
      rewrite Hb2. exists h2.
      split; [ destruct c2; reflexivity | ]. split; [ exact Hr2 | congruence ].
    + exists h1. split; [ reflexivity | ]. split; [ exact Hr1 | exact Hl1 ].
  - eexists. split; [ reflexivity | ]. split; [ exact Hready | reflexivity ].
  - eexists. split; [ reflexivity | ]. split; [ exact Hready | reflexivity ].
  - unfold Input.update, bind, get.
    destruct (isInteracting h && negb (activePointIndex h =? -1)%Z).
    + now apply call_applyForce_keeps.
    + exists h. split; [ reflexivity | ]. split; [ exact Hready | reflexivity ].
  - eexists. split; [ reflexivity | ]. split; [ exact Hready | reflexivity ].
  - apply call_physics_keeps.
    destruct (update_keeps (handler_sim h) Hready)
      as (s' & Hu & Hready' & _ & _ & _ & Hlen & _).
    exists s'. split; [ exact Hu | ]. split; [ exact Hready' | exact Hlen ].
Qed.

(** X15. Once the physics object was set up on the control points of the
    curve, no sequence of mouse events, per-frame [update]s,
    [setInteractionRadius] calls and simulation steps throws: every call
    completes, the spring state stays complete for the dynamic points, and
    the number of control points stays what it was. *)
Theorem page_never_throws
    (bezier0 : BezierCurve) (this : PhysicsSystem) (cs : list call) :
  exists h' : InputHandler,
    run_calls cs
      (Input.constructor bezier0
         (Physics.setupControlPoints this (controlPoints bezier0)))
    = (Normal tt, h')
    /\ after_calls
         (Input.constructor bezier0
            (Physics.setupControlPoints this (controlPoints bezier0))) cs
       = h'
    /\ spring_state_ready (handler_sim h')
    /\ js_length (controlPoints (bezier h')) = js_length (controlPoints bezier0).
Proof.
  assert (Hgen : forall (cs0 : list call) (h : InputHandler),
             spring_state_ready (handler_sim h) ->
             exists h' : InputHandler,
               run_calls cs0 h = (Normal tt, h')
               /\ after_calls h cs0 = h'
               /\ spring_state_ready (handler_sim h')
               /\ js_length (controlPoints (bezier h'))
                  = js_length (controlPoints (bezier h))).
  { induction cs0 as [| c rest IH]; intros h Hready.
    - exists h. split; [ reflexivity | ]. split; [ reflexivity | ].
      split; [ exact Hready | reflexivity ].
    - destruct (run_call_keeps c h Hready) as (h1 & Hrun1 & Hready1 & Hlen1).
      destruct (IH h1 Hready1) as (h' & Hrun & Hafter & Hready' & Hlen).
      exists h'. split; [ cbn [run_calls]; unfold bind; now rewrite Hrun1 | ].
      split; [ | split; [ exact Hready' | congruence ] ].
      cbn [after_calls fold_left]. unfold after_call at 2. rewrite Hrun1.
      exact Hafter. }
  apply Hgen. apply (initialize_ready this (controlPoints bezier0)).
Qed.

(** ** Drawing the curve *)

Lemma draw_all_fold (cmds : list ctx_cmd) (r : Renderer) :
  fold_left (fun r0 c => draw c r0) cmds r
  = {| ctx := ctx r ++ cmds; tangentDensity := tangentDensity r;
       tangentLength := tangentLength r;
       controlPointRadius := controlPointRadius r |}.
Proof.
  revert r. induction cmds as [| c rest IH]; intros r; simpl.
  - rewrite app_nil_r. destruct r; reflexivity.
  - rewrite IH. unfold draw; simpl. now rewrite <- app_assoc.
Qed.

Lemma fold_over_indices {A S} (g : option A -> S -> S) (l pre : list A) (s : S) :
  fold_left (fun s0 i => g (js_get (pre ++ l) i) s0)
            (map (fun k => Z.of_nat (length pre + k)) (seq 0 (length l))) s
  = fold_left (fun s0 a => g (Some a) s0) l s.
Proof.
  revert pre s. induction l as [| a rest IH]; intros pre s; [ reflexivity | ].
  cbn [length seq map fold_left].
  assert (Ha : js_get (pre ++ a :: rest) (Z.of_nat (length pre + 0)) = Some a).
  { unfold js_get. destruct (Z.of_nat (length pre + 0) <? 0)%Z eqn:E;
      [ apply Z.ltb_lt in E; lia | ].
    rewrite Nat2Z.id, Nat.add_0_r. now apply list_lookup_middle. }
  rewrite Ha. rewrite <- seq_shift, map_map.
  specialize (IH (pre ++ [a]) (g (Some a) s)).
  rewrite <- app_assoc in IH. simpl in IH.
  rewrite <- IH. f_equal. apply map_ext. intros k.
  rewrite length_app. simpl. f_equal. lia.
Qed.

Lemma range_from_1 {A} (p : A) (ps : list A) :
  range 1 (js_length (p :: ps))
  = map (fun k => Z.of_nat (length [p] + k)) (seq 0 (length ps)).
Proof.
  unfold range, js_length.
  replace (Z.to_nat (Z.of_nat (length (p :: ps)) - 1)) with (length ps)
    by (simpl; lia).
  apply map_ext. intros k. simpl. lia.
Qed.

Lemma line_loop (points : list Point) (r : Renderer) :
  for_each (range 1 (js_length points))
    (fun i =>
       p <- defined (js_get points i) ;;
       modify (draw (LineTo (x p) (y p))) ;;;
       ret Continue) r
  = (Normal tt,
     fold_left (fun r0 c => draw c r0)
               (map (fun p => LineTo (x p) (y p)) (tail points)) r).
Proof.
  destruct (for_each_fold (fun _ : Renderer => True)
              (fun i r0 => match js_get points i with
                           | Some p => draw (LineTo (x p) (y p)) r0
                           | None => r0
                           end)
              (fun i =>
                 p <- defined (js_get points i) ;;
                 modify (draw (LineTo (x p) (y p))) ;;;
                 ret Continue)
              (range 1 (js_length points)) r) as [Hrun _].
  { exact I. }
  { intros i r0 Hi _. split; [ | exact I ].
    apply range_In in Hi.
    destruct (js_get_in_range points i) as [p Hp]; [ lia | ].
    unfold bind. rewrite Hp. reflexivity. }
  rewrite Hrun. f_equal.
  destruct points as [| p ps]; [ reflexivity | ].
  rewrite range_from_1.
  pose proof (fold_over_indices
                (fun o r0 => match o with
                             | Some q => draw (LineTo (x q) (y q)) r0
                             | None => r0
                             end) ps [p] r) as Hfold.
  cbn beta in Hfold. cbn [app] in Hfold. rewrite Hfold.
  cbn [tail]. clear Hrun Hfold. revert r.
  induction ps as [| q rest IH]; intros r; [ reflexivity | ].
  simpl. apply IH.
Qed.

Lemma drawn_drawn (r : Renderer) (c1 c2 : list ctx_cmd) :
  drawn (drawn r c1) c2 = drawn r (c1 ++ c2).
Proof. unfold drawn; simpl. now rewrite app_assoc. Qed.

Lemma draw_drawn (r : Renderer) (c : ctx_cmd) : draw c r = drawn r [c].
Proof. reflexivity. Qed.

Lemma renderCurve_run
    (r : Renderer) (this b' : BezierCurve) (first second : Point) (rest : list Point) :
  Bezier.sampleCurvePoints this = (Normal (first :: second :: rest), b') ->
  Render.renderCurve (r, this)
  = (Normal tt, (drawn r (curve_path first (second :: rest)), b')).
Proof.
  intros Hs. unfold Render.renderCurve. unfold bind at 1, on_curve at 1.
  cbn [fst snd]. rewrite Hs.
  destruct (js_length (first :: second :: rest) <? 2)%Z eqn:E.
  { apply Z.ltb_lt in E. unfold js_length in E. simpl in E. lia. }
  unfold on_renderer. cbn [fst snd].
  match goal with
  | |- (let '(r0, rd) := ?m r in _) = _ =>
      assert (Hm : m r = (Normal tt, drawn r (curve_path first (second :: rest))))
  end.
  { unfold bind at 1, modify at 1. unfold bind at 1, modify at 1.
    unfold bind at 1, modify at 1. unfold bind at 1, modify at 1.
    unfold bind at 1, modify at 1. unfold bind at 1.
    change (js_get (first :: second :: rest) 0) with (Some first).
    unfold defined at 1, ret at 1.
    unfold bind at 1, modify at 1. unfold bind at 1.
    rewrite line_loop.
    unfold bind, modify. cbn [tail]. rewrite draw_all_fold.
    rewrite !draw_drawn. fold (drawn (drawn (drawn (drawn (drawn (drawn (drawn r
      [SetStrokeStyle "#4fc3f7"]) [SetLineWidth 3]) [SetLineJoin "round"])
      [SetLineCap "round"]) [BeginPath]) [MoveTo (x first) (y first)])
      (map (fun p => LineTo (x p) (y p)) (second :: rest))).
    rewrite !drawn_drawn. reflexivity. }
  rewrite Hm. reflexivity.
Qed.

(** X16. On a curve of four control points with a positive whole
    [sampleDensity], [renderCurve] completes, re-samples the curve, and adds
    to the context one path and nothing else: it moves to [P0], draws a line
    to every further sample in order, the last being [P3], and strokes the
    path twice, once as the line and once as its glow. *)
Theorem renderCurve_draws_samples
    (r : Renderer) (this : BezierCurve) (p0 p1 p2 p3 : Point) (n : nat) :
  controlPoints this = [p0; p1; p2; p3] ->
  (0 < n)%nat ->
  sampleDensity this = INR n ->
  exists (samples rest : list Point),
    Bezier.sampleCurvePoints this = (Normal samples, set_curvePoints samples this)
    /\ samples = p0 :: rest
    /\ length rest = n
    /\ last rest = Some p3
    /\ Render.renderCurve (r, this)
       = (Normal tt, (drawn r (curve_path p0 rest), set_curvePoints samples this)).
Proof.
  intros HP Hn Hd.
  set (samples := map (cubic_bernstein p0 p1 p2 p3) (sample_parameters n)).
  assert (Hrun : Bezier.sampleCurvePoints this
                 = (Normal samples, set_curvePoints samples this)).
  { rewrite (sampleCurvePoints_run this p0 p1 p2 p3 HP), Hd.
    now rewrite sample_parameters_range. }
  destruct (samples_head_last p0 p1 p2 p3 n Hn) as [Hhead Hlast].
  fold samples in Hhead, Hlast.
  assert (Hlen : length samples = S n).
  { unfold samples, sample_parameters. now rewrite !length_map, length_seq. }
  destruct samples as [| first rest] eqn:Es; [ discriminate | ].
  simpl in Hhead. injection Hhead as ->.
  destruct rest as [| second rest']; [ simpl in Hlen; lia | ].
  exists (p0 :: second :: rest'), (second :: rest').
  split; [ exact Hrun | ]. split; [ reflexivity | ].
  split; [ simpl in Hlen; simpl; lia | ].
  split; [ now rewrite last_cons_cons in Hlast | ].
  now apply renderCurve_run.
Qed.

Lemma renderCurve_draws_samples_witness :
  exists (samples rest : list Point),
    Bezier.sampleCurvePoints (curve_of (mkPoint 100 100) (mkPoint 200 50)
                                       (mkPoint 300 150) (mkPoint 400 100))
    = (Normal samples,
       set_curvePoints samples (curve_of (mkPoint 100 100) (mkPoint 200 50)
                                         (mkPoint 300 150) (mkPoint 400 100)))
    /\ samples = mkPoint 100 100 :: rest
    /\ length rest = 200%nat
    /\ last rest = Some (mkPoint 400 100)
    /\ Render.renderCurve
         (Render.constructor,
          curve_of (mkPoint 100 100) (mkPoint 200 50)
                   (mkPoint 300 150) (mkPoint 400 100))
       = (Normal tt,
          (drawn Render.constructor (curve_path (mkPoint 100 100) rest),
           set_curvePoints samples (curve_of (mkPoint 100 100) (mkPoint 200 50)
                                             (mkPoint 300 150) (mkPoint 400 100)))).
Proof.
  apply (renderCurve_draws_samples Render.constructor
           (curve_of (mkPoint 100 100) (mkPoint 200 50)
                     (mkPoint 300 150) (mkPoint 400 100))
           (mkPoint 100 100) (mkPoint 200 50) (mkPoint 300 150) (mkPoint 400 100)
           200).
  - reflexivity.
  - lia.
  - symmetry. apply (INR_IZR_INZ 200).
Defined.

(** X17. When the curve cannot be sampled [renderCurve] draws nothing: with
    a number of control points other than four (and a [sampleDensity] that
    is not negative) it throws and the context is untouched; with a negative
    [sampleDensity] there are fewer than two samples and it returns with the
    context untouched.  In both cases the cache of the curve is left
    empty. *)
Theorem renderCurve_draws_nothing (r : Renderer) (this : BezierCurve) :
  (length (controlPoints this) <> 4%nat -> 0 <= sampleDensity this ->
   Render.renderCurve (r, this)
   = (Throw InvalidControlPointCount, (r, set_curvePoints [] this)))
  /\ (sampleDensity this < 0 ->
      Render.renderCurve (r, this) = (Normal tt, (r, set_curvePoints [] this))).
Proof.
  split.
  - intros Hlen Hd. unfold Render.renderCurve. unfold bind at 1, on_curve at 1.
    cbn [fst snd].
    assert (Hs : Bezier.sampleCurvePoints this
                 = (Throw InvalidControlPointCount, set_curvePoints [] this)).
    { unfold Bezier.sampleCurvePoints.
      unfold bind at 1, modify at 1. unfold bind at 1, get at 1.
      unfold bind at 1.
      change (sampleDensity (set_curvePoints [] this)) with (sampleDensity this).
      destruct (range_upto_nonneg _ Hd) as [rest ->].
      simpl. unfold bind at 1. unfold bind at 1, get at 1.
      unfold bind at 1, lift at 1.
      rewrite calculatePoint_wrong_count by exact Hlen. reflexivity. }
    rewrite Hs. reflexivity.
  - intros Hd. unfold Render.renderCurve. unfold bind at 1, on_curve at 1.
    cbn [fst snd].
    assert (Hs : Bezier.sampleCurvePoints this
                 = (Normal [], set_curvePoints [] this)).
    { unfold Bezier.sampleCurvePoints.
      unfold bind at 1, modify at 1. unfold bind at 1, get at 1.
      unfold bind at 1.
      change (sampleDensity (set_curvePoints [] this)) with (sampleDensity this).
      rewrite (range_upto_negative _ Hd). reflexivity. }
    rewrite Hs. reflexivity.
Qed.

(** ** The interaction hint *)

Lemma near_point_dec (h : InputHandler) (i : Z) : near_point h i \/ ~ near_point h i.
Proof.
  unfold near_point.
  destruct (js_get (controlPoints (bezier h)) i) as [p |] eqn:Hp.
  - destruct (Rlt_dec (distance (mouse h) p) (interactionRadius h)) as [Hlt | Hge].
    + left. eauto.
    + right. intros (q & Hq & Hlt). congruence.
  - right. intros (q & Hq & _). discriminate.
Qed.

Lemma hint_body_miss (h : InputHandler) (i : Z) (nearPoint : bool) :
  (0 <= i)%Z -> ~ near_point h i ->
  (if (i >=? js_length (controlPoints (bezier h)))%Z then ret Continue else
   point <- defined (js_get (controlPoints (bezier h)) i) ;;
   let distance := sqrt ((x (mouse h) - x point) ^ 2
                         + (y (mouse h) - y point) ^ 2) in
   if Rlt_dec distance (interactionRadius h)
   then modify (fun _ => true) ;;; ret Break
   else ret Continue) nearPoint
  = (Normal Continue, nearPoint).
Proof.
  intros H0 Hfar.
  destruct (i >=? js_length (controlPoints (bezier h)))%Z eqn:E; [ reflexivity | ].
  rewrite Z.geb_leb in E. apply Z.leb_gt in E.
  destruct (js_get_in_range (controlPoints (bezier h)) i) as [p Hp]; [ lia | ].
  unfold bind. rewrite Hp. cbn [defined ret]. rewrite hit_distance.
  destruct (Rlt_dec (distance (mouse h) p) (interactionRadius h)) as [Hlt | _];
    [ | reflexivity ].
  exfalso. apply Hfar. exists p. split; assumption.
Qed.

Lemma hint_body_hit (h : InputHandler) (i : Z) (nearPoint : bool) :
  near_point h i ->
  (if (i >=? js_length (controlPoints (bezier h)))%Z then ret Continue else
   point <- defined (js_get (controlPoints (bezier h)) i) ;;
   let distance := sqrt ((x (mouse h) - x point) ^ 2
                         + (y (mouse h) - y point) ^ 2) in
   if Rlt_dec distance (interactionRadius h)
   then modify (fun _ => true) ;;; ret Break
   else ret Continue) nearPoint
  = (Normal Break, true).
Proof.
  intros (p & Hp & Hnear).
  pose proof (js_get_Some _ _ _ Hp) as [_ Hlt].
  destruct (i >=? js_length (controlPoints (bezier h)))%Z eqn:E.
  { apply Z.geb_le in E. lia. }
  unfold bind. rewrite Hp. cbn [defined ret]. rewrite hit_distance.
  destruct (Rlt_dec (distance (mouse h) p) (interactionRadius h)) as [_ | Hn];
    [ reflexivity | contradiction ].
Qed.

Lemma hint_loop_near (h : InputHandler) (body : Z -> M bool ctl) :
  (forall i b, (0 <= i)%Z -> ~ near_point h i -> body i b = (Normal Continue, b)) ->
  (forall i b, near_point h i -> body i b = (Normal Break, true)) ->
  near_point h 1 \/ near_point h 2 ->
  for_each [1%Z; 2%Z] body false = (Normal tt, true).
Proof.
  intros Hmiss Hhit Hnear. cbn [for_each].
  destruct (near_point_dec h 1) as [H1 | H1].
  - unfold bind at 1. rewrite (Hhit 1%Z false H1). reflexivity.
  - destruct Hnear as [H | H2]; [ contradiction | ].
    unfold bind at 1. rewrite (Hmiss 1%Z false) by (lia || exact H1).
    unfold bind at 1. rewrite (Hhit 2%Z false H2). reflexivity.
Qed.

Lemma renderInteractionHint_near (r : Renderer) (h : InputHandler) :
  near_point h 1 \/ near_point h 2 ->
  Render.renderInteractionHint (mouse h) (controlPoints (bezier h))
    (interactionRadius h) r
  = (Normal tt, drawn r (hint_circle (mouse h) (interactionRadius h))).
Proof.
  intros Hnear. unfold Render.renderInteractionHint.
  unfold bind at 1, with_local.
  match goal with
  | |- context [for_each ?l ?body false] =>
      rewrite (hint_loop_near h body)
  end.
  - unfold bind, modify. rewrite !draw_drawn, !drawn_drawn. reflexivity.
  - intros i b. exact (hint_body_miss h i b).
  - intros i b. exact (hint_body_hit h i b).
  - exact Hnear.
Qed.

Lemma hint_loop_far (h : InputHandler) (body : Z -> M bool ctl) :
  (forall i b, (0 <= i)%Z -> ~ near_point h i -> body i b = (Normal Continue, b)) ->
  ~ near_point h 1 -> ~ near_point h 2 ->
  for_each [1%Z; 2%Z] body false = (Normal tt, false).
Proof.
  intros Hmiss H1 H2. cbn [for_each].
  unfold bind at 1. rewrite (Hmiss 1%Z false) by (lia || exact H1).
  unfold bind at 1. rewrite (Hmiss 2%Z false) by (lia || exact H2).
  reflexivity.
Qed.

Lemma renderInteractionHint_far (r : Renderer) (h : InputHandler) :
  ~ near_point h 1 -> ~ near_point h 2 ->
  Render.renderInteractionHint (mouse h) (controlPoints (bezier h))
    (interactionRadius h) r
  = (Normal tt, r).
Proof.
  intros H1 H2. unfold Render.renderInteractionHint.
  unfold bind at 1, with_local.
  match goal with
  | |- context [for_each ?l ?body false] =>
      rewrite (hint_loop_far h body)
  end.
  - reflexivity.
  - intros i b. exact (hint_body_miss h i b).
  - exact H1.
  - exact H2.
Qed.

(** X18. [renderInteractionHint], given the pointer, the control points
    and the radius of a handler, draws the hint circle around the pointer
    exactly when the pointer is within the radius of [P1] or of [P2], by the
    same strict test as [handleMouseDown]: where the hint is drawn a mouse
    press starts a drag, and where it is not drawn the context is untouched
    and a mouse press changes nothing. *)
Theorem renderInteractionHint_matches_hit_test
    (r : Renderer) (h : InputHandler) (e : MouseEvent) :
  (near_point h 1 \/ near_point h 2 ->
   Render.renderInteractionHint (mouse h) (controlPoints (bezier h))
     (interactionRadius h) r
   = (Normal tt, drawn r (hint_circle (mouse h) (interactionRadius h)))
   /\ isInteracting (snd (Input.handleMouseDown e h)) = true)
  /\ (~ near_point h 1 -> ~ near_point h 2 ->
      Render.renderInteractionHint (mouse h) (controlPoints (bezier h))
        (interactionRadius h) r
      = (Normal tt, r)
      /\ Input.handleMouseDown e h = (Normal tt, h)).
Proof.
  split.
  - intros Hnear. split; [ now apply renderInteractionHint_near | ].
    destruct (near_point_dec h 1) as [H1 | H1].
    + now rewrite (handleMouseDown_hit_first e h H1).
    + destruct Hnear as [H | H2]; [ contradiction | ].
      now rewrite (handleMouseDown_hit_second e h H1 H2).
  - intros H1 H2. split;
      [ now apply renderInteractionHint_far | now apply handleMouseDown_miss ].
Qed.

Lemma renderInteractionHint_matches_hit_test_witness :
  let h := set_mouse {| x := 250; y := 100 |}
             (Input.constructor
                (curve_of (mkPoint 100 100) (mkPoint 200 50)
                          (mkPoint 300 150) (mkPoint 400 100))
                (Physics.setupControlPoints Physics.constructor demoPoints)) in
  Render.renderInteractionHint (mouse h) (controlPoints (bezier h))
    (interactionRadius h) Render.constructor
  = (Normal tt, drawn Render.constructor (hint_circle {| x := 250; y := 100 |} 80))
  /\ isInteracting (snd (Input.handleMouseDown (mkMouseEvent 0 0) h)) = true.
Proof.
  intros h.
  apply (proj1 (renderInteractionHint_matches_hit_test
                  Render.constructor h (mkMouseEvent 0 0))).
  left. exists {| x := 200; y := 50 |}. split; [ reflexivity | ].
  unfold distance, magnitude; simpl.
  replace ((250 - 200) * (250 - 200) + (100 - 50) * (100 - 50)) with 5000 by lra.
  apply sqrt_5000_lt_80.
Defined.

(** ** A failing step is not rolled back *)

(** X20. [update] is not atomic.  When the array has a control point of
    index 2, the spring state of index 1 exists and that of index 2 does not
    (as after [setupControlPoints] on an array of two points), [update]
    first performs the spring step of index 1 and then throws a
    [TypeError]: the state it leaves has [controlPoints[1]] and its
    velocity stepped, and everything else as before. *)
Theorem update_partial_on_missing_state (s : Sim) (p v a : Point) :
  (2 < js_length (sim_controlPoints s))%Z ->
  point_at s 1 = Some p -> velocity_at s 1 = Some v -> anchor_at s 1 = Some a ->
  velocity_at s 2 = None \/ anchor_at s 2 = None ->
  exists s' : Sim,
    Physics.update s = (Throw TypeError, s')
    /\ point_at s' 1
       = Some (fst (spring_step (springConstant (sim_this s))
                                (damping (sim_this s)) p v a))
    /\ velocity_at s' 1
       = Some (snd (spring_step (springConstant (sim_this s))
                                (damping (sim_this s)) p v a))
    /\ (forall j : Z, j <> 1%Z ->
          point_at s' j = point_at s j /\ velocity_at s' j = velocity_at s j)
    /\ restPositions (sim_this s') = restPositions (sim_this s).
Proof.
  intros Hlen Hp Hv Ha Hmiss.
  pose proof (update_body_step 1 s p v a Hp Hv Ha) as Hb1.
  pose proof (stepped_at_writes 1 s p v a Hp Hv Ha) as St1.
  set (s1 := write_velocity 1
               (snd (spring_step (springConstant (sim_this s))
                                 (damping (sim_this s)) p v a))
               (write_point 1
                  (fst (spring_step (springConstant (sim_this s))
                                    (damping (sim_this s)) p v a)) s)) in *.
  destruct St1 as (Hstep & Hother & Hrest & _ & _ & _ & Hlen1 & _).
  exists s1. split.
  { unfold Physics.update; simpl. unfold bind at 1. rewrite Hb1.
    unfold bind at 1. rewrite update_body_throws; [ reflexivity | lia | ].
    destruct (Hother 2%Z) as [_ Hv2]; [ lia | ].
    unfold anchor_at in *. rewrite Hv2, Hrest. exact Hmiss. }
  destruct (Hstep p v a Hp Hv Ha) as [Hp1 Hv1].
  split; [ exact Hp1 | ]. split; [ exact Hv1 | ].
  split; [ exact Hother | exact Hrest ].
Qed.

Lemma update_partial_on_missing_state_witness :
  exists s' : Sim,
    Physics.update
      {| sim_this := Physics.setupControlPoints Physics.constructor
                       [ {| x := 100; y := 100 |}; {| x := 210; y := 50 |} ];
         sim_controlPoints := demoPoints |}
    = (Throw TypeError, s')
    /\ point_at s' 1
       = Some (fst (spring_step 0.15 0.88 {| x := 200; y := 50 |} origin
                                {| x := 210; y := 50 |})).
Proof.
  destruct (update_partial_on_missing_state
              {| sim_this := Physics.setupControlPoints Physics.constructor
                               [ {| x := 100; y := 100 |}; {| x := 210; y := 50 |} ];
                 sim_controlPoints := demoPoints |}
              {| x := 200; y := 50 |} origin {| x := 210; y := 50 |})
    as (s' & Hu & Hp & _).
  - unfold js_length. simpl. lia.
  - reflexivity.
  - reflexivity.
  - reflexivity.
  - left. reflexivity.
  - exists s'. split; [ exact Hu | exact Hp ].
Defined.
